(** * SurgeMQ: MQTT packet codec and persistence providers

    A shallow embedding of the packet codec ([message]: PUBREL, SUBACK,
    UNSUBACK, PINGREQ) and of the persistence providers ([boltdb], [mem]),
    followed by the properties established about them.

    Conventions.
    - A Go [[]byte] buffer is a [list Z] of byte values; a slice expression
      is bounds-checked as in Go and a failed check is the outcome [Panic].
      Buffers have [cap = len].
    - Go [int], [uint16] and [int32] values are [Z]; every quantity computed
      here stays far below 2^31, so no wrap-around is written for [int];
      conversions to [byte] and [uint16] are written out with [Z.land].
    - A method with a pointer receiver returns the updated receiver next to
      the Go results; [(n, err)] is a pair [Z * option error]. *)

From Stdlib Require Import ZArith List String Ascii Bool Lia.
From stdpp Require Import base option gmap strings.
Import ListNotations.
Open Scope Z_scope.

(** ** Go outcomes: a returned value or a run-time panic *)

Inductive outcome (A : Type) : Type :=
| Ret (a : A)
| Panic.
Arguments Ret {A} a.
Arguments Panic {A}.

#[global] Instance outcome_ret : MRet outcome := @Ret.
#[global] Instance outcome_bind : MBind outcome :=
  fun A B f m => match m with Ret a => f a | Panic => Panic end.

Definition len (s : list Z) : Z := Z.of_nat (length s).

(** [s[lo:]] *)
Definition slice_from (s : list Z) (lo : Z) : outcome (list Z) :=
  if (0 <=? lo) && (lo <=? len s) then Ret (skipn (Z.to_nat lo) s) else Panic.

(** [s[lo:hi]] *)
Definition slice (s : list Z) (lo hi : Z) : outcome (list Z) :=
  if (0 <=? lo) && (lo <=? hi) && (hi <=? len s)
  then Ret (firstn (Z.to_nat (hi - lo)) (skipn (Z.to_nat lo) s))
  else Panic.

(** [s[i] = v] *)
Definition store (s : list Z) (i : Z) (v : Z) : outcome (list Z) :=
  if (0 <=? i) && (i <? len s)
  then Ret (firstn (Z.to_nat i) s ++ v :: skipn (Z.to_nat i + 1) s)
  else Panic.

(** [copy(dst[at:], src)] where [src] fits: the bytes of [src] overwrite
    [dst] from index [at] on. *)
Definition blit (dst : list Z) (at_ : Z) (src : list Z) : list Z :=
  firstn (Z.to_nat at_) dst ++ src ++ skipn (Z.to_nat at_ + length src) dst.

Definition byte (v : Z) : Z := Z.land v 255.

(** [binary.BigEndian.Uint16(b)] *)
Definition Uint16 (b : list Z) : outcome Z :=
  match b with
  | b0 :: b1 :: _ => Ret (Z.lor b1 (Z.shiftl b0 8))
  | _ => Panic
  end.

(** [binary.BigEndian.PutUint16(dst[at:], v)] *)
Definition PutUint16 (dst : list Z) (at_ : Z) (v : Z) : outcome (list Z) :=
  if (0 <=? at_) && (at_ + 2 <=? len dst)
  then Ret (blit dst at_ [byte (Z.shiftr v 8); byte v])
  else Panic.

Module message.

Inductive error : Set :=
| ErrInvalidLength
| ErrInvalidMessageType
| ErrInvalidMessageTypeFlags
| ErrInsufficientBufferSize
| ErrInvalidLPStringSize
| ErrInvalidReturnCode
| ErrInvalidQosType
| ErrInvalidTopic
| ErrPackedIDZero.

#[global] Instance error_eq_dec : EqDecision error.
Proof. solve_decision. Defined.

(** The result [(int, error)] of an encode or decode routine. *)
Definition result : Type := Z * option error.

(** *** Packet types (values fixed by [TestMessageTypes]) *)

Definition Type_ : Set := Z.
Definition RESERVED : Type_ := 0.
Definition CONNECT : Type_ := 1.
Definition CONNACK : Type_ := 2.
Definition PUBLISH : Type_ := 3.
Definition PUBACK : Type_ := 4.
Definition PUBREC : Type_ := 5.
Definition PUBREL : Type_ := 6.
Definition PUBCOMP : Type_ := 7.
Definition SUBSCRIBE : Type_ := 8.
Definition SUBACK : Type_ := 9.
Definition UNSUBSCRIBE : Type_ := 10.
Definition UNSUBACK : Type_ := 11.
Definition PINGREQ : Type_ := 12.
Definition PINGRESP : Type_ := 13.
Definition DISCONNECT : Type_ := 14.
Definition RESERVED2 : Type_ := 15.

(** [Type.DefaultFlags], with the values [TestFixedHeaderFlags] expects. *)
Definition DefaultFlags (t : Type_) : Z :=
  if (t =? PUBREL) || (t =? SUBSCRIBE) || (t =? UNSUBSCRIBE) then 2 else 0.

(** Modelled from the spec: [Type.Valid] (the type table is not among the
    sources): the packet type is one of the 14 known values, the boundary
    values 0 and 15 being reserved. *)
Definition Type_Valid (t : Type_) : bool := (CONNECT <=? t) && (t <=? DISCONNECT).

(** *** QoS *)

Definition QosType : Set := Z.
Definition QoS0 : QosType := 0.
Definition QoS1 : QosType := 1.
Definition QoS2 : QosType := 2.
Definition QosFailure : QosType := 128.

(** Modelled from the spec: [QosType.IsValid] (the QoS declarations are not
    among the sources): QoS is one of 0, 1, 2. *)
Definition QosType_IsValid (c : QosType) : bool :=
  (c =? QoS0) || (c =? QoS1) || (c =? QoS2).

(** Modelled from the spec: [QosType.IsValidFull] (the QoS declarations are
    not among the sources). The spec has two validity predicates, one for
    QoS values, 0 to 2, and one for return codes, 0 to 2 or 0x80 (failure);
    this is the one the SUBACK routines apply to return codes, and a SUBACK
    return code is one of 0, 1, 2 or 0x80. The SUBACK routines below do not
    depend on this choice: they take the predicate as a parameter. *)
Definition QosType_IsValidFull (c : QosType) : bool :=
  (c =? QoS0) || (c =? QoS1) || (c =? QoS2) || (c =? QosFailure).

(** *** Fixed header *)

Definition maxRemainingLength : Z := 268435455.

(** The fixed header every packet embeds (its declaration is not among the
    sources): the fields the packet types read and write. The size callback
    [sizeCb] of a packet is passed to [header_Size] where it is called. *)
Record header : Set := mkHeader {
  remLen : Z;       (* int32 *)
  mTypeFlags : Z;   (* byte: type in the top four bits, flags below *)
  packetID : Z      (* uint16 *)
}.

Definition set_remLen (v : Z) (h : header) : header :=
  mkHeader v (mTypeFlags h) (packetID h).
Definition set_mTypeFlags (v : Z) (h : header) : header :=
  mkHeader (remLen h) v (packetID h).
Definition set_packetID (v : Z) (h : header) : header :=
  mkHeader (remLen h) (mTypeFlags h) v.

(** Modelled from the spec: byte 0 is [(packetType << 4) | flags]. *)
Definition header_Type (h : header) : Type_ := Z.shiftr (mTypeFlags h) 4.
Definition header_Flags (h : header) : Z := Z.land (mTypeFlags h) 15.

(** Modelled from the spec: [header.setType] (the fixed header is not among
    the sources): byte 0 becomes [(packetType << 4) | flags] with the type's
    mandated flags. *)
Definition header_setType (t : Type_) (h : header) : header :=
  set_mTypeFlags (Z.lor (Z.shiftl t 4) (DefaultFlags t)) h.

(** Modelled from the spec: the remaining-length varint, 7 bits per byte
    from the least significant group on, the top bit of a byte announcing a
    further byte; at most four bytes. *)
Fixpoint put_varint (n : nat) (x : Z) : list Z :=
  match n with
  | O => []
  | S n' =>
      if x <? 128 then [x]
      else Z.lor (Z.land x 127) 128 :: put_varint n' (Z.shiftr x 7)
  end.

Definition encode_varint (x : Z) : list Z := put_varint 4 x.

(** Modelled from the spec: reading the remaining-length varint gives
    [Some (value, bytes read)], or [None] when the buffer ends inside it or a
    fourth byte still has its top bit set. *)
Fixpoint get_varint (n : nat) (src : list Z) (shift acc cnt : Z) : option (Z * Z) :=
  match n with
  | O => None
  | S n' =>
      match src with
      | [] => None
      | b :: rest =>
          let acc' := Z.lor acc (Z.shiftl (Z.land b 127) shift) in
          if Z.land b 128 =? 0 then Some (acc', cnt + 1)
          else get_varint n' rest (shift + 7) acc' (cnt + 1)
      end
  end.

Definition decode_varint (src : list Z) : option (Z * Z) := get_varint 4 src 0 0 0.

(** Modelled from the spec: the flags of byte 0 match the type's mandated
    pattern; PUBLISH carries DUP, QoS (bits 2-1) and Retain, with a QoS in
    range. *)
Definition flags_ok (t : Type_) (flags : Z) : bool :=
  if t =? PUBLISH then QosType_IsValid (Z.shiftr (Z.land flags 6) 1)
  else flags =? DefaultFlags t.

(** Modelled from the spec: [header.decode] (the fixed header is not among
    the sources). Byte 0 gives type and flags, validated; then the
    remaining length is read as a varint of at most four bytes; the declared
    remaining length must not exceed what is left of the buffer. The result
    is [(bytesConsumed, error)]; on an error the count is the offset at
    which decoding stopped. The routine never panics. *)
Definition header_decode (h : header) (src : list Z) : header * result :=
  match src with
  | [] => (h, (0, Some ErrInvalidLength))
  | b0 :: rest =>
      let h := set_mTypeFlags b0 h in
      if negb (Type_Valid (header_Type h)) then (h, (0, Some ErrInvalidMessageType))
      else if negb (flags_ok (header_Type h) (header_Flags h))
      then (h, (0, Some ErrInvalidMessageTypeFlags))
      else
        match decode_varint rest with
        | None => (h, (1, Some ErrInvalidLength))
        | Some (rl, m) =>
            let h := set_remLen rl h in
            let total := 1 + m in
            if len src - total <? rl then (h, (total, Some ErrInvalidLength))
            else (h, (total, None))
        end
  end.

(** Modelled from the spec: [header.encode] (not among the sources) writes
    byte 0 and the minimal varint of the remaining length and returns the
    number of bytes written. Writing past the end of [dst] is a Go index
    panic. *)
Definition header_encode (h : header) (dst : list Z) : outcome (list Z * Z) :=
  let bytes := mTypeFlags h :: encode_varint (remLen h) in
  if len bytes <=? len dst then Ret (blit dst 0 bytes, len bytes) else Panic.

(** Modelled from the spec: the packets that carry a packet identifier: all
    but CONNECT, CONNACK, PUBLISH at QoS 0, PINGREQ, PINGRESP and DISCONNECT
    (the fixed header is not among the sources). *)
Definition header_needsPacketID (h : header) : bool :=
  let t := header_Type h in
  if t =? PUBLISH then negb (Z.land (Z.shiftr (header_Flags h) 1) 3 =? 0)
  else (PUBACK <=? t) && (t <=? UNSUBACK).

(** Modelled from the spec: [header.Size] (not among the sources), given the
    value of the packet's size callback [sizeCb]. It fails with
    [ErrPackedIDZero] when the packet identifier the packet carries is
    unset; otherwise the remaining length is recorded (failing with
    [ErrInvalidLength] beyond the protocol maximum) and the size of the
    whole packet is returned. *)
Definition header_Size (sizeCb : Z) (h : header) : header * (Z * option error) :=
  if header_needsPacketID h && (packetID h =? 0) then (h, (0, Some ErrPackedIDZero))
  else
    let ml := sizeCb in
    if (ml <? 0) || (maxRemainingLength <? ml) then (h, (0, Some ErrInvalidLength))
    else
      let h := set_remLen ml h in
      (h, (1 + len (encode_varint ml) + ml, None)).

Definition zero_header : header := mkHeader 0 0 0.

(** *** PINGREQ (message/pingreq.go) *)

Module PingReqMessage.

Record t : Set := mk { hdr : header }.

Definition size (msg : t) : Z := 0.

Definition NewPingReqMessage : t := mk (header_setType PINGREQ zero_header).

Definition decode (msg : t) (src : list Z) : outcome (t * result) :=
  let '(h, r) := header_decode (hdr msg) src in
  Ret (mk h, r).

Definition preEncode (msg : t) (dst : list Z) : outcome (list Z * Z) :=
  header_encode (hdr msg) dst.

Definition Encode (msg : t) (dst : list Z) : outcome (t * list Z * result) :=
  let '(h, (expectedSize, err)) := header_Size (size msg) (hdr msg) in
  let msg := mk h in
  match err with
  | Some e => Ret (msg, dst, (0, Some e))
  | None =>
      if len dst <? expectedSize
      then Ret (msg, dst, (expectedSize, Some ErrInsufficientBufferSize))
      else
        '(dst, n) ← preEncode msg dst;
        Ret (msg, dst, (n, None))
  end.

End PingReqMessage.

(** *** PUBREL (message/pubrel.go) *)

Module PubRelMessage.

Record t : Set := mk { hdr : header }.

Definition size (msg : t) : Z := 2.

Definition NewPubRelMessage : t :=
  let h := header_setType PUBREL zero_header in
  mk (set_mTypeFlags (Z.lor (mTypeFlags h) 2) h).

Definition SetPacketID (v : Z) (msg : t) : t := mk (set_packetID v (hdr msg)).

Definition decode (msg : t) (src : list Z) : outcome (t * result) :=
  let total := 0 in
  s ← slice_from src total;
  let '(h, (n, err)) := header_decode (hdr msg) s in
  let total := total + n in
  match err with
  | Some e => Ret (mk h, (total, Some e))
  | None =>
      s ← slice_from src total;
      id ← Uint16 s;
      let h := set_packetID id h in
      let total := total + 2 in
      Ret (mk h, (total, None))
  end.

Definition preEncode (msg : t) (dst : list Z) : outcome (list Z * result) :=
  (* [MQTT-2.3.1] *)
  if packetID (hdr msg) =? 0 then Ret (dst, (0, Some ErrPackedIDZero))
  else
    let total := 0 in
    s ← slice_from dst total;
    '(s, n) ← header_encode (hdr msg) s;
    let dst := blit dst total s in
    let total := total + n in
    dst ← PutUint16 dst total (packetID (hdr msg));
    let total := total + 2 in
    Ret (dst, (total, None)).

Definition Encode (msg : t) (dst : list Z) : outcome (t * list Z * result) :=
  let '(h, (expectedSize, err)) := header_Size (size msg) (hdr msg) in
  let msg := mk h in
  match err with
  | Some e => Ret (msg, dst, (0, Some e))
  | None =>
      if len dst <? expectedSize
      then Ret (msg, dst, (expectedSize, Some ErrInsufficientBufferSize))
      else
        '(dst, r) ← preEncode msg dst;
        Ret (msg, dst, r)
  end.

End PubRelMessage.

(** *** SUBACK *)

Module SubAckMessage.

Record t : Set := mk { hdr : header; returnCodes : list QosType }.

Definition size (msg : t) : Z := 2 + len (returnCodes msg).

Definition NewSubAckMessage : t := mk (header_setType SUBACK zero_header) [].

Definition ReturnCodes (msg : t) : list QosType := returnCodes msg.

Definition SetPacketID (v : Z) (msg : t) : t :=
  mk (set_packetID v (hdr msg)) (returnCodes msg).

Section Codes.

(** [QosType.IsValidFull] is declared outside the sources at hand: the
    SUBACK routines are written over it. *)
Variable IsValidFull : QosType -> bool.

(** The [for _, c := range ret] loop of [AddReturnCodes]. *)
Fixpoint AddReturnCodes_loop (rc : list QosType) (ret : list QosType)
  : list QosType * option error :=
  match ret with
  | [] => (rc, None)
  | c :: ret' =>
      if negb (IsValidFull c) then (rc, Some ErrInvalidReturnCode)
      else AddReturnCodes_loop (rc ++ [c]) ret'
  end.

Definition AddReturnCodes (msg : t) (ret : list QosType) : t * option error :=
  let '(rc, err) := AddReturnCodes_loop (returnCodes msg) ret in
  (mk (hdr msg) rc, err).

Definition AddReturnCode (msg : t) (ret : QosType) : t * option error :=
  AddReturnCodes msg [ret].

(** The validation loop that ends [decode]. *)
Fixpoint check_codes (codes : list QosType) : option error :=
  match codes with
  | [] => None
  | code :: rest =>
      if negb (IsValidFull code) then Some ErrInvalidReturnCode
      else check_codes rest
  end.

Definition decode (msg : t) (src : list Z) : outcome (t * result) :=
  let total := 0 in
  s ← slice_from src total;
  let '(h, (hn, err)) := header_decode (hdr msg) s in
  let total := total + hn in
  match err with
  | Some e => Ret (mk h (returnCodes msg), (total, Some e))
  | None =>
      s ← slice_from src total;
      id ← Uint16 s;
      let h := set_packetID id h in
      let total := total + 2 in
      let l := remLen h - (total - hn) in
      let rc := if len (returnCodes msg) <? l
                then repeat 0 (Z.to_nat l) else returnCodes msg in
      codes ← slice src total (total + l);
      (* msg.returnCodes[i] = QosType(q), for every index of the slice *)
      let rc := codes ++ skipn (length codes) rc in
      let total := total + len rc in
      Ret (mk h rc, (total, check_codes rc))
  end.

End Codes.

(** The [for _, q := range msg.returnCodes] loop of [preEncode]. *)
Fixpoint put_codes (dst : list Z) (total : Z) (codes : list QosType)
  : outcome (list Z * Z) :=
  match codes with
  | [] => Ret (dst, total)
  | q :: rest =>
      dst ← store dst total (byte q);
      put_codes dst (total + 1) rest
  end.

Definition preEncode (msg : t) (dst : list Z) : outcome (list Z * result) :=
  (* [MQTT-2.3.1] *)
  if packetID (hdr msg) =? 0 then Ret (dst, (0, Some ErrPackedIDZero))
  else
    let total := 0 in
    s ← slice_from dst total;
    '(s, n) ← header_encode (hdr msg) s;
    let dst := blit dst total s in
    let total := total + n in
    dst ← PutUint16 dst total (packetID (hdr msg));
    let total := total + 2 in
    '(dst, total) ← put_codes dst total (returnCodes msg);
    Ret (dst, (total, None)).

Definition Encode (msg : t) (dst : list Z) : outcome (t * list Z * result) :=
  let '(h, (expectedSize, err)) := header_Size (size msg) (hdr msg) in
  let msg := mk h (returnCodes msg) in
  match err with
  | Some e => Ret (msg, dst, (0, Some e))
  | None =>
      if len dst <? expectedSize
      then Ret (msg, dst, (expectedSize, Some ErrInsufficientBufferSize))
      else
        '(dst, r) ← preEncode msg dst;
        Ret (msg, dst, r)
  end.

End SubAckMessage.

(** *** UNSUBACK

    This packet type is written against the buffer-backed header: the packet
    identifier is a two-byte slice (empty while unset), [dBuf] holds the bytes
    a decoded packet came from and [dirty] tells whether the fields were
    changed since. *)

Module UnSubAckMessage.

Record t : Set := mk {
  mtypeflags : Z;
  remlen : Z;
  packetID : list Z;
  dirty : bool;
  dBuf : list Z
}.

(** Modelled from the spec: [header.SetType] of the buffer-backed header
    (not among the sources): byte 0 gets the type and its mandated flags; a
    message built in memory has no decoded buffer behind it and is dirty. *)
Definition SetType (ty : Type_) (msg : t) : t :=
  mk (Z.lor (Z.shiftl ty 4) (DefaultFlags ty)) (remlen msg) (packetID msg) true (dBuf msg).

Definition NewUnSubAckMessage : t := SetType UNSUBACK (mk 0 0 [] false []).

(** Modelled from the spec: [header.SetPacketID] of the buffer-backed header
    (not among the sources): the identifier is kept as two big-endian
    bytes. *)
Definition SetPacketID (v : Z) (msg : t) : t :=
  mk (mtypeflags msg) (remlen msg) [byte (Z.shiftr v 8); byte v] true (dBuf msg).

(** Modelled from the spec: [header.SetRemainingLength] (not among the
    sources): fails beyond the protocol maximum. *)
Definition SetRemainingLength (v : Z) (msg : t) : t * option error :=
  if (v <? 0) || (maxRemainingLength <? v) then (msg, Some ErrInvalidLength)
  else (mk (mtypeflags msg) v (packetID msg) (dirty msg) (dBuf msg), None).

(** Modelled from the spec: [header.msgLen] (not among the sources), the
    size of the fixed header: byte 0 and the remaining-length varint. *)
Definition header_msgLen (msg : t) : Z := 1 + len (encode_varint (remlen msg)).

Definition msgLen (msg : t) : Z := 2.

Definition Len (msg : t) : t * Z :=
  if negb (dirty msg) then (msg, len (dBuf msg))
  else
    let ml := msgLen msg in
    match SetRemainingLength ml msg with
    | (msg, Some _) => (msg, 0)
    | (msg, None) => (msg, header_msgLen msg + ml)
    end.

(** [copy(dst, src)]: the number of bytes copied is the smaller length. *)
Definition copy (dst src : list Z) : list Z * Z :=
  let n := Nat.min (length dst) (length src) in
  (firstn n src ++ skipn n dst, Z.of_nat n).

Section HeaderEncode.

(** [header.encode] of the buffer-backed header is not among the sources;
    [Encode] is written over it. Given the message and the buffer to write
    to, it answers with the buffer as it left it (it writes in place: the
    length is that of the buffer it was given), the number of bytes written
    and an error. *)
Variable encode : t -> list Z -> outcome (list Z * result).

Definition Encode_over (msg : t) (dst : list Z) : outcome (t * list Z * result) :=
  let '(msg, expectedSize) := Len msg in
  if len dst <? expectedSize
  then Ret (msg, dst, (expectedSize, Some ErrInsufficientBufferSize))
  else
    let total := 0 in
    if negb (dirty msg) then
      let '(dst, total) := copy dst (dBuf msg) in
      Ret (msg, dst, (total, None))
    else
      s ← slice_from dst total;
      '(s, (n, err)) ← encode msg s;
      let dst := blit dst total s in
      match err with
      | Some e => Ret (msg, dst, (total, Some e))
      | None =>
          let total := total + n in
          s ← slice dst total (total + 2);
          let '(s, c) := copy s (packetID msg) in
          let dst := blit dst total s in
          dst ← (if negb (c =? 2)
                 then dst ← store dst total 0; store dst (total + 1) 0
                 else Ret dst);
          let total := total + 2 in
          Ret (msg, dst, (total, None))
      end.

End HeaderEncode.

(** Modelled from the spec: [header.encode] of the buffer-backed header
    (not among the sources), which returns an error next to the number of
    bytes written. It fails, writing nothing, with the error kinds the spec
    gives to the codec: a destination too small for the fixed header
    ([ErrInsufficientBufferSize]), a remaining length beyond the protocol
    maximum ([ErrInvalidLength]), a packet type outside 1-14
    ([ErrInvalidMessageType]). Otherwise it writes byte 0 and the minimal
    varint of the remaining length. *)
Definition header_encode_buf (msg : t) (dst : list Z) : outcome (list Z * result) :=
  if len dst <? header_msgLen msg
  then Ret (dst, (0, Some ErrInsufficientBufferSize))
  else if (remlen msg <? 0) || (maxRemainingLength <? remlen msg)
  then Ret (dst, (0, Some ErrInvalidLength))
  else if negb (Type_Valid (Z.shiftr (mtypeflags msg) 4))
  then Ret (dst, (0, Some ErrInvalidMessageType))
  else
    '(s, n) ← header_encode (mkHeader (remlen msg) (mtypeflags msg) 0) dst;
    Ret (s, (n, None)).

(** [Encode], over the [header.encode] modelled above. *)
Definition Encode (msg : t) (dst : list Z) : outcome (t * list Z * result) :=
  Encode_over header_encode_buf msg dst.

End UnSubAckMessage.

(** *** PUBLISH and the packet constructors, as the persistence code uses them *)

(** Modelled from the spec: [PublishMessage] (not among the sources): the
    fixed header, whose flags carry the QoS in bits 2-1, a topic name that
    must not contain wildcard characters, an optional packet identifier and
    a raw payload. The spec names no error kind for a rejected topic;
    [ErrInvalidTopic] stands for it. *)
Module PublishMessage.

Record t : Set := mk { hdr : header; topic : string; payload : list Z }.

Definition NewPublishMessage : t := mk (header_setType PUBLISH zero_header) "" [].

Definition QoS (msg : t) : QosType := Z.land (Z.shiftr (mTypeFlags (hdr msg)) 1) 3.
Definition Topic (msg : t) : string := topic msg.
Definition Payload (msg : t) : list Z := payload msg.

Definition SetPacketID (v : Z) (msg : t) : t :=
  mk (set_packetID v (hdr msg)) (topic msg) (payload msg).

Definition SetPayload (v : list Z) (msg : t) : t := mk (hdr msg) (topic msg) v.

Fixpoint has_wildcard (s : string) : bool :=
  match s with
  | EmptyString => false
  | String c s' => (Ascii.eqb c "#") || (Ascii.eqb c "+") || has_wildcard s'
  end.

Definition SetTopic (v : string) (msg : t) : t * option error :=
  if has_wildcard v then (msg, Some ErrInvalidTopic)
  else (mk (hdr msg) v (payload msg), None).

Definition SetQoS (v : QosType) (msg : t) : t * option error :=
  if negb (QosType_IsValid v) then (msg, Some ErrInvalidQosType)
  else
    let f := mTypeFlags (hdr msg) in
    let f := Z.lor (Z.land f (Z.lxor 255 6)) (Z.shiftl v 1) in
    (mk (set_mTypeFlags f (hdr msg)) (topic msg) (payload msg), None).

End PublishMessage.

(** [message.Provider]: the packet variants the persistence code tells
    apart by a type switch; every other packet type is its header. *)
Inductive Provider : Set :=
| Publish (m : PublishMessage.t)
| PubRel (m : PubRelMessage.t)
| Packet (h : header).

Definition Provider_header (p : Provider) : header :=
  match p with
  | Publish m => PublishMessage.hdr m
  | PubRel m => PubRelMessage.hdr m
  | Packet h => h
  end.

Definition Provider_Type (p : Provider) : Type_ := header_Type (Provider_header p).
Definition Provider_PacketID (p : Provider) : Z := packetID (Provider_header p).

(** Modelled from the spec: [Type.NewMessage] (the dispatcher is not among
    the sources) maps each of the 14 packet types to its constructor and
    fails with [ErrInvalidMessageType] outside that range. *)
Definition NewMessage (ty : Type_) : Provider + error :=
  if negb (Type_Valid ty) then inr ErrInvalidMessageType
  else if ty =? PUBLISH then inl (Publish PublishMessage.NewPublishMessage)
  else if ty =? PUBREL then inl (PubRel PubRelMessage.NewPubRelMessage)
  else inl (Packet (header_setType ty zero_header)).

(** *** CONNACK return codes *)

Module ConnAckCode.

(** [type ConnAckCode byte] *)
Definition t : Set := Z.

Definition ConnectionAccepted : t := 0.
Definition ErrInvalidProtocolVersion : t := 1.
Definition ErrIdentifierRejected : t := 2.
Definition ErrServerUnavailable : t := 3.
Definition ErrBadUsernameOrPassword : t := 4.
Definition ErrNotAuthorized : t := 5.
Definition ConnAckCodeReserved : t := 6.

Definition Value (cac : t) : Z := byte cac.

Definition Desc (cac : t) : string :=
  if cac =? ConnectionAccepted then "Connection accepted"
  else if cac =? ErrInvalidProtocolVersion then
    "The Server does not support the level of the MQTT protocol requested by the Client"
  else if cac =? ErrIdentifierRejected then
    "The Client identifier is correct UTF-8 but not allowed by the server"
  else if cac =? ErrServerUnavailable then
    "The Network Connection has been made but the MQTT service is unavailable"
  else if cac =? ErrBadUsernameOrPassword then
    "The data in the user name or password is malformed"
  else if cac =? ErrNotAuthorized then "The Client is not authorized to connect"
  else "".

Definition Valid (cac : t) : bool := cac <=? ErrNotAuthorized.

Definition Error (cac : t) : string :=
  if cac =? ConnectionAccepted then "Connection accepted"
  else if cac =? ErrInvalidProtocolVersion then
    "Connection Refused, unacceptable protocol version"
  else if cac =? ErrIdentifierRejected then "Connection Refused, identifier rejected"
  else if cac =? ErrServerUnavailable then "Connection Refused, Server unavailable"
  else if cac =? ErrBadUsernameOrPassword then
    "Connection Refused, bad user name or password"
  else if cac =? ErrNotAuthorized then "Connection Refused, not authorized"
  else "Unknown error".

End ConnAckCode.

End message.

(** ** The embedded key/value store

    The contract of [github.com/boltdb/bolt] as the persistence code consumes
    it: a bucket maps byte-string keys, kept in byte order, to values or to
    nested buckets, and carries a sequence counter. *)

Module bolt.

Definition bytes : Type := list Z.

(** [[]byte(s)] and [string(b)] *)
Definition bytes_of_string (s : string) : bytes :=
  map (fun c => Z.of_N (N_of_ascii c)) (list_ascii_of_string s).
Definition string_of_bytes (b : bytes) : string :=
  string_of_list_ascii (map (fun v => ascii_of_N (Z.to_N (byte v))) b).

Inductive error : Set :=
| ErrBucketExists
| ErrBucketNotFound
| ErrBucketNameRequired
| ErrKeyRequired
| ErrKeyTooLarge
| ErrIncompatibleValue.

Definition MaxKeySize : Z := 32768.

#[warnings="-register-all"]
Inductive entry : Type :=
| Value (v : bytes)
| Bucket (sequence : Z) (entries : list (bytes * entry)).

(** [bytes.Compare] *)
Fixpoint compare (a b : bytes) : comparison :=
  match a, b with
  | [], [] => Eq
  | [], _ :: _ => Lt
  | _ :: _, [] => Gt
  | x :: a', y :: b' =>
      match x ?= y with
      | Eq => compare a' b'
      | c => c
      end
  end.

Fixpoint seek (k : bytes) (es : list (bytes * entry)) : option entry :=
  match es with
  | [] => None
  | (k', e) :: es' =>
      match compare k k' with
      | Eq => Some e
      | _ => seek k es'
      end
  end.

(** Insertion in key order; an equal key is replaced. *)
Fixpoint insert (k : bytes) (e : entry) (es : list (bytes * entry))
  : list (bytes * entry) :=
  match es with
  | [] => [(k, e)]
  | (k', e') :: es' =>
      match compare k k' with
      | Eq => (k, e) :: es'
      | Lt => (k, e) :: (k', e') :: es'
      | Gt => (k', e') :: insert k e es'
      end
  end.

Fixpoint remove (k : bytes) (es : list (bytes * entry)) : list (bytes * entry) :=
  match es with
  | [] => []
  | (k', e') :: es' =>
      match compare k k' with
      | Eq => es'
      | _ => (k', e') :: remove k es'
      end
  end.

(** A [*bolt.Bucket] is the path of its keys from the root bucket of the
    transaction; [None] is the nil pointer. The root is the path [[]]. *)
Definition handle : Type := list bytes.

Fixpoint lookup (b : handle) (tx : entry) : option entry :=
  match b with
  | [] => Some tx
  | k :: b' =>
      match tx with
      | Bucket _ es =>
          match seek k es with
          | Some e => lookup b' e
          | None => None
          end
      | Value _ => None
      end
  end.

Fixpoint update (b : handle) (f : entry -> entry) (tx : entry) : entry :=
  match b with
  | [] => f tx
  | k :: b' =>
      match tx with
      | Bucket s es =>
          match seek k es with
          | Some e => Bucket s (insert k (update b' f e) es)
          | None => tx
          end
      | Value _ => tx
      end
  end.

(** The content of the bucket behind a handle; dereferencing nil, or a
    handle whose bucket is gone, panics. *)
Definition deref (tx : entry) (b : option handle) : outcome (handle * Z * list (bytes * entry)) :=
  match b with
  | None => Panic
  | Some h =>
      match lookup h tx with
      | Some (Bucket s es) => Ret (h, s, es)
      | _ => Panic
      end
  end.

(** [b.Bucket(name)]: nil when the key is absent or holds a value. *)
Definition Bucket_Bucket (tx : entry) (b : option handle) (name : bytes)
  : outcome (option handle) :=
  '(h, _, es) ← deref tx b;
  match seek name es with
  | Some (Bucket _ _) => Ret (Some (h ++ [name]))
  | _ => Ret None
  end.

(** [b.Get(key)]: nil when the key is absent or holds a nested bucket. *)
Definition Bucket_Get (tx : entry) (b : option handle) (key : bytes)
  : outcome (option bytes) :=
  '(_, _, es) ← deref tx b;
  match seek key es with
  | Some (Value v) => Ret (Some v)
  | _ => Ret None
  end.

(** [b.CreateBucket(key)] *)
Definition Bucket_CreateBucket (tx : entry) (b : option handle) (key : bytes)
  : outcome (entry * (option handle * option error)) :=
  '(h, _, es) ← deref tx b;
  if len key =? 0 then Ret (tx, (None, Some ErrBucketNameRequired))
  else
    match seek key es with
    | Some (Bucket _ _) => Ret (tx, (None, Some ErrBucketExists))
    | Some (Value _) => Ret (tx, (None, Some ErrIncompatibleValue))
    | None =>
        let add e := match e with
                     | Bucket s es => Bucket s (insert key (Bucket 0 []) es)
                     | Value v => Value v
                     end in
        Ret (update h add tx, (Some (h ++ [key]), None))
    end.

(** [b.CreateBucketIfNotExists(key)] *)
Definition Bucket_CreateBucketIfNotExists (tx : entry) (b : option handle) (key : bytes)
  : outcome (entry * (option handle * option error)) :=
  '(tx', (child, err)) ← Bucket_CreateBucket tx b key;
  match err with
  | Some ErrBucketExists =>
      child ← Bucket_Bucket tx b key;
      Ret (tx, (child, None))
  | Some e => Ret (tx, (None, Some e))
  | None => Ret (tx', (child, None))
  end.

(** [b.DeleteBucket(key)] *)
Definition Bucket_DeleteBucket (tx : entry) (b : option handle) (key : bytes)
  : outcome (entry * option error) :=
  '(h, _, es) ← deref tx b;
  match seek key es with
  | Some (Bucket _ _) =>
      let del e := match e with
                   | Bucket s es => Bucket s (remove key es)
                   | Value v => Value v
                   end in
      Ret (update h del tx, None)
  | Some (Value _) => Ret (tx, Some ErrIncompatibleValue)
  | None => Ret (tx, Some ErrBucketNotFound)
  end.

(** [b.Put(key, value)] *)
Definition Bucket_Put (tx : entry) (b : option handle) (key value : bytes)
  : outcome (entry * option error) :=
  '(h, _, es) ← deref tx b;
  if len key =? 0 then Ret (tx, Some ErrKeyRequired)
  else if MaxKeySize <? len key then Ret (tx, Some ErrKeyTooLarge)
  else
    match seek key es with
    | Some (Bucket _ _) => Ret (tx, Some ErrIncompatibleValue)
    | _ =>
        let put e := match e with
                     | Bucket s es => Bucket s (insert key (Value value) es)
                     | Value v => Value v
                     end in
        Ret (update h put tx, None)
    end.

(** [b.NextSequence()] in a writable transaction. *)
Definition Bucket_NextSequence (tx : entry) (b : option handle)
  : outcome (entry * (Z * option error)) :=
  '(h, s, _) ← deref tx b;
  let bump e := match e with
                | Bucket s es => Bucket (s + 1) es
                | Value v => Value v
                end in
  Ret (update h bump tx, (s + 1, None)).

(** What a cursor, or [ForEach], hands out for an entry: the key, and the
    value, nil for a nested bucket. *)
Definition pair_of (ke : bytes * entry) : bytes * option bytes :=
  match ke with
  | (k, Value v) => (k, Some v)
  | (k, Bucket _ _) => (k, None)
  end.

(** The pairs a cursor visits from [c.First()] until [c.Next()] returns a
    nil key. *)
Definition Bucket_Cursor (tx : entry) (b : option handle)
  : outcome (list (bytes * option bytes)) :=
  '(_, _, es) ← deref tx b;
  Ret (map pair_of es).

(** The body of a Go loop or callback over the pairs of a bucket: it works
    on the variables it captures, of type [S], and may return an error,
    which ends the iteration. *)
Fixpoint iterate {S E : Type} (fn : bytes -> option bytes -> S -> outcome (S * option E))
  (kvs : list (bytes * option bytes)) (s : S) : outcome (S * option E) :=
  match kvs with
  | [] => Ret (s, None)
  | (k, v) :: rest =>
      '(s, err) ← fn k v s;
      match err with
      | Some e => Ret (s, Some e)
      | None => iterate fn rest s
      end
  end.

(** [b.ForEach(fn)] *)
Definition Bucket_ForEach {S E : Type} (tx : entry) (b : option handle)
  (fn : bytes -> option bytes -> S -> outcome (S * option E)) (s : S)
  : outcome (S * option E) :=
  kvs ← Bucket_Cursor tx b;
  iterate fn kvs s.

(** [tx.Bucket], [tx.CreateBucketIfNotExists] and [tx.DeleteBucket] act on
    the root bucket. *)
Definition root : option handle := Some [].

Definition empty_db : entry := Bucket 0 [].

End bolt.

(** ** persistence/types *)

Module types.
Import message.

(** The Go [error] values that travel through the persistence code: its own
    three, and those of the store and of the codec it calls. *)
Inductive error : Set :=
| ErrNotOpen
| ErrNotFound
| ErrAlreadyExists
| BoltError (e : bolt.error)
| MessageError (e : message.error).

Record SessionMessages : Set := mkSessionMessages {
  In_Messages : list Provider;
  Out_Messages : list Provider
}.

End types.

(** ** The boltdb provider *)

Module boltdb.
Import message bolt types.

Definition bucketRetained : string := "retained".
Definition bucketSessions : string := "sessions".
Definition bucketMessages : string := "messages".
Definition bucketSubscriptions : string := "subscriptions".

(** [dbStatus]: the database pointer, nil after shutdown, and whether the
    [done] channel has been closed. Every object handed out by the provider
    points to this one record; the operations below take it, and return it,
    as the state. *)
Record dbStatus : Type := mkStatus {
  db : option entry;
  done : bool
}.

Record subscriptions : Set := mkSubscriptions { subs_id : string }.
Record messages : Set := mkMessages { msgs_id : string }.
Record session : Set := mkSession { id : string; s : subscriptions; m : messages }.
Inductive sessions : Set := the_sessions.
Inductive retained : Set := the_retained.

Definition as_error (e : option bolt.error) : option error := BoltError <$> e.

(** [db.Update(fn)]: the changes of [fn] are kept when it returns nil and
    rolled back when it returns an error. *)
Definition DB_Update (st : dbStatus) (fn : entry -> outcome (entry * option error))
  : outcome (dbStatus * option error) :=
  match db st with
  | None => Panic
  | Some tx =>
      '(tx', err) ← fn tx;
      match err with
      | Some e => Ret (st, Some e)
      | None => Ret (mkStatus (Some tx') (done st), None)
      end
  end.

(** [db.View(fn)]; [S] is the type of the variables [fn] captures. *)
Definition DB_View {S : Type} (st : dbStatus) (fn : entry -> outcome (S * option error))
  : outcome (S * option error) :=
  match db st with
  | None => Panic
  | Some tx => fn tx
  end.

(** [db.Close()]; [closeErr] is what the operating system answers. *)
Definition DB_Close (closeErr : option error) (st : dbStatus) : outcome (option error) :=
  match db st with
  | None => Panic
  | Some _ => Ret closeErr
  end.

(** *** The provider *)

Definition Sessions (st : dbStatus) : option sessions * option error :=
  if done st then (None, Some ErrNotOpen) else (Some the_sessions, None).

Definition Retained (st : dbStatus) : option retained * option error :=
  if done st then (None, Some ErrNotOpen) else (Some the_retained, None).

(** [wgTx.Wait()] returns at once here: no operation of the provider ever
    adds to the wait group. *)
Definition Shutdown (closeErr : option error) (st : dbStatus)
  : outcome (dbStatus * option error) :=
  if done st then Ret (st, Some ErrNotOpen)
  else
    let st := mkStatus (db st) true in
    err ← DB_Close closeErr st;
    let st := mkStatus None (done st) in
    Ret (st, err).

(** *** Sessions *)

Definition newSession (id : string) : session :=
  mkSession id (mkSubscriptions id) (mkMessages id).

(** The function [New] runs in its [db.Update] transaction. *)
Definition sessions_New_fn (id : string) (tx : entry) : outcome (entry * option error) :=
  '(tx, (sesBucket, err)) ←
    Bucket_CreateBucketIfNotExists tx root (bytes_of_string bucketSessions);
  match err with
  | Some e => Ret (tx, Some (BoltError e))
  | None =>
      '(tx, (_, err)) ← Bucket_CreateBucket tx sesBucket (bytes_of_string id);
      Ret (tx, as_error err)
  end.

(** [New] past its look at the [done] channel. *)
Definition sessions_New_open (id : string) (st : dbStatus)
  : outcome (dbStatus * (option session * option error)) :=
  let ses := newSession id in
  '(st, err) ← DB_Update st (sessions_New_fn id);
  match err with
  | Some (BoltError ErrBucketExists) => Ret (st, (None, Some ErrAlreadyExists))
  | _ => Ret (st, (Some ses, None))
  end.

Definition sessions_New (id : string) (st : dbStatus)
  : outcome (dbStatus * (option session * option error)) :=
  if done st then Ret (st, (None, Some ErrNotOpen))
  else sessions_New_open id st.

Definition sessions_Get (id : string) (st : dbStatus)
  : outcome (dbStatus * (option session * option error)) :=
  if done st then Ret (st, (None, Some ErrNotOpen))
  else
    '(_, err) ← DB_View st (fun tx =>
      sesBucket ← Bucket_Bucket tx root (bytes_of_string bucketSessions);
      match sesBucket with
      | None => Ret (tt, Some ErrNotFound)
      | Some _ =>
          buck ← Bucket_Bucket tx sesBucket (bytes_of_string id);
          match buck with
          | None => Ret (tt, Some ErrNotFound)
          | Some _ => Ret (tt, None)
          end
      end);
    match err with
    | Some e => Ret (st, (None, Some e))
    | None => Ret (st, (Some (newSession id), None))
    end.

Definition sessions_GetAll (st : dbStatus)
  : outcome (dbStatus * (option (list session) * option error)) :=
  if done st then Ret (st, (None, Some ErrNotOpen))
  else
    let res : list session := [] in
    '(res, err) ← DB_View st (fun tx =>
      sesBucket ← Bucket_Bucket tx root (bytes_of_string bucketSessions);
      match sesBucket with
      | None => Ret (res, Some ErrNotFound)
      | Some _ =>
          c ← Bucket_Cursor tx sesBucket;
          iterate (fun k _ res =>
            (* make sure it is bucket *)
            buck ← Bucket_Bucket tx sesBucket k;
            match buck with
            | Some _ => Ret (res ++ [newSession (string_of_bytes k)], None)
            | None => Ret (res, None)
            end) c res
      end);
    Ret (st, (Some res, err)).

Definition sessions_Delete (id : string) (st : dbStatus)
  : outcome (dbStatus * option error) :=
  if done st then Ret (st, Some ErrNotOpen)
  else
    '(st, err) ← DB_Update st (fun tx =>
      sesBucket ← Bucket_Bucket tx root (bytes_of_string bucketSessions);
      match sesBucket with
      | None => Ret (tx, Some ErrNotFound)
      | Some _ =>
          '(tx, err) ← Bucket_DeleteBucket tx sesBucket (bytes_of_string id);
          Ret (tx, as_error err)
      end);
    match err with
    | Some _ => Ret (st, Some ErrNotFound)
    | None => Ret (st, None)
    end.

Definition session_Subscriptions (ses : session) (st : dbStatus)
  : option subscriptions * option error :=
  if done st then (None, Some ErrNotOpen) else (Some (s ses), None).

Definition session_Messages (ses : session) (st : dbStatus)
  : option messages * option error :=
  if done st then (None, Some ErrNotOpen) else (Some (m ses), None).

Definition session_ID (ses : session) (st : dbStatus) : string * option error :=
  if done st then (EmptyString, Some ErrNotOpen) else (id ses, None).

(** The bucket of session [id], looked up as every operation on the state
    of a session starts; [k] goes on with it. *)
Definition with_session {R : Type} (tx : entry) (id : string) (fail : option error -> outcome R)
  (k : option handle -> outcome R) : outcome R :=
  (* get sessions bucket *)
  sesBucket ← Bucket_Bucket tx root (bytes_of_string bucketSessions);
  match sesBucket with
  | None => fail (Some ErrNotFound)
  | Some _ =>
      (* get bucket for given session *)
      sBucket ← Bucket_Bucket tx sesBucket (bytes_of_string id);
      match sBucket with
      | None => fail (Some ErrNotFound)
      | Some _ => k sBucket
      end
  end.

(** [itob64] returns an 8-byte big endian representation of [v]. *)
Definition itob64 (v : Z) : bytes :=
  map (fun i => byte (Z.shiftr v (8 * i))) [7; 6; 5; 4; 3; 2; 1; 0].

Definition itob16 (v : Z) : bytes := [byte (Z.shiftr v 8); byte v].

(** *** Subscriptions of a session *)

(** The [for t, q := range subs] loop of [Add]; Go leaves the order in which
    a map is ranged over open, here it is the order of the list given. *)
Fixpoint Add_loop (bucket : option handle) (subs : list (string * QosType)) (tx : entry)
  : outcome (entry * option error) :=
  match subs with
  | [] => Ret (tx, None)
  | (t, q) :: rest =>
      '(tx, (id, _)) ← Bucket_NextSequence tx bucket;
      '(tx, (pb, err)) ← Bucket_CreateBucket tx bucket (itob64 id);
      match err with
      | Some e => Ret (tx, Some (BoltError e))
      | None =>
          '(tx, err) ← Bucket_Put tx pb (bytes_of_string "topic") (bytes_of_string t);
          match err with
          | Some e => Ret (tx, Some (BoltError e))
          | None =>
              '(tx, err) ← Bucket_Put tx pb (bytes_of_string "qos") [byte q];
              match err with
              | Some e => Ret (tx, Some (BoltError e))
              | None => Add_loop bucket rest tx
              end
          end
      end
  end.

Definition subscriptions_Add (sb : subscriptions) (subs : gmap string QosType)
  (st : dbStatus) : outcome (dbStatus * option error) :=
  if done st then Ret (st, Some ErrNotOpen)
  else
    DB_Update st (fun tx =>
      with_session tx (subs_id sb) (fun e => Ret (tx, e)) (fun sBucket =>
        '(tx, (bucket, err)) ←
          Bucket_CreateBucketIfNotExists tx sBucket (bytes_of_string bucketSubscriptions);
        match err with
        | Some e => Ret (tx, Some (BoltError e))
        | None => Add_loop bucket (map_to_list subs) tx
        end)).

(** The callback given to [subBuck.ForEach] in [Get]; it assigns to the
    variables [t] and [q] of the enclosing loop body. *)
Definition Get_field (k : bytes) (v : option bytes) (tq : string * QosType)
  : outcome ((string * QosType) * option error) :=
  let '(t, q) := tq in
  let name := string_of_bytes k in
  if String.eqb name "topic" then Ret ((string_of_bytes (default [] v), q), None)
  else if String.eqb name "qos" then
    match v with
    | Some (v0 :: _) => Ret ((t, v0), None)
    | _ => Panic
    end
  else Ret ((t, q), None).

(** The body of the cursor loop of [Get], on the map [res] it fills. *)
Definition Get_entry (tx : entry) (bucket : option handle)
  (k : bytes) (_ : option bytes) (res : gmap string QosType)
  : outcome (gmap string QosType * option error) :=
  subBuck ← Bucket_Bucket tx bucket k;
  '((t, q), err) ← Bucket_ForEach tx subBuck Get_field (EmptyString, 0);
  match err with
  | Some e => Ret (res, Some e)
  | None => Ret (<[t := q]> res, None)
  end.

(** The cursor loop [for k, _ := c.First(); k != nil; k, _ = c.Next()]. *)
Definition Get_scan (tx : entry) (bucket : option handle) (res : gmap string QosType)
  : outcome (gmap string QosType * option error) :=
  c ← Bucket_Cursor tx bucket;
  iterate (Get_entry tx bucket) c res.

Definition subscriptions_Get (sb : subscriptions) (st : dbStatus)
  : outcome (dbStatus * (option (gmap string QosType) * option error)) :=
  if done st then Ret (st, (None, Some ErrNotOpen))
  else
    let res : gmap string QosType := ∅ in
    '(res, err) ← DB_View st (fun tx =>
      with_session tx (subs_id sb) (fun e => Ret (res, e)) (fun sBucket =>
        bucket ← Bucket_Bucket tx sBucket (bytes_of_string bucketSubscriptions);
        match bucket with
        | None => Ret (res, Some ErrNotFound)
        | Some _ =>
            (* the callback does not look at its own [k] and [v] *)
            Bucket_ForEach tx bucket (fun _ _ res => Get_scan tx bucket res) res
        end));
    match err with
    | Some e => Ret (st, (None, Some e))
    | None => Ret (st, (Some res, None))
    end.

(** The straightforward single pass over the subscription entries that the
    specification asks for in place of the nested iteration: everything as
    in [subscriptions_Get] but for the outer [ForEach]. *)
Definition subscriptions_Get_single_pass (sb : subscriptions) (st : dbStatus)
  : outcome (dbStatus * (option (gmap string QosType) * option error)) :=
  if done st then Ret (st, (None, Some ErrNotOpen))
  else
    let res : gmap string QosType := ∅ in
    '(res, err) ← DB_View st (fun tx =>
      with_session tx (subs_id sb) (fun e => Ret (res, e)) (fun sBucket =>
        bucket ← Bucket_Bucket tx sBucket (bytes_of_string bucketSubscriptions);
        match bucket with
        | None => Ret (res, Some ErrNotFound)
        | Some _ => Get_scan tx bucket res
        end));
    match err with
    | Some e => Ret (st, (None, Some e))
    | None => Ret (st, (Some res, None))
    end.

Definition subscriptions_Delete (sb : subscriptions) (st : dbStatus)
  : outcome (dbStatus * option error) :=
  if done st then Ret (st, Some ErrNotOpen)
  else
    DB_Update st (fun tx =>
      with_session tx (subs_id sb) (fun e => Ret (tx, e)) (fun sBucket =>
        '(tx, err) ← Bucket_DeleteBucket tx sBucket (bytes_of_string bucketSubscriptions);
        Ret (tx, as_error err))).

(** *** Stored packets *)

Definition putMsg (b : option handle) (msg : Provider) (tx : entry)
  : outcome (entry * option error) :=
  '(tx, err) ← Bucket_Put tx b (bytes_of_string "type") [byte (Provider_Type msg)];
  match err with
  | Some e => Ret (tx, Some (BoltError e))
  | None =>
      '(tx, err) ← (if negb (Provider_PacketID msg =? 0)
                    then Bucket_Put tx b (bytes_of_string "id") (itob16 (Provider_PacketID msg))
                    else Ret (tx, None));
      match err with
      | Some e => Ret (tx, Some (BoltError e))
      | None =>
          match msg with
          | Publish m =>
              '(tx, err) ← Bucket_Put tx b (bytes_of_string "qos") [byte (PublishMessage.QoS m)];
              match err with
              | Some e => Ret (tx, Some (BoltError e))
              | None =>
                  '(tx, err) ← Bucket_Put tx b (bytes_of_string "topic")
                                 (bytes_of_string (PublishMessage.Topic m));
                  match err with
                  | Some e => Ret (tx, Some (BoltError e))
                  | None =>
                      if 0 <? len (PublishMessage.Payload m) then
                        '(tx, err) ← Bucket_Put tx b (bytes_of_string "payload")
                                       (PublishMessage.Payload m);
                        Ret (tx, as_error err)
                      else Ret (tx, None)
                  end
              end
          | PubRel _ =>
              (* have nothing to do here *)
              Ret (tx, None)
          | Packet _ => Ret (tx, None)
          end
      end
  end.

(** The callback given to [packBuk.ForEach] in [getMsgs]: only a PUBLISH
    takes fields from the record. *)
Definition getMsgs_field (name : bytes) (val : option bytes) (mT : Provider)
  : outcome (Provider * option error) :=
  match mT with
  | Publish m =>
      let name := string_of_bytes name in
      if String.eqb name "id" then
        v ← Uint16 (default [] val);
        Ret (Publish (PublishMessage.SetPacketID v m), None)
      else if String.eqb name "topic" then
        let '(m, e) := PublishMessage.SetTopic (string_of_bytes (default [] val)) m in
        Ret (Publish m, MessageError <$> e)
      else if String.eqb name "payload" then
        Ret (Publish (PublishMessage.SetPayload (default [] val) m), None)
      else if String.eqb name "qos" then
        match val with
        | Some (v0 :: _) =>
            let '(m, e) := PublishMessage.SetQoS v0 m in
            Ret (Publish m, MessageError <$> e)
        | _ => Panic
        end
      else Ret (mT, None)
  | _ => Ret (mT, None)
  end.

(** The body of the cursor loop of [getMsgs], on the list [entries]. *)
Definition getMsgs_entry (tx : entry) (b : option handle)
  (k : bytes) (_ : option bytes) (entries : list Provider)
  : outcome (list Provider * option error) :=
  packBuk ← Bucket_Bucket tx b k;
  (* firstly get id to decide what message type this is *)
  tmp ← Bucket_Get tx packBuk (bytes_of_string "type");
  match tmp with
  | Some (t0 :: _) =>
      match NewMessage t0 with
      | inr e => Ret (entries, Some (MessageError e))
      | inl mT =>
          '(mT, err) ← Bucket_ForEach tx packBuk getMsgs_field mT;
          match err with
          | Some e => Ret (entries, Some e)
          | None => Ret (entries ++ [mT], None)
          end
      end
  | _ => Panic
  end.

Definition getMsgs (tx : entry) (b : option handle)
  : outcome (list Provider * option error) :=
  c ← Bucket_Cursor tx b;
  '(entries, err) ← iterate (getMsgs_entry tx b) c [];
  match err with
  | Some e => Ret ([], Some e)
  | None => Ret (entries, None)
  end.

(** The [for _, m := range msg] loop of the two [Store] operations. *)
Fixpoint Store_loop (bucket : option handle) (msg : list Provider) (tx : entry)
  : outcome (entry * option error) :=
  match msg with
  | [] => Ret (tx, None)
  | m :: rest =>
      '(tx, (id, _)) ← Bucket_NextSequence tx bucket;
      '(tx, (pb, err)) ← Bucket_CreateBucket tx bucket (itob64 id);
      match err with
      | Some e => Ret (tx, Some (BoltError e))
      | None =>
          '(tx, err) ← putMsg pb m tx;
          match err with
          | Some e => Ret (tx, Some e)
          | None => Store_loop bucket rest tx
          end
      end
  end.

(** *** Queued messages of a session *)

Definition messages_Store (ms : messages) (dir : string) (msg : list Provider)
  (st : dbStatus) : outcome (dbStatus * option error) :=
  if done st then Ret (st, Some ErrNotOpen)
  else
    DB_Update st (fun tx =>
      with_session tx (msgs_id ms) (fun e => Ret (tx, e)) (fun sBucket =>
        '(tx, (bucket, err)) ←
          Bucket_CreateBucketIfNotExists tx sBucket (bytes_of_string bucketMessages);
        match err with
        | Some e => Ret (tx, Some (BoltError e))
        | None =>
            '(tx, (dirBuck, err)) ←
              Bucket_CreateBucketIfNotExists tx bucket (bytes_of_string dir);
            match err with
            | Some e => Ret (tx, Some (BoltError e))
            | None => Store_loop dirBuck msg tx
            end
        end)).

Definition messages_Load (ms : messages) (st : dbStatus)
  : outcome (dbStatus * (option SessionMessages * option error)) :=
  if done st then Ret (st, (None, Some ErrNotOpen))
  else
    let msg := mkSessionMessages [] [] in
    '(msg, err) ← DB_View st (fun tx =>
      with_session tx (msgs_id ms) (fun e => Ret (msg, e)) (fun sBucket =>
        msgBuck ← Bucket_Bucket tx sBucket (bytes_of_string bucketMessages);
        match msgBuck with
        | None => Ret (msg, Some ErrNotFound)
        | Some _ =>
            dirBuck ← Bucket_Bucket tx msgBuck (bytes_of_string "in");
            msg ← match dirBuck with
                  | Some _ =>
                      '(l, _) ← getMsgs tx dirBuck;
                      Ret (mkSessionMessages l (Out_Messages msg))
                  | None => Ret msg
                  end;
            dirBuck ← Bucket_Bucket tx msgBuck (bytes_of_string "out");
            msg ← match dirBuck with
                  | Some _ =>
                      '(l, _) ← getMsgs tx dirBuck;
                      Ret (mkSessionMessages (In_Messages msg) l)
                  | None => Ret msg
                  end;
            Ret (msg, None)
        end));
    Ret (st, (Some msg, err)).

Definition messages_Delete (ms : messages) (st : dbStatus)
  : outcome (dbStatus * option error) :=
  if done st then Ret (st, Some ErrNotOpen)
  else
    DB_Update st (fun tx =>
      with_session tx (msgs_id ms) (fun e => Ret (tx, e)) (fun sBucket =>
        '(tx, err) ← Bucket_DeleteBucket tx sBucket (bytes_of_string bucketMessages);
        Ret (tx, as_error err))).

(** *** Retained messages *)

Definition retained_Load (st : dbStatus)
  : outcome (dbStatus * (list Provider * option error)) :=
  if done st then Ret (st, ([], Some ErrNotOpen))
  else
    let msg : list Provider := [] in
    r ← DB_View st (fun tx =>
      bucket ← Bucket_Bucket tx root (bytes_of_string bucketRetained);
      match bucket with
      | None => Ret (msg, Some ErrNotFound)
      | Some _ => getMsgs tx bucket
      end);
    Ret (st, r).

Definition retained_Store (msg : list Provider) (st : dbStatus)
  : outcome (dbStatus * option error) :=
  if done st then Ret (st, Some ErrNotOpen)
  else
    DB_Update st (fun tx =>
      '(tx, (bucket, err)) ←
        Bucket_CreateBucketIfNotExists tx root (bytes_of_string bucketRetained);
      match err with
      | Some e => Ret (tx, Some (BoltError e))
      | None => Store_loop bucket msg tx
      end).

Definition retained_Delete (st : dbStatus) : outcome (dbStatus * option error) :=
  if done st then Ret (st, Some ErrNotOpen)
  else
    '(st, err) ← DB_Update st (fun tx =>
      '(tx, err) ← Bucket_DeleteBucket tx root (bytes_of_string bucketRetained);
      Ret (tx, as_error err));
    match err with
    | Some (BoltError ErrBucketNotFound) => Ret (st, Some ErrNotFound)
    | _ => Ret (st, err)
    end.

(** [NewBoltDB] on a database file holding [content]. *)
Definition NewBoltDB (content : entry) : dbStatus := mkStatus (Some content) false.

(** *** The public operations, as a client calls them one after another *)

Inductive call : Type :=
| Call_Sessions
| Call_Retained
| Call_Shutdown (closeErr : option error)
| Call_sessions_New (id : string)
| Call_sessions_Get (id : string)
| Call_sessions_GetAll
| Call_sessions_Delete (id : string)
| Call_session_Subscriptions (ses : session)
| Call_session_Messages (ses : session)
| Call_session_ID (ses : session)
| Call_subscriptions_Add (sb : subscriptions) (subs : gmap string QosType)
| Call_subscriptions_Get (sb : subscriptions)
| Call_subscriptions_Delete (sb : subscriptions)
| Call_messages_Store (ms : messages) (dir : string) (msg : list Provider)
| Call_messages_Load (ms : messages)
| Call_messages_Delete (ms : messages)
| Call_retained_Load
| Call_retained_Store (msg : list Provider)
| Call_retained_Delete.

Definition only_error {A : Type} (o : outcome (dbStatus * (A * option error)))
  : outcome (dbStatus * option error) :=
  '(st, (_, err)) ← o; Ret (st, err).

(** The state after a call and the error it returned. *)
Definition exec (c : call) (st : dbStatus) : outcome (dbStatus * option error) :=
  match c with
  | Call_Sessions => Ret (st, snd (Sessions st))
  | Call_Retained => Ret (st, snd (Retained st))
  | Call_Shutdown closeErr => Shutdown closeErr st
  | Call_sessions_New id => only_error (sessions_New id st)
  | Call_sessions_Get id => only_error (sessions_Get id st)
  | Call_sessions_GetAll => only_error (sessions_GetAll st)
  | Call_sessions_Delete id => sessions_Delete id st
  | Call_session_Subscriptions ses => Ret (st, snd (session_Subscriptions ses st))
  | Call_session_Messages ses => Ret (st, snd (session_Messages ses st))
  | Call_session_ID ses => Ret (st, snd (session_ID ses st))
  | Call_subscriptions_Add sb subs => subscriptions_Add sb subs st
  | Call_subscriptions_Get sb => only_error (subscriptions_Get sb st)
  | Call_subscriptions_Delete sb => subscriptions_Delete sb st
  | Call_messages_Store ms dir msg => messages_Store ms dir msg st
  | Call_messages_Load ms => only_error (messages_Load ms st)
  | Call_messages_Delete ms => messages_Delete ms st
  | Call_retained_Load => only_error (retained_Load st)
  | Call_retained_Store msg => retained_Store msg st
  | Call_retained_Delete => retained_Delete st
  end.

Fixpoint exec_all (cs : list call) (st : dbStatus)
  : outcome (dbStatus * list (option error)) :=
  match cs with
  | [] => Ret (st, [])
  | c :: cs' =>
      '(st, err) ← exec c st;
      '(st, errs) ← exec_all cs' st;
      Ret (st, err :: errs)
  end.

End boltdb.

(** ** The mem provider *)

Module mem.
Import types.

Record dbStatus : Set := mkStatus { done : bool }.

Inductive retained : Set := the_retained.
Inductive sessions : Set := the_sessions.
Inductive system : Set := the_system.

(** [New] *)
Definition New : dbStatus := mkStatus false.

Definition System (st : dbStatus) : option system * option error :=
  if done st then (None, Some ErrNotOpen) else (Some the_system, None).

Definition Sessions (st : dbStatus) : option sessions * option error :=
  if done st then (None, Some ErrNotOpen) else (Some the_sessions, None).

Definition Retained (st : dbStatus) : option retained * option error :=
  if done st then (None, Some ErrNotOpen) else (Some the_retained, None).

Definition Shutdown (st : dbStatus) : dbStatus * option error :=
  if done st then (st, Some ErrNotOpen)
  else (mkStatus true, None).

Inductive call : Set := Call_System | Call_Sessions | Call_Retained | Call_Shutdown.

Definition exec (c : call) (st : dbStatus) : dbStatus * option error :=
  match c with
  | Call_System => (st, snd (System st))
  | Call_Sessions => (st, snd (Sessions st))
  | Call_Retained => (st, snd (Retained st))
  | Call_Shutdown => Shutdown st
  end.

Fixpoint exec_all (cs : list call) (st : dbStatus) : dbStatus * list (option error) :=
  match cs with
  | [] => (st, [])
  | c :: cs' =>
      let '(st, err) := exec c st in
      let '(st, errs) := exec_all cs' st in
      (st, err :: errs)
  end.

(** *** The objects the provider hands out *)

(** The public operations of the objects: [sessions], a session and its
    [subscriptions] and [messages], [retained], as the store contract
    lists them. A session-level object is named by its session. *)
Inductive object_call : Type :=
| Call_sessions_New (id : string)
| Call_sessions_Get (id : string)
| Call_sessions_GetAll
| Call_sessions_Delete (id : string)
| Call_session_Subscriptions (id : string)
| Call_session_Messages (id : string)
| Call_session_ID (id : string)
| Call_subscriptions_Add (id : string) (subs : gmap string message.QosType)
| Call_subscriptions_Get (id : string)
| Call_subscriptions_Delete (id : string)
| Call_messages_Store (id : string) (dir : string) (msg : list message.Provider)
| Call_messages_Load (id : string)
| Call_messages_Delete (id : string)
| Call_retained_Load
| Call_retained_Store (msg : list message.Provider)
| Call_retained_Delete.

Section Objects.

(** What the objects keep in memory, and what an operation does to it and
    returns on an open store: the code of the operations is not among the
    sources and the spec leaves it to the backend. *)
Variable contents : Type.
Variable open_op : object_call -> contents -> contents * option error.

(** Modelled from the spec: the operations of the objects the mem provider
    hands out (not among the sources). [New] gives every object a pointer
    to the [status] of the provider, so all of them see the one closed
    signal; it is checked at the start of every public operation, which
    fails with [ErrNotOpen] once the store has been shut down. The
    in-memory backend has no durable resource and needs only this check. *)
Definition exec_object (c : object_call) (st : dbStatus * contents)
  : (dbStatus * contents) * option error :=
  if done (fst st) then (st, Some ErrNotOpen)
  else
    let '(m, err) := open_op c (snd st) in
    ((fst st, m), err).

(** A call on the provider or on one of its objects. *)
Inductive any_call : Type :=
| On_provider (c : call)
| On_object (c : object_call).

Definition exec_any (c : any_call) (st : dbStatus * contents)
  : (dbStatus * contents) * option error :=
  match c with
  | On_provider c => let '(s, err) := exec c (fst st) in ((s, snd st), err)
  | On_object c => exec_object c st
  end.

Fixpoint exec_any_all (cs : list any_call) (st : dbStatus * contents)
  : (dbStatus * contents) * list (option error) :=
  match cs with
  | [] => (st, [])
  | c :: cs' =>
      let '(st, err) := exec_any c st in
      let '(st, errs) := exec_any_all cs' st in
      (st, err :: errs)
  end.

End Objects.

Arguments exec_object {contents} open_op c st.
Arguments exec_any {contents} open_op c st.
Arguments exec_any_all {contents} open_op cs st.

End mem.

(** ** Shutdown of the boltdb provider among concurrent operations

    Goroutines take turns, one step at a time, on the provider they share:
    its [dbStatus], the wait group [wgTx] and the mutex [lock]. A goroutine
    calling [sessions.New] first looks at the [done] channel and then runs
    its transaction; nothing in between, and nothing in any other operation
    of the provider, adds to [wgTx]. *)

Module interleaving.
Import types boltdb.

Inductive new_pc : Type :=
| AtSelect
| AtUpdate
| Returned (r : outcome (option error)).

Inductive shutdown_pc : Type :=
| AtLock
| AtSelectDone
| AtCloseDone
| AtWait
| AtClose
| AtUnlock (r : outcome (option error))
| Finished (r : outcome (option error)).

Inductive goroutine : Type :=
| GoNew (id : string) (pc : new_pc)
| GoShutdown (closeErr : option error) (pc : shutdown_pc).

Record world : Type := mkWorld {
  status : dbStatus;
  wgTx : Z;
  lock : bool;
  procs : list goroutine
}.

(** One step of a goroutine on the shared provider; [None] when it has
    returned or is blocked. *)
Definition step (g : goroutine) (st : dbStatus) (wg : Z) (lk : bool)
  : option (goroutine * dbStatus * Z * bool) :=
  match g with
  | GoNew id AtSelect =>
      if done st then Some (GoNew id (Returned (Ret (Some ErrNotOpen))), st, wg, lk)
      else Some (GoNew id AtUpdate, st, wg, lk)
  | GoNew id AtUpdate =>
      match sessions_New_open id st with
      | Ret (st', (_, err)) => Some (GoNew id (Returned (Ret err)), st', wg, lk)
      | Panic => Some (GoNew id (Returned Panic), st, wg, lk)
      end
  | GoNew _ (Returned _) => None
  | GoShutdown ce AtLock =>
      if lk then None else Some (GoShutdown ce AtSelectDone, st, wg, true)
  | GoShutdown ce AtSelectDone =>
      if done st then Some (GoShutdown ce (AtUnlock (Ret (Some ErrNotOpen))), st, wg, lk)
      else Some (GoShutdown ce AtCloseDone, st, wg, lk)
  | GoShutdown ce AtCloseDone =>
      Some (GoShutdown ce AtWait, mkStatus (db st) true, wg, lk)
  | GoShutdown ce AtWait =>
      if wg =? 0 then Some (GoShutdown ce AtClose, st, wg, lk) else None
  | GoShutdown ce AtClose =>
      match DB_Close ce st with
      | Ret err => Some (GoShutdown ce (AtUnlock (Ret err)), mkStatus None (done st), wg, lk)
      | Panic => Some (GoShutdown ce (AtUnlock Panic), st, wg, lk)
      end
  | GoShutdown ce (AtUnlock r) => Some (GoShutdown ce (Finished r), st, wg, false)
  | GoShutdown _ (Finished _) => None
  end.

Fixpoint replace (i : nat) (g : goroutine) (gs : list goroutine) : list goroutine :=
  match gs, i with
  | [], _ => []
  | _ :: gs', O => g :: gs'
  | g' :: gs', S i' => g' :: replace i' g gs'
  end.

(** Goroutine [i] takes a step. *)
Definition fire (i : nat) (w : world) : option world :=
  match nth_error (procs w) i with
  | None => None
  | Some g =>
      match step g (status w) (wgTx w) (lock w) with
      | None => None
      | Some (g', st, wg, lk) => Some (mkWorld st wg lk (replace i g' (procs w)))
      end
  end.

(** An interleaving: which goroutine steps next, step after step. *)
Fixpoint run (schedule : list nat) (w : world) : option world :=
  match schedule with
  | [] => Some w
  | i :: rest =>
      match fire i w with
      | Some w' => run rest w'
      | None => None
      end
  end.

(** A transaction was run on the provider after its database had been
    released. *)
Definition ran_on_released_db (g : goroutine) : bool :=
  match g with
  | GoNew _ (Returned Panic) => true
  | _ => false
  end.

Definition init (content : bolt.entry) (gs : list goroutine) : world :=
  mkWorld (NewBoltDB content) 0 false gs.

End interleaving.

(** * Properties *)

(** Runs the bind whose first computation is now a value or a panic. *)
Ltac bind_step := cbn [mbind outcome_bind].

Section CodecFacts.
Import message.

Lemma len_nonneg (s : list Z) : 0 <= len s.
Proof. unfold len. lia. Qed.

Lemma len_app (a b : list Z) : len (a ++ b) = len a + len b.
Proof. unfold len. rewrite length_app. lia. Qed.

Lemma slice_from_0 (s : list Z) : slice_from s 0 = Ret s.
Proof.
  unfold slice_from. pose proof (len_nonneg s).
  destruct (Z.leb_spec 0 (len s)); [reflexivity | lia].
Qed.

Lemma get_varint_count n : forall src shift acc cnt v m,
  get_varint n src shift acc cnt = Some (v, m) -> cnt < m.
Proof.
  induction n as [|n IH]; intros src shift acc cnt v m H; simpl in H; [discriminate|].
  destruct src as [|b rest]; [discriminate|].
  destruct (Z.land b 128 =? 0).
  - inversion H; subst. lia.
  - apply IH in H. lia.
Qed.

(** What an accepting [header.decode] guarantees about the buffer. *)
Lemma header_decode_accepts h0 src h hn :
  header_decode h0 src = (h, (hn, None)) ->
  1 < hn /\ remLen h <= len src - hn.
Proof.
  unfold header_decode. destruct src as [|b0 rest]; [discriminate|].
  destruct (negb (Type_Valid _)); [discriminate|].
  destruct (negb (flags_ok _ _)); [discriminate|].
  destruct (decode_varint rest) as [[rl m]|] eqn:Hv; [|discriminate].
  cbv zeta.
  destruct (Z.ltb_spec (len (b0 :: rest) - (1 + m)) rl); [discriminate|].
  intros H0; inversion H0; subst; clear H0. simpl remLen.
  apply get_varint_count in Hv. split; lia.
Qed.

Lemma AddReturnCodes_loop_valid (V : QosType -> bool) (ret rc : list QosType) :
  Forall (fun c => V c = true) ret ->
  SubAckMessage.AddReturnCodes_loop V rc ret = (rc ++ ret, None).
Proof.
  intros Hall. revert rc. induction Hall as [|c ret Hc _ IH]; intros rc; simpl.
  - now rewrite app_nil_r.
  - rewrite Hc. simpl. rewrite IH, <- app_assoc. reflexivity.
Qed.

Lemma AddReturnCodes_loop_invalid (V : QosType -> bool) (pre post rc : list QosType) c :
  Forall (fun c => V c = true) pre -> V c = false ->
  SubAckMessage.AddReturnCodes_loop V rc (pre ++ c :: post)
  = (rc ++ pre, Some ErrInvalidReturnCode).
Proof.
  intros Hall Hc. revert rc. induction Hall as [|a pre Ha _ IH]; intros rc; simpl.
  - rewrite Hc. simpl. now rewrite app_nil_r.
  - rewrite Ha. simpl. rewrite IH, <- app_assoc. reflexivity.
Qed.

Lemma check_codes_spec (V : QosType -> bool) (codes : list QosType) :
  (SubAckMessage.check_codes V codes = None <-> Forall (fun c => V c = true) codes) /\
  (SubAckMessage.check_codes V codes = None \/
   SubAckMessage.check_codes V codes = Some ErrInvalidReturnCode).
Proof.
  induction codes as [|c codes [IH1 IH2]]; simpl.
  - split; [split; [constructor | reflexivity] | now left].
  - destruct (V c) eqn:Hc; simpl.
    + split; [|exact IH2]. rewrite IH1. split.
      * intros H. constructor; assumption.
      * intros H. inversion H; assumption.
    + split; [|now right]. split; [discriminate|].
      intros H. inversion H; congruence.
Qed.

Lemma QosType_IsValidFull_spec (c : QosType) :
  QosType_IsValidFull c = true <-> c = 0 \/ c = 1 \/ c = 2 \/ c = 128.
Proof.
  unfold QosType_IsValidFull, QoS0, QoS1, QoS2, QosFailure.
  rewrite !orb_true_iff, !Z.eqb_eq. tauto.
Qed.

Lemma skipn_length_Z (n : Z) (s : list Z) :
  0 <= n <= len s -> len (skipn (Z.to_nat n) s) = len s - n.
Proof. unfold len. intros H. rewrite length_skipn. lia. Qed.

Lemma Uint16_long (s : list Z) :
  2 <= len s -> exists v, Uint16 s = Ret v.
Proof.
  destruct s as [|b0 [|b1 s]]; unfold len; simpl; intros H; try lia.
  eexists; reflexivity.
Qed.

Lemma Uint16_short (s : list Z) : len s < 2 -> Uint16 s = Panic.
Proof.
  destruct s as [|b0 [|b1 s]]; unfold len; simpl; intros H; try lia; reflexivity.
Qed.

End CodecFacts.

(** C10. [AddReturnCodes] is not atomic on failure: on a list with an invalid
    code (one [IsValidFull] rejects) it appends exactly the codes before the
    first invalid one and returns [ErrInvalidReturnCode]; on a list of valid
    codes it appends them all, in order, and returns nil. *)
Theorem C10_AddReturnCodes_appends_valid_prefix :
  forall (IsValidFull : message.QosType -> bool) (msg : message.SubAckMessage.t)
         (ret : list message.QosType),
    (forall pre c post,
        ret = pre ++ c :: post ->
        Forall (fun c => IsValidFull c = true) pre ->
        IsValidFull c = false ->
        message.SubAckMessage.AddReturnCodes IsValidFull msg ret
        = (message.SubAckMessage.mk (message.SubAckMessage.hdr msg)
             (message.SubAckMessage.returnCodes msg ++ pre),
           Some message.ErrInvalidReturnCode)) /\
    (Forall (fun c => IsValidFull c = true) ret ->
     message.SubAckMessage.AddReturnCodes IsValidFull msg ret
     = (message.SubAckMessage.mk (message.SubAckMessage.hdr msg)
          (message.SubAckMessage.returnCodes msg ++ ret),
        None)).
Proof.
  intros V msg ret. unfold message.SubAckMessage.AddReturnCodes. split.
  - intros pre c post -> Hpre Hc.
    now rewrite (AddReturnCodes_loop_invalid V pre post _ c Hpre Hc).
  - intros Hall. now rewrite (AddReturnCodes_loop_valid V ret _ Hall).
Qed.

Lemma C10_AddReturnCodes_witness :
  message.SubAckMessage.AddReturnCodes message.QosType_IsValidFull
    (message.SubAckMessage.mk message.zero_header [2]) [0; 1; 5; 2]
  = (message.SubAckMessage.mk message.zero_header [2; 0; 1],
     Some message.ErrInvalidReturnCode) /\
  message.SubAckMessage.AddReturnCodes message.QosType_IsValidFull
    (message.SubAckMessage.mk message.zero_header [2]) [0; 128]
  = (message.SubAckMessage.mk message.zero_header [2; 0; 128], None).
Proof.
  split.
  - apply (proj1 (C10_AddReturnCodes_appends_valid_prefix
                    message.QosType_IsValidFull
                    (message.SubAckMessage.mk message.zero_header [2]) [0; 1; 5; 2])
             [0; 1] 5 [2]).
    + reflexivity.
    + repeat constructor.
    + reflexivity.
  - apply (proj2 (C10_AddReturnCodes_appends_valid_prefix
                    message.QosType_IsValidFull
                    (message.SubAckMessage.mk message.zero_header [2]) [0; 128])).
    repeat constructor.
Defined.

Section SliceFacts.
Import message.

Lemma slice_from_in (s : list Z) (lo : Z) :
  0 <= lo <= len s -> slice_from s lo = Ret (skipn (Z.to_nat lo) s).
Proof.
  intros H. unfold slice_from.
  destruct (Z.leb_spec 0 lo); [|lia]. destruct (Z.leb_spec lo (len s)); [|lia].
  reflexivity.
Qed.

Lemma slice_in (s : list Z) (lo hi : Z) :
  0 <= lo <= hi -> hi <= len s ->
  slice s lo hi = Ret (firstn (Z.to_nat (hi - lo)) (skipn (Z.to_nat lo) s)).
Proof.
  intros H1 H2. unfold slice.
  destruct (Z.leb_spec 0 lo); [|lia]. destruct (Z.leb_spec lo hi); [|lia].
  destruct (Z.leb_spec hi (len s)); [|lia]. reflexivity.
Qed.

Lemma slice_backwards (s : list Z) (lo hi : Z) : hi < lo -> slice s lo hi = Panic.
Proof.
  intros H. unfold slice. destruct (Z.leb_spec lo hi); [lia|].
  now rewrite andb_false_r.
Qed.

End SliceFacts.



Section EncodeFacts.
Import message.

Lemma len_cons (x : Z) (s : list Z) : len (x :: s) = 1 + len s.
Proof. unfold len. simpl length. lia. Qed.

Lemma header_Size_unset (sz : Z) (h : header) :
  header_needsPacketID h = true -> packetID h = 0 ->
  header_Size sz h = (h, (0, Some ErrPackedIDZero)).
Proof. intros Hn Hid. unfold header_Size. now rewrite Hn, Hid. Qed.

Lemma header_Size_set (sz : Z) (h : header) :
  packetID h <> 0 ->
  header_Size sz h
  = if (sz <? 0) || (maxRemainingLength <? sz) then (h, (0, Some ErrInvalidLength))
    else (set_remLen sz h, (1 + len (encode_varint sz) + sz, None)).
Proof.
  intros Hid. unfold header_Size.
  destruct (Z.eqb_spec (packetID h) 0); [contradiction|].
  now rewrite andb_false_r.
Qed.

Lemma header_Size_no_id (sz : Z) (h : header) :
  header_needsPacketID h = false ->
  header_Size sz h
  = if (sz <? 0) || (maxRemainingLength <? sz) then (h, (0, Some ErrInvalidLength))
    else (set_remLen sz h, (1 + len (encode_varint sz) + sz, None)).
Proof. intros Hn. unfold header_Size. now rewrite Hn. Qed.

Lemma header_Size_2 (h : header) :
  packetID h <> 0 -> header_Size 2 h = (set_remLen 2 h, (4, None)).
Proof. intros Hid. now rewrite header_Size_set. Qed.

Lemma PubRel_preEncode_unset (msg : PubRelMessage.t) (dst : list Z) :
  packetID (PubRelMessage.hdr msg) = 0 ->
  PubRelMessage.preEncode msg dst = Ret (dst, (0, Some ErrPackedIDZero)).
Proof. intros H. unfold PubRelMessage.preEncode. now rewrite H. Qed.

Lemma SubAck_preEncode_unset (msg : SubAckMessage.t) (dst : list Z) :
  packetID (SubAckMessage.hdr msg) = 0 ->
  SubAckMessage.preEncode msg dst = Ret (dst, (0, Some ErrPackedIDZero)).
Proof. intros H. unfold SubAckMessage.preEncode. now rewrite H. Qed.

Lemma four_bytes (dst : list Z) :
  4 <= len dst -> exists a b c d rest, dst = a :: b :: c :: d :: rest.
Proof.
  destruct dst as [|a [|b [|c [|d rest]]]]; unfold len; simpl; intros H; try lia.
  now exists a, b, c, d, rest.
Qed.

Lemma header_encode_small (h : header) (dst : list Z) :
  0 <= remLen h < 128 -> 2 <= len dst ->
  header_encode h dst = Ret (mTypeFlags h :: remLen h :: skipn 2 dst, 2).
Proof.
  intros Hr Hd. unfold header_encode, encode_varint. cbn [put_varint].
  destruct (Z.ltb_spec (remLen h) 128); [|lia].
  change (len [mTypeFlags h; remLen h]) with 2.
  destruct (Z.leb_spec 2 (len dst)); [|lia]. reflexivity.
Qed.

Lemma blit_whole (dst s : list Z) : length s = length dst -> blit dst 0 s = s.
Proof.
  intros H. unfold blit. simpl. rewrite skipn_all2 by lia. apply app_nil_r.
Qed.

Lemma PutUint16_in (dst : list Z) (at_ v : Z) :
  0 <= at_ -> at_ + 2 <= len dst ->
  PutUint16 dst at_ v = Ret (blit dst at_ [byte (Z.shiftr v 8); byte v]).
Proof.
  intros H1 H2. unfold PutUint16.
  destruct (Z.leb_spec 0 at_); [|lia]. destruct (Z.leb_spec (at_ + 2) (len dst)); [|lia].
  reflexivity.
Qed.

End EncodeFacts.

(** C2. A fresh PUBREL message has packet ID 0: [preEncode] refuses it with
    [ErrPackedIDZero], and so does [Encode], whatever the buffer, which is
    left as it was. With packet ID 7, [Encode] into a buffer that can hold
    the packet makes the first four bytes of the buffer 0x62 0x02 0x00 0x07,
    leaves the rest as it was and returns 4. *)
Theorem C2_PubRel_Encode_scenario :
  forall dst : list Z,
    message.packetID (message.PubRelMessage.hdr message.PubRelMessage.NewPubRelMessage) = 0 /\
    message.PubRelMessage.preEncode message.PubRelMessage.NewPubRelMessage dst
    = Ret (dst, (0, Some message.ErrPackedIDZero)) /\
    (exists msg',
        message.PubRelMessage.Encode message.PubRelMessage.NewPubRelMessage dst
        = Ret (msg', dst, (0, Some message.ErrPackedIDZero))) /\
    (4 <= len dst ->
     exists msg',
       message.PubRelMessage.Encode
         (message.PubRelMessage.SetPacketID 7 message.PubRelMessage.NewPubRelMessage) dst
       = Ret (msg', [98; 2; 0; 7] ++ skipn 4 dst, (4, None))).
Proof.
  intros dst. split; [reflexivity|]. split; [reflexivity|]. split.
  - eexists. unfold message.PubRelMessage.Encode.
    rewrite header_Size_unset by reflexivity. reflexivity.
  - intros Hlen.
    destruct (four_bytes dst Hlen) as (a & b & c & d & rest & ->).
    assert (Hlt : (len (a :: b :: c :: d :: rest) <? 4) = false).
    { apply Z.ltb_ge. exact Hlen. }
    eexists. unfold message.PubRelMessage.Encode.
    rewrite header_Size_2 by discriminate. rewrite Hlt.
    unfold message.PubRelMessage.preEncode.
    change (message.packetID _ =? 0) with false. cbv iota.
    rewrite slice_from_0. bind_step.
    rewrite header_encode_small; [|simpl; lia|lia].
    bind_step. cbv zeta.
    rewrite blit_whole by reflexivity.
    rewrite PutUint16_in; [|lia|].
    2:{ change (4 <= len (98 :: 2 :: c :: d :: rest)).
        rewrite !len_cons in *. lia. }
    reflexivity.
Qed.

Lemma C2_PubRel_Encode_witness :
  (exists msg',
      message.PubRelMessage.Encode message.PubRelMessage.NewPubRelMessage [9; 9; 9]
      = Ret (msg', [9; 9; 9], (0, Some message.ErrPackedIDZero))) /\
  (exists msg',
      message.PubRelMessage.Encode
        (message.PubRelMessage.SetPacketID 7 message.PubRelMessage.NewPubRelMessage)
        [9; 9; 9; 9; 9]
      = Ret (msg', [98; 2; 0; 7] ++ skipn 4 [9; 9; 9; 9; 9], (4, None))).
Proof.
  split.
  - apply (proj1 (proj2 (proj2 (C2_PubRel_Encode_scenario [9; 9; 9])))).
  - apply (proj2 (proj2 (proj2 (C2_PubRel_Encode_scenario [9; 9; 9; 9; 9])))).
    unfold len. simpl. lia.
Defined.

Section DecodeFacts.
Import message.

(** Whatever predicate validates the return codes and whatever the message
    held before: once the fixed header is accepted with a remaining length
    below 2, [SubAckMessage.decode] does not return. *)
Lemma SubAck_decode_short_remaining_length
  (V : QosType -> bool) (msg : SubAckMessage.t) (src : list Z) (h : header) (hn : Z) :
  header_decode (SubAckMessage.hdr msg) src = (h, (hn, None)) ->
  remLen h < 2 ->
  SubAckMessage.decode V msg src = Panic.
Proof.
  intros Hh Hrl. unfold SubAckMessage.decode.
  rewrite slice_from_0. bind_step. rewrite Hh.
  destruct (slice_from src (0 + hn)) as [s|]; [|reflexivity]. bind_step.
  destruct (Uint16 s) as [pid|]; [|reflexivity]. bind_step. cbv zeta.
  rewrite slice_backwards; [reflexivity|].
  cbn [remLen set_packetID]. lia.
Qed.

(** [PubRelMessage.decode] does not return when fewer than two bytes follow
    an accepted fixed header. *)
Lemma PubRel_decode_truncated
  (msg : PubRelMessage.t) (src : list Z) (h : header) (hn : Z) :
  header_decode (PubRelMessage.hdr msg) src = (h, (hn, None)) ->
  len src < hn + 2 ->
  PubRelMessage.decode msg src = Panic.
Proof.
  intros Hh Hlen. unfold PubRelMessage.decode.
  rewrite slice_from_0. bind_step. rewrite Hh.
  destruct (header_decode_accepts _ _ _ _ Hh) as [Hhn _].
  unfold slice_from.
  destruct ((0 <=? 0 + hn) && (0 + hn <=? len src)) eqn:Hin; [|reflexivity].
  apply andb_true_iff in Hin. destruct Hin as [_ Hin]. apply Z.leb_le in Hin.
  bind_step. rewrite Uint16_short; [reflexivity|].
  rewrite skipn_length_Z; lia.
Qed.

(** The errors of [UnSubAckMessage.Encode], whatever [header.encode] is:
    the buffer was too small, or the error is one [header.encode]
    returned. *)
Lemma UnSubAck_Encode_over_errors
  (encode : UnSubAckMessage.t -> list Z -> outcome (list Z * result))
  (msg msg' : UnSubAckMessage.t) (dst dst' : list Z) n e :
  UnSubAckMessage.Encode_over encode msg dst = Ret (msg', dst', (n, Some e)) ->
  e = ErrInsufficientBufferSize \/
  exists m s s' k, encode m s = Ret (s', (k, Some e)).
Proof.
  unfold UnSubAckMessage.Encode_over. destruct (UnSubAckMessage.Len msg) as [m1 sz].
  destruct (len dst <? sz); [intros H; inversion H; now left|].
  destruct (negb (UnSubAckMessage.dirty m1)).
  - destruct (UnSubAckMessage.copy dst (UnSubAckMessage.dBuf m1)). discriminate.
  - destruct (slice_from dst 0) as [s|]; [|discriminate]. bind_step.
    destruct (encode m1 s) as [[s' [k [e'|]]]|] eqn:He; [| |discriminate]; bind_step.
    + intros H. assert (e' = e) as -> by now inversion H.
      right. now exists m1, s, s', k.
    + cbv zeta. destruct (slice _ _ _) as [s2|]; [|discriminate]. bind_step.
      destruct (UnSubAckMessage.copy s2 _) as [s3 c].
      match goal with |- context [if ?b then _ else _] => destruct b end.
      * destruct (store _ _ 0) as [d1|]; [|discriminate]. bind_step.
        destruct (store d1 _ 0) as [d2|]; discriminate.
      * discriminate.
Qed.

Lemma header_encode_buf_errors (m : UnSubAckMessage.t) (s s' : list Z) k e :
  UnSubAckMessage.header_encode_buf m s = Ret (s', (k, Some e)) ->
  e = ErrInsufficientBufferSize \/ e = ErrInvalidLength \/ e = ErrInvalidMessageType.
Proof.
  unfold UnSubAckMessage.header_encode_buf.
  destruct (len s <? _); [intros H; inversion H; auto|].
  destruct (_ || _); [intros H; inversion H; auto|].
  destruct (negb _); [intros H; inversion H; auto|].
  destruct (header_encode _ s) as [[s1 k1]|]; discriminate.
Qed.

(** No path through [UnSubAckMessage.Encode] answers with the packet-ID-zero
    error. *)
Lemma UnSubAck_Encode_errors (msg msg' : UnSubAckMessage.t) (dst dst' : list Z) n e :
  UnSubAckMessage.Encode msg dst = Ret (msg', dst', (n, Some e)) ->
  e <> ErrPackedIDZero.
Proof.
  intros H. apply UnSubAck_Encode_over_errors in H.
  destruct H as [->|(m & s & s' & k & H)]; [discriminate|].
  apply header_encode_buf_errors in H. destruct H as [->|[->| ->]]; discriminate.
Qed.

End DecodeFacts.

(** C1. [SubAckMessage.decode] and [PubRelMessage.decode] do not return an
    [(int, error)] result on every buffer: on a SUBACK whose header declares
    a remaining length of 0, or of 1 with bytes following, and on a PUBREL
    that ends after its header, they panic. *)
Theorem C1_decode_panics_on_short_packet :
  message.SubAckMessage.decode message.QosType_IsValidFull
    message.SubAckMessage.NewSubAckMessage [144; 0] = Panic /\
  message.SubAckMessage.decode message.QosType_IsValidFull
    message.SubAckMessage.NewSubAckMessage [144; 1; 0; 0] = Panic /\
  message.PubRelMessage.decode message.PubRelMessage.NewPubRelMessage [98; 0] = Panic.
Proof. repeat split; reflexivity. Qed.

(** C3. [UnSubAckMessage.Encode] of a message whose packet identifier was
    never set succeeds, and the two identifier bytes it writes are zero. *)
Theorem C3_UnSubAck_Encode_writes_zero_identifier :
  exists msg',
    message.UnSubAckMessage.Encode message.UnSubAckMessage.NewUnSubAckMessage [9; 9; 9; 9]
    = Ret (msg', [176; 2; 0; 0], (4, None)).
Proof. eexists. reflexivity. Qed.

Section SubscriptionFacts.
Import message bolt types boltdb.

(** The callback of the inner [ForEach] never returns an error. *)
Lemma iterate_Get_field kvs : forall tq,
  iterate (E := error) Get_field kvs tq = Panic \/
  exists tq', iterate (E := error) Get_field kvs tq = Ret (tq', None).
Proof.
  induction kvs as [|[k v] kvs IH]; intros [t q]; simpl.
  - right. eexists. reflexivity.
  - unfold Get_field at 1.
    destruct (String.eqb _ "topic"); [bind_step; apply IH|].
    destruct (String.eqb _ "qos").
    + destruct v as [[|v0 v]|]; bind_step; auto.
    + bind_step. apply IH.
Qed.

(** One turn of the cursor loop either panics or records one subscription,
    whatever the map held. *)
Lemma Get_entry_shape tx bucket k v :
  (forall res, Get_entry tx bucket k v res = Panic) \/
  (exists t q, forall res, Get_entry tx bucket k v res = Ret (<[t := q]> res, None)).
Proof.
  unfold Get_entry.
  destruct (Bucket_Bucket tx bucket k) as [subBuck|]; bind_step; [|now left].
  unfold Bucket_ForEach.
  destruct (Bucket_Cursor tx subBuck) as [kvs|]; bind_step; [|now left].
  destruct (iterate_Get_field kvs (EmptyString, 0)) as [-> | [[t q] ->]];
    bind_step; [now left|].
  right. exists t, q. reflexivity.
Qed.

(** The whole loop either panics or lays a fixed map over the one it was
    given. *)
Lemma Get_scan_shape tx bucket kvs :
  (forall res : gmap string QosType, iterate (Get_entry tx bucket) kvs res = Panic) \/
  (exists A : gmap string QosType,
      forall res, iterate (Get_entry tx bucket) kvs res = Ret (A ∪ res, None)).
Proof.
  induction kvs as [|[k v] kvs IH].
  - right. exists ∅. intros res. simpl. now rewrite (left_id_L ∅ (∪)).
  - destruct (Get_entry_shape tx bucket k v) as [Hp | (t & q & Hr)].
    + left. intros res. simpl. now rewrite Hp.
    + destruct IH as [Hp | [A HA]].
      * left. intros res. simpl. rewrite Hr. bind_step. apply Hp.
      * right. exists (A ∪ {[t := q]}). intros res. simpl. rewrite Hr.
        bind_step. rewrite HA, insert_union_singleton_l.
        now rewrite (assoc_L (∪)).
Qed.

(** Running the loop again, any number of times, on its own result changes
    nothing. *)
Lemma rescan_idle (F : gmap string QosType -> outcome (gmap string QosType * option error))
  (A : gmap string QosType) (kvs : list (bytes * option bytes)) :
  (forall res, F res = Ret (A ∪ res, None)) ->
  forall res, iterate (fun _ _ r => F r) kvs (A ∪ res) = Ret (A ∪ res, None).
Proof.
  intros HF res. induction kvs as [|[k v] kvs IH]; simpl; [reflexivity|].
  rewrite HF. bind_step.
  rewrite (assoc_L (∪)), (idemp_L (∪)). exact IH.
Qed.

Lemma repeated_scan (F : gmap string QosType -> outcome (gmap string QosType * option error))
  (kvs : list (bytes * option bytes)) :
  ((forall res, F res = Panic) \/ (exists A, forall res, F res = Ret (A ∪ res, None))) ->
  kvs <> [] ->
  iterate (fun _ _ r => F r) kvs ∅ = F ∅.
Proof.
  intros HF Hne. destruct kvs as [|[k v] kvs']; [congruence|]. cbn [iterate].
  destruct HF as [Hp | [A HA]].
  - now rewrite !Hp.
  - rewrite !HA. bind_step. apply (rescan_idle F A kvs' HA).
Qed.

Lemma nested_scan_is_single_scan tx bucket :
  Bucket_ForEach tx bucket (fun _ _ res => Get_scan tx bucket res) (∅ : gmap string QosType)
  = Get_scan tx bucket ∅.
Proof.
  unfold Bucket_ForEach, Get_scan.
  destruct (Bucket_Cursor tx bucket) as [kvs|]; bind_step; [|reflexivity].
  destruct (decide (kvs = [])) as [-> | Hne]; [reflexivity|].
  apply (repeated_scan (iterate (Get_entry tx bucket) kvs) kvs); [|exact Hne].
  apply Get_scan_shape.
Qed.

End SubscriptionFacts.

(** C9. [subscriptions.Get], with its cursor loop nested in a [ForEach]
    callback, returns what the single pass over the subscription entries
    returns, for every state of the store and every session: the same map,
    the same error, the same panic. *)
Theorem C9_Get_nested_iteration_is_redundant :
  forall (sb : boltdb.subscriptions) (st : boltdb.dbStatus),
    boltdb.subscriptions_Get sb st = boltdb.subscriptions_Get_single_pass sb st.
Proof.
  intros sb st. unfold boltdb.subscriptions_Get, boltdb.subscriptions_Get_single_pass.
  destruct (boltdb.done st); [reflexivity|].
  f_equal. unfold boltdb.DB_View. destruct (boltdb.db st) as [tx|]; [|reflexivity].
  unfold boltdb.with_session.
  destruct (bolt.Bucket_Bucket tx bolt.root _) as [[sesBucket|]|];
    bind_step; try reflexivity.
  destruct (bolt.Bucket_Bucket tx (Some sesBucket) _) as [[sBucket|]|];
    bind_step; try reflexivity.
  destruct (bolt.Bucket_Bucket tx (Some sBucket) _) as [[bucket|]|];
    bind_step; try reflexivity.
  apply nested_scan_is_single_scan.
Qed.

Section ShutdownFacts.
Import message bolt types boltdb.

Lemma boltdb_exec_closed (c : call) (st : dbStatus) :
  done st = true -> exec c st = Ret (st, Some ErrNotOpen).
Proof.
  intros Hd. destruct c; cbn [exec];
    unfold Sessions, Retained, Shutdown, sessions_New, sessions_Get, sessions_GetAll,
      sessions_Delete, session_Subscriptions, session_Messages, session_ID,
      subscriptions_Add, subscriptions_Get, subscriptions_Delete,
      messages_Store, messages_Load, messages_Delete,
      retained_Load, retained_Store, retained_Delete;
    rewrite Hd; reflexivity.
Qed.

Lemma boltdb_exec_all_closed (cs : list call) (st : dbStatus) :
  done st = true ->
  exec_all cs st = Ret (st, map (fun _ => Some ErrNotOpen) cs).
Proof.
  intros Hd. induction cs as [|c cs IH]; [reflexivity|].
  cbn [exec_all map]. rewrite (boltdb_exec_closed c st Hd). bind_step.
  rewrite IH. reflexivity.
Qed.

Lemma boltdb_Shutdown_closes closeErr st st' err :
  Shutdown closeErr st = Ret (st', err) -> done st' = true.
Proof.
  unfold Shutdown. destruct (done st) eqn:Hd.
  - intros H. inversion H; subst. exact Hd.
  - unfold DB_Close. cbn [db]. destruct (db st); bind_step; [|discriminate].
    intros H. inversion H. reflexivity.
Qed.

Lemma mem_exec_closed (c : mem.call) (st : mem.dbStatus) :
  mem.done st = true -> mem.exec c st = (st, Some ErrNotOpen).
Proof.
  intros Hd. destruct c; cbn [mem.exec];
    unfold mem.System, mem.Sessions, mem.Retained, mem.Shutdown; rewrite Hd; reflexivity.
Qed.

Lemma mem_exec_all_closed (cs : list mem.call) (st : mem.dbStatus) :
  mem.done st = true ->
  mem.exec_all cs st = (st, map (fun _ => Some ErrNotOpen) cs).
Proof.
  intros Hd. induction cs as [|c cs IH]; [reflexivity|].
  cbn [mem.exec_all map]. rewrite (mem_exec_closed c st Hd), IH. reflexivity.
Qed.

Lemma mem_Shutdown_closes (st st' : mem.dbStatus) :
  mem.Shutdown st = (st', None) -> mem.done st' = true.
Proof. unfold mem.Shutdown. destruct (mem.done st); intros H; now inversion H. Qed.

Lemma mem_exec_any_closed (contents : Type)
  (open_op : mem.object_call -> contents -> contents * option error)
  (c : mem.any_call) (st : mem.dbStatus) (m : contents) :
  mem.done st = true ->
  mem.exec_any open_op c (st, m) = ((st, m), Some ErrNotOpen).
Proof.
  intros Hd. destruct c as [c|c]; cbn [mem.exec_any fst snd].
  - now rewrite (mem_exec_closed c st Hd).
  - unfold mem.exec_object. cbn [fst]. now rewrite Hd.
Qed.

Lemma mem_exec_any_all_closed (contents : Type)
  (open_op : mem.object_call -> contents -> contents * option error)
  (cs : list mem.any_call) (st : mem.dbStatus) (m : contents) :
  mem.done st = true ->
  mem.exec_any_all open_op cs (st, m) = ((st, m), map (fun _ => Some ErrNotOpen) cs).
Proof.
  intros Hd. induction cs as [|c cs IH]; [reflexivity|].
  cbn [mem.exec_any_all map]. rewrite (mem_exec_any_closed _ open_op c st m Hd), IH.
  reflexivity.
Qed.

End ShutdownFacts.

(** C6. Once [Shutdown] has returned nil, every public operation called
    afterwards, in any number and order, returns [ErrNotOpen] and leaves the
    provider as it is; [Shutdown] itself is among these operations. This
    holds of the boltdb provider and the objects it hands out, of the
    operations of the mem provider, and of the operations of the objects
    the mem provider hands out, whatever they keep in memory and whatever
    they do on an open store. *)
Theorem C6_operations_after_Shutdown_return_ErrNotOpen :
  (forall (closeErr : option types.error) (st st' : boltdb.dbStatus),
      boltdb.Shutdown closeErr st = Ret (st', None) ->
      forall cs : list boltdb.call,
        boltdb.exec_all cs st' = Ret (st', map (fun _ => Some types.ErrNotOpen) cs)) /\
  (forall st st' : mem.dbStatus,
      mem.Shutdown st = (st', None) ->
      forall cs : list mem.call,
        mem.exec_all cs st' = (st', map (fun _ => Some types.ErrNotOpen) cs)) /\
  (forall (contents : Type)
          (open_op : mem.object_call -> contents -> contents * option types.error)
          (st st' : mem.dbStatus) (m : contents),
      mem.Shutdown st = (st', None) ->
      forall cs : list mem.any_call,
        mem.exec_any_all open_op cs (st', m)
        = ((st', m), map (fun _ => Some types.ErrNotOpen) cs)).
Proof.
  split; [|split].
  - intros closeErr st st' Hs cs. apply boltdb_exec_all_closed.
    exact (boltdb_Shutdown_closes _ _ _ _ Hs).
  - intros st st' Hs cs. apply mem_exec_all_closed.
    exact (mem_Shutdown_closes _ _ Hs).
  - intros contents open_op st st' m Hs cs. apply mem_exec_any_all_closed.
    exact (mem_Shutdown_closes _ _ Hs).
Qed.

Lemma C6_operations_after_Shutdown_witness :
  boltdb.exec_all
    [boltdb.Call_sessions_New "a"; boltdb.Call_Shutdown None;
     boltdb.Call_messages_Load (boltdb.mkMessages "a"); boltdb.Call_retained_Delete]
    (boltdb.mkStatus None true)
  = Ret (boltdb.mkStatus None true,
         [Some types.ErrNotOpen; Some types.ErrNotOpen;
          Some types.ErrNotOpen; Some types.ErrNotOpen]) /\
  mem.exec_all [mem.Call_Sessions; mem.Call_Shutdown; mem.Call_System] (mem.mkStatus true)
  = (mem.mkStatus true,
     [Some types.ErrNotOpen; Some types.ErrNotOpen; Some types.ErrNotOpen]) /\
  mem.exec_any_all (fun _ (n : nat) => (S n, None))
    [mem.On_object (mem.Call_sessions_New "a"); mem.On_provider mem.Call_Shutdown;
     mem.On_object (mem.Call_messages_Load "a"); mem.On_object mem.Call_retained_Delete;
     mem.On_provider mem.Call_Sessions]
    (mem.mkStatus true, 3%nat)
  = ((mem.mkStatus true, 3%nat),
     [Some types.ErrNotOpen; Some types.ErrNotOpen; Some types.ErrNotOpen;
      Some types.ErrNotOpen; Some types.ErrNotOpen]).
Proof.
  split; [|split].
  - apply (proj1 C6_operations_after_Shutdown_return_ErrNotOpen None
             (boltdb.NewBoltDB bolt.empty_db) (boltdb.mkStatus None true)).
    reflexivity.
  - apply (proj1 (proj2 C6_operations_after_Shutdown_return_ErrNotOpen)
             mem.New (mem.mkStatus true)).
    reflexivity.
  - apply (proj2 (proj2 C6_operations_after_Shutdown_return_ErrNotOpen)
             nat (fun _ (n : nat) => (S n, None)) mem.New (mem.mkStatus true) 3%nat).
    reflexivity.
Defined.

Section StoredPackets.
Import message bolt types boltdb.

(** [getMsgs] takes no field of the record into a PUBREL. *)
Lemma getMsgs_field_PubRel name val (m : PubRelMessage.t) :
  getMsgs_field name val (PubRel m) = Ret (PubRel m, None).
Proof. reflexivity. Qed.

Lemma iterate_getMsgs_field_PubRel kvs (m : PubRelMessage.t) :
  iterate getMsgs_field kvs (PubRel m) = Ret (PubRel m, None).
Proof.
  induction kvs as [|[k v] kvs IH]; [reflexivity|].
  cbn [iterate]. rewrite getMsgs_field_PubRel. bind_step. exact IH.
Qed.

(** Whatever [New] meets in its transaction, the only failure it reports is
    [ErrAlreadyExists]. *)
Lemma sessions_New_errors id st st' ses e :
  sessions_New id st = Ret (st', (ses, Some e)) ->
  e = ErrNotOpen \/ e = ErrAlreadyExists.
Proof.
  unfold sessions_New, sessions_New_open. destruct (done st).
  - intros H. inversion H. now left.
  - destruct (DB_Update st (sessions_New_fn id)) as [[st1 [[]|]]|];
      bind_step; try discriminate.
    destruct e0; try discriminate. intros H. inversion H. now right.
Qed.

End StoredPackets.

(** C5. A PUBREL stored with packet ID 7 is loaded back, in its direction
    and position, as a PUBREL with packet ID 0: [messages.Store] followed by
    [messages.Load] does not return packets equal to the stored ones. *)
Theorem C5_loaded_PubRel_has_no_packet_id :
  let ms := boltdb.mkMessages "c1" in
  let pubrel7 :=
    message.PubRel (message.PubRelMessage.SetPacketID 7 message.PubRelMessage.NewPubRelMessage) in
  exists st1 st2,
    boltdb.sessions_New "c1" (boltdb.NewBoltDB bolt.empty_db)
    = Ret (st1, (Some (boltdb.newSession "c1"), None)) /\
    boltdb.messages_Store ms "out" [pubrel7] st1 = Ret (st2, None) /\
    boltdb.messages_Load ms st2
    = Ret (st2, (Some (types.mkSessionMessages []
                         [message.PubRel message.PubRelMessage.NewPubRelMessage]), None)) /\
    message.Provider_PacketID pubrel7 = 7 /\
    message.Provider_PacketID (message.PubRel message.PubRelMessage.NewPubRelMessage) = 0.
Proof.
  cbv zeta. eexists _, _.
  split; [vm_compute; reflexivity|].
  split; [vm_compute; reflexivity|].
  split; [vm_compute; reflexivity|].
  split; reflexivity.
Qed.

Section DroppedErrors.
Import message bolt types boltdb.

Lemma compare_refl (k : bytes) : compare k k = Eq.
Proof. induction k as [|x k IH]; simpl; [reflexivity|]. now rewrite Z.compare_refl. Qed.

Lemma seek_insert (k : bytes) (e : entry) (es : list (bytes * entry)) :
  seek k (insert k e es) = Some e.
Proof.
  induction es as [|[k' e'] es IH]; simpl.
  - now rewrite compare_refl.
  - destruct (compare k k') eqn:Hc; simpl.
    + now rewrite compare_refl.
    + now rewrite compare_refl.
    + now rewrite Hc.
Qed.

(** On every open database, [New] with an empty id returns a session and
    nil, and the database is as before. *)
Lemma sessions_New_empty_id (st : dbStatus) (sq : Z) (es : list (bytes * entry)) :
  done st = false -> db st = Some (Bucket sq es) ->
  sessions_New "" st = Ret (st, (Some (newSession ""), None)).
Proof.
  intros Hd Hdb. unfold sessions_New, sessions_New_open, DB_Update, sessions_New_fn.
  rewrite Hd, Hdb.
  unfold Bucket_CreateBucketIfNotExists, Bucket_CreateBucket, root, deref.
  cbn [lookup mbind outcome_bind].
  change (len (bytes_of_string bucketSessions) =? 0) with false. cbv iota.
  destruct (seek (bytes_of_string bucketSessions) es) as [[v|s' es']|] eqn:Hs.
  - reflexivity.
  - bind_step. unfold Bucket_Bucket, deref. cbn [lookup mbind outcome_bind].
    rewrite Hs. cbn [mbind outcome_bind app lookup]. rewrite Hs. reflexivity.
  - cbn [mbind outcome_bind app update lookup]. rewrite seek_insert. reflexivity.
Qed.

(** The error of [Load] is never one that [getMsgs] met. *)
Lemma messages_Load_errors ms st st' r e :
  messages_Load ms st = Ret (st', (r, Some e)) ->
  e = ErrNotOpen \/ e = ErrNotFound.
Proof.
  unfold messages_Load. destruct (done st); [intros H; inversion H; now left|].
  unfold DB_View. destruct (db st) as [tx|]; [|discriminate].
  unfold with_session.
  destruct (Bucket_Bucket tx root _) as [[b1|]|]; bind_step;
    [|intros H; inversion H; now right|discriminate].
  destruct (Bucket_Bucket tx (Some b1) _) as [[b2|]|]; bind_step;
    [|intros H; inversion H; now right|discriminate].
  destruct (Bucket_Bucket tx (Some b2) _) as [[b3|]|]; bind_step;
    [|intros H; inversion H; now right|discriminate].
  destruct (Bucket_Bucket tx (Some b3) (bytes_of_string "in")) as [[b4|]|];
    bind_step; [| |discriminate].
  - destruct (getMsgs tx (Some b4)) as [[l1 e1]|]; bind_step; [|discriminate].
    destruct (Bucket_Bucket tx (Some b3) (bytes_of_string "out")) as [[b5|]|];
      bind_step; [|discriminate|discriminate].
    destruct (getMsgs tx (Some b5)) as [[l2 e2]|]; bind_step; discriminate.
  - destruct (Bucket_Bucket tx (Some b3) (bytes_of_string "out")) as [[b5|]|];
      bind_step; [|discriminate|discriminate].
    destruct (getMsgs tx (Some b5)) as [[l2 e2]|]; bind_step; discriminate.
Qed.

End DroppedErrors.

(** C7. Errors met inside persistence operations are dropped: [sessions.New]
    with an empty id returns a session and nil although its transaction
    failed with [ErrBucketNameRequired] and created nothing; [messages.Load]
    returns nil although [getMsgs] failed on a stored record. *)
Theorem C7_errors_are_dropped :
  let st := boltdb.NewBoltDB bolt.empty_db in
  let record := [bolt.bytes_of_string "sessions"; bolt.bytes_of_string "c1";
                 bolt.bytes_of_string "messages"; bolt.bytes_of_string "in"] in
  let damaged :=
    bolt.Bucket 0 [(bolt.bytes_of_string "sessions",
      bolt.Bucket 0 [(bolt.bytes_of_string "c1",
        bolt.Bucket 0 [(bolt.bytes_of_string "messages",
          bolt.Bucket 0 [(bolt.bytes_of_string "in",
            bolt.Bucket 1 [(boltdb.itob64 1,
              bolt.Bucket 0 [(bolt.bytes_of_string "type", bolt.Value [0])])])])])])] in
  (exists tx,
      boltdb.sessions_New_fn "" bolt.empty_db
      = Ret (tx, Some (types.BoltError bolt.ErrBucketNameRequired))) /\
  boltdb.sessions_New "" st = Ret (st, (Some (boltdb.newSession ""), None)) /\
  boltdb.getMsgs damaged (Some record)
  = Ret ([], Some (types.MessageError message.ErrInvalidMessageType)) /\
  boltdb.messages_Load (boltdb.mkMessages "c1") (boltdb.NewBoltDB damaged)
  = Ret (boltdb.NewBoltDB damaged, (Some (types.mkSessionMessages [] []), None)).
Proof.
  cbv zeta. split; [eexists; vm_compute; reflexivity|].
  repeat split; vm_compute; reflexivity.
Qed.

Section InterleavingFacts.
Import types boltdb interleaving.

(** No step of any goroutine changes the wait group: nothing is ever added
    to it, so waiting on it never holds [Shutdown] back. *)
Lemma wgTx_never_changes (i : nat) (w w' : world) :
  fire i w = Some w' -> wgTx w' = wgTx w.
Proof.
  unfold fire. destruct (nth_error (procs w) i) as [g|]; [|discriminate].
  destruct (step g (status w) (wgTx w) (lock w)) as [[[[g' st] wg] lk]|] eqn:Hs;
    [|discriminate].
  intros H. inversion H; subst; clear H. cbn [wgTx].
  unfold step in Hs.
  repeat match type of Hs with
         | context [match ?x with _ => _ end] => destruct x
         end; inversion Hs; reflexivity.
Qed.

Lemma wgTx_stays_zero (schedule : list nat) : forall w w',
  run schedule w = Some w' -> wgTx w' = wgTx w.
Proof.
  induction schedule as [|i rest IH]; intros w w' H; simpl in H.
  - now inversion H.
  - destruct (fire i w) as [w1|] eqn:Hf; [|discriminate].
    rewrite (IH _ _ H). exact (wgTx_never_changes _ _ _ Hf).
Qed.

End InterleavingFacts.

(** C8. There is an interleaving of one [sessions.New] with [Shutdown] in
    which the transaction runs after the database has been released: the
    goroutine passes its look at [done], [Shutdown] then runs to its end
    without waiting, the wait group being zero, and the transaction meets a
    nil database. *)
Theorem C8_transaction_runs_after_release :
  exists w,
    interleaving.run [0; 1; 1; 1; 1; 1; 1; 0]%nat
      (interleaving.init bolt.empty_db
         [interleaving.GoNew "a" interleaving.AtSelect; interleaving.GoShutdown None interleaving.AtLock])
    = Some w /\
    boltdb.db (interleaving.status w) = None /\
    interleaving.wgTx w = 0 /\
    interleaving.procs w = [interleaving.GoNew "a" (interleaving.Returned Panic);
                    interleaving.GoShutdown None (interleaving.Finished (Ret None))] /\
    existsb interleaving.ran_on_released_db (interleaving.procs w) = true.
Proof. eexists. repeat split; vm_compute; reflexivity. Qed.

(** Stored PUBLISH packets do come back with their fields, and the packets
    of a direction in the order they were stored. *)
Example Store_Load_keeps_order_and_PUBLISH_fields :
  let ms := boltdb.mkMessages "c1" in
  let publish (pid flags : Z) (topic : string) (payload : list Z) :=
    message.Publish (message.PublishMessage.mk (message.mkHeader 0 flags pid) topic payload) in
  let stored := [publish 5 50 "a/b" [1; 2; 3]; publish 0 48 "c" []; publish 6 52 "a/b" [4]] in
  exists st1 st2,
    boltdb.sessions_New "c1" (boltdb.NewBoltDB bolt.empty_db)
    = Ret (st1, (Some (boltdb.newSession "c1"), None)) /\
    boltdb.messages_Store ms "in" stored st1 = Ret (st2, None) /\
    boltdb.messages_Load ms st2
    = Ret (st2, (Some (types.mkSessionMessages stored []), None)).
Proof.
  cbv zeta. eexists _, _. repeat split; vm_compute; reflexivity.
Qed.

(** * Further properties of the codec and of the persistence providers *)

Section ConnAckCodeFacts.
Import message.

Lemma ConnAckCode_small (cac : ConnAckCode.t) :
  0 <= cac <= 5 -> cac = 0 \/ cac = 1 \/ cac = 2 \/ cac = 3 \/ cac = 4 \/ cac = 5.
Proof. lia. Qed.

Lemma ConnAckCode_Desc_large (cac : ConnAckCode.t) : 5 < cac -> ConnAckCode.Desc cac = "".
Proof.
  intros H. unfold ConnAckCode.Desc, ConnAckCode.ConnectionAccepted,
    ConnAckCode.ErrInvalidProtocolVersion, ConnAckCode.ErrIdentifierRejected,
    ConnAckCode.ErrServerUnavailable, ConnAckCode.ErrBadUsernameOrPassword,
    ConnAckCode.ErrNotAuthorized.
  repeat match goal with
         | |- context [?x =? ?y] => destruct (Z.eqb_spec x y); [lia|]
         end.
  reflexivity.
Qed.

Lemma ConnAckCode_Error_large (cac : ConnAckCode.t) :
  5 < cac -> ConnAckCode.Error cac = "Unknown error".
Proof.
  intros H. unfold ConnAckCode.Error, ConnAckCode.ConnectionAccepted,
    ConnAckCode.ErrInvalidProtocolVersion, ConnAckCode.ErrIdentifierRejected,
    ConnAckCode.ErrServerUnavailable, ConnAckCode.ErrBadUsernameOrPassword,
    ConnAckCode.ErrNotAuthorized.
  repeat match goal with
         | |- context [?x =? ?y] => destruct (Z.eqb_spec x y); [lia|]
         end.
  reflexivity.
Qed.

End ConnAckCodeFacts.

(** X1. For a CONNACK return code (a byte), [Valid] holds exactly when the
    code has a description, and exactly when its error string is not the
    catch-all "Unknown error". *)
Theorem ConnAckCode_Valid_iff_described :
  forall cac : message.ConnAckCode.t,
    0 <= cac < 256 ->
    (message.ConnAckCode.Valid cac = true <-> message.ConnAckCode.Desc cac <> EmptyString) /\
    (message.ConnAckCode.Valid cac = true
     <-> message.ConnAckCode.Error cac <> "Unknown error"%string).
Proof.
  intros cac Hb. unfold message.ConnAckCode.Valid, message.ConnAckCode.ErrNotAuthorized.
  destruct (Z.leb_spec cac 5) as [Hle|Hgt].
  - destruct (ConnAckCode_small cac) as [-> | [-> | [-> | [-> | [-> | ->]]]]]; [lia|..];
      (split; (split; [discriminate | reflexivity])).
  - rewrite ConnAckCode_Desc_large, ConnAckCode_Error_large by exact Hgt.
    split; (split; [discriminate | congruence]).
Qed.

Lemma ConnAckCode_Valid_iff_described_witness :
  (message.ConnAckCode.Valid 3 = true <-> message.ConnAckCode.Desc 3 <> EmptyString) /\
  (message.ConnAckCode.Valid 3 = true <-> message.ConnAckCode.Error 3 <> "Unknown error"%string).
Proof. apply (ConnAckCode_Valid_iff_described 3). lia. Defined.


Section ByteFacts.
Import bolt boltdb.

Lemma byte_mod (v : Z) : byte v = v mod 256.
Proof. unfold byte. change 255 with (Z.ones 8). now rewrite Z.land_ones by lia. Qed.

Lemma byte_range (v : Z) : 0 <= byte v < 256.
Proof. rewrite byte_mod. apply Z.mod_pos_bound. lia. Qed.

Lemma byte_small (v : Z) : 0 <= v < 256 -> byte v = v.
Proof. intros H. rewrite byte_mod. now apply Z.mod_small. Qed.

Lemma lor_shiftl_8 (lo hi : Z) :
  0 <= lo < 256 -> 0 <= hi -> Z.lor lo (Z.shiftl hi 8) = lo + hi * 256.
Proof.
  intros Hlo Hhi. rewrite Z.shiftl_mul_pow2 by lia. change (2 ^ 8) with 256.
  rewrite <- Z.lxor_lor.
  - rewrite <- Z.add_nocarry_lxor; [reflexivity|].
    apply Z.bits_inj'. intros n Hn. rewrite Z.land_spec, Z.bits_0.
    destruct (Z.ltb_spec n 8).
    + replace (hi * 256) with (Z.shiftl hi 8) by (rewrite Z.shiftl_mul_pow2; lia).
      rewrite (Z.shiftl_spec_low hi 8 n) by lia. apply andb_false_r.
    + assert (Z.testbit lo n = false) as ->; [|reflexivity].
      destruct (Z.eq_dec lo 0) as [->|]; [apply Z.bits_0|].
      apply Z.bits_above_log2; [lia|].
      apply Z.lt_le_trans with 8; [|lia]. apply Z.log2_lt_pow2; lia.
  - apply Z.bits_inj'. intros n Hn. rewrite Z.land_spec, Z.bits_0.
    destruct (Z.ltb_spec n 8).
    + replace (hi * 256) with (Z.shiftl hi 8) by (rewrite Z.shiftl_mul_pow2; lia).
      rewrite (Z.shiftl_spec_low hi 8 n) by lia. apply andb_false_r.
    + assert (Z.testbit lo n = false) as ->; [|reflexivity].
      destruct (Z.eq_dec lo 0) as [->|]; [apply Z.bits_0|].
      apply Z.bits_above_log2; [lia|].
      apply Z.lt_le_trans with 8; [|lia]. apply Z.log2_lt_pow2; lia.
Qed.

Lemma Uint16_bytes (hi lo : Z) (rest : list Z) :
  0 <= hi -> 0 <= lo < 256 -> Uint16 (hi :: lo :: rest) = Ret (hi * 256 + lo).
Proof.
  intros Hhi Hlo. unfold Uint16. rewrite lor_shiftl_8 by lia. f_equal. lia.
Qed.

End ByteFacts.

(** X2. The packet identifier survives its storage form: reading the two
    bytes [itob16] makes of a 16-bit value with [binary.BigEndian.Uint16]
    gives the value back. *)
Theorem Uint16_itob16 :
  forall v : Z, 0 <= v < 65536 -> Uint16 (boltdb.itob16 v) = Ret v.
Proof.
  intros v Hv. unfold boltdb.itob16.
  rewrite Uint16_bytes; [|apply byte_range|apply byte_range].
  f_equal. rewrite !byte_mod, Z.shiftr_div_pow2 by lia. change (2 ^ 8) with 256.
  rewrite (Z.mod_small (v / 256)).
  - pose proof (Z.div_mod v 256). lia.
  - split; [apply Z.div_pos; lia | apply Z.div_lt_upper_bound; lia].
Qed.

Lemma Uint16_itob16_witness : Uint16 (boltdb.itob16 515) = Ret 515.
Proof. apply (Uint16_itob16 515). lia. Defined.

Section KeyOrder.
Import bolt boltdb.

(** The [n] low bytes of [v], most significant first. *)
Local Abbreviation big_endian n v :=
  (map (fun i : nat => byte (Z.shiftr v (8 * Z.of_nat i))) (rev (seq 0 n))).

Lemma itob64_big_endian (v : Z) : itob64 v = big_endian 8%nat v.
Proof. reflexivity. Qed.

Lemma big_endian_S (n : nat) (v : Z) :
  big_endian (S n) v = byte (Z.shiftr v (8 * Z.of_nat n)) :: big_endian n v.
Proof. rewrite seq_S, rev_app_distr. reflexivity. Qed.

Lemma big_endian_mod (n : nat) (v : Z) :
  big_endian n (v mod 2 ^ (8 * Z.of_nat n)) = big_endian n v.
Proof.
  apply map_ext_in. intros i Hi. apply in_rev, in_seq in Hi.
  unfold byte. apply Z.bits_inj'. intros j Hj.
  rewrite !Z.land_spec, !Z.shiftr_spec by lia.
  destruct (Z.ltb_spec j 8).
  - rewrite Z.mod_pow2_bits_low by lia. reflexivity.
  - change 255 with (Z.ones 8). rewrite Z.ones_spec_high by lia.
    now rewrite !andb_false_r.
Qed.

Lemma big_endian_head (n : nat) (v : Z) :
  0 <= v < 2 ^ (8 * Z.of_nat (S n)) ->
  byte (Z.shiftr v (8 * Z.of_nat n)) = v / 2 ^ (8 * Z.of_nat n).
Proof.
  intros Hv. rewrite Z.shiftr_div_pow2 by lia. apply byte_small.
  assert (Hp : 0 < 2 ^ (8 * Z.of_nat n)) by (apply Z.pow_pos_nonneg; lia).
  split; [apply Z.div_pos; lia|].
  apply Z.div_lt_upper_bound; [lia|].
  replace (8 * Z.of_nat (S n)) with (8 * Z.of_nat n + 8) in Hv by lia.
  rewrite Z.pow_add_r in Hv by lia. change (2 ^ 8) with 256 in Hv. lia.
Qed.

Lemma big_endian_lt (n : nat) : forall a b : Z,
  0 <= a < b -> b < 2 ^ (8 * Z.of_nat n) ->
  compare (big_endian n a) (big_endian n b) = Lt.
Proof.
  induction n as [|n IH]; intros a b Hab Hb.
  - change (2 ^ (8 * Z.of_nat 0)) with 1 in Hb. lia.
  - rewrite !big_endian_S. cbn [compare].
    rewrite !big_endian_head by lia.
    set (P := 2 ^ (8 * Z.of_nat n)) in *.
    assert (Hp : 0 < P) by (apply Z.pow_pos_nonneg; lia).
    pose proof (Z.div_mod a P) as Ha. pose proof (Z.div_mod b P) as Hb'.
    pose proof (Z.mod_pos_bound a P Hp). pose proof (Z.mod_pos_bound b P Hp).
    assert (Hq : a / P <= b / P) by (apply Z.div_le_mono; lia).
    destruct (Z.compare_spec (a / P) (b / P)) as [Heq|Hlt|Hgt]; [|reflexivity|lia].
    rewrite <- (big_endian_mod n a), <- (big_endian_mod n b). fold P.
    apply IH; [|lia]. rewrite Heq in Ha. lia.
Qed.

Lemma compare_eq (a : bytes) : forall b, compare a b = Eq -> a = b.
Proof.
  induction a as [|x a IH]; intros [|y b]; simpl; try discriminate; [reflexivity|].
  destruct (Z.compare_spec x y) as [->|?|?]; try discriminate.
  intros H. now rewrite (IH b H).
Qed.

Lemma compare_antisym (a : bytes) : forall b, compare b a = CompOpp (compare a b).
Proof.
  induction a as [|x a IH]; intros [|y b]; simpl; try reflexivity.
  rewrite (Z.compare_antisym x y). destruct (x ?= y); simpl; auto.
Qed.

End KeyOrder.

(** X3. The 8-byte keys [itob64] makes of sequence numbers sort, byte for
    byte, as the numbers do: a later sequence number gives a later key (and
    so a different one). *)
Theorem itob64_keeps_order :
  forall a b : Z,
    0 <= a < b -> b < 2 ^ 64 ->
    bolt.compare (boltdb.itob64 a) (boltdb.itob64 b) = Lt /\
    boltdb.itob64 a <> boltdb.itob64 b.
Proof.
  intros a b Hab Hb.
  assert (Hlt : bolt.compare (boltdb.itob64 a) (boltdb.itob64 b) = Lt).
  { rewrite !itob64_big_endian. apply big_endian_lt; [exact Hab|exact Hb]. }
  split; [exact Hlt|]. intros Heq. rewrite Heq, compare_refl in Hlt. discriminate.
Qed.

Lemma itob64_keeps_order_witness :
  bolt.compare (boltdb.itob64 255) (boltdb.itob64 256) = Lt /\
  boltdb.itob64 255 <> boltdb.itob64 256.
Proof. apply (itob64_keeps_order 255 256); lia. Defined.

Section BoltFacts.
Import bolt.

Lemma compare_neq (a b : bytes) : a <> b -> compare a b <> Eq.
Proof. intros Hne Heq. apply Hne. now apply compare_eq. Qed.

Lemma seek_insert_ne (k k' : bytes) (e : entry) (es : list (bytes * entry)) :
  k' <> k -> seek k' (insert k e es) = seek k' es.
Proof.
  intros Hne. pose proof (compare_neq k' k Hne) as Hc.
  induction es as [|[k0 e0] es IH]; simpl.
  - destruct (compare k' k); [congruence|reflexivity|reflexivity].
  - destruct (compare k k0) eqn:Hk; simpl.
    + apply compare_eq in Hk. subst k0.
      destruct (compare k' k); [congruence|reflexivity|reflexivity].
    + destruct (compare k' k); [congruence|reflexivity|reflexivity].
    + destruct (compare k' k0); [reflexivity|exact IH|exact IH].
Qed.

Lemma lookup_snoc (h : handle) (k : bytes) : forall tx : entry,
  lookup (h ++ [k]) tx
  = match lookup h tx with
    | Some (Bucket _ es) => seek k es
    | _ => None
    end.
Proof.
  induction h as [|k0 h IH]; intros tx; simpl.
  - destruct tx as [v|s es]; [reflexivity|]. destruct (seek k es); reflexivity.
  - destruct tx as [v|s es]; [reflexivity|]. destruct (seek k0 es); [apply IH|reflexivity].
Qed.

(** What an update at a path does to the entry at a prefix of the path. *)
Lemma lookup_update (p q : handle) (f : entry -> entry) : forall tx : entry,
  lookup p (update (p ++ q) f tx) = update q f <$> lookup p tx.
Proof.
  induction p as [|k p IH]; intros tx; [reflexivity|]. simpl.
  destruct tx as [v|s es]; [reflexivity|].
  destruct (seek k es) as [e|] eqn:Hs; simpl.
  - rewrite seek_insert. apply IH.
  - now rewrite Hs.
Qed.

Lemma lookup_update_same (h : handle) (f : entry -> entry) (tx e : entry) :
  lookup h tx = Some e -> lookup h (update h f tx) = Some (f e).
Proof.
  intros H. rewrite <- (app_nil_r h) at 2. rewrite lookup_update, H. reflexivity.
Qed.

Lemma lookup_bucket_prefix (p : handle) (k : bytes) (q : handle) : forall (tx e : entry),
  lookup (p ++ k :: q) tx = Some e ->
  exists s es, lookup p tx = Some (Bucket s es).
Proof.
  induction p as [|k0 p IH]; intros tx e; simpl.
  - destruct tx as [v|s es]; [discriminate|]. eauto.
  - destruct tx as [v|s es]; [discriminate|].
    destruct (seek k0 es); [apply IH|discriminate].
Qed.

Lemma deref_lookup (tx : entry) (h : list bytes) s es :
  lookup h tx = Some (Bucket s es) -> deref tx (Some h) = Ret (h, s, es).
Proof. intros H. unfold deref. now rewrite H. Qed.

Lemma Bucket_Bucket_found (tx : entry) (h : list bytes) (k : bytes) s es :
  lookup (h ++ [k]) tx = Some (Bucket s es) ->
  Bucket_Bucket tx (Some h) k = Ret (Some (h ++ [k])).
Proof.
  intros H. destruct (lookup_bucket_prefix h k [] tx _ H) as (s' & es' & Hh).
  rewrite lookup_snoc, Hh in H. unfold Bucket_Bucket.
  rewrite (deref_lookup _ _ _ _ Hh). bind_step. now rewrite H.
Qed.

Lemma Bucket_Bucket_missing (tx : entry) (h : list bytes) (k : bytes) s es :
  lookup h tx = Some (Bucket s es) -> lookup (h ++ [k]) tx = None ->
  Bucket_Bucket tx (Some h) k = Ret None.
Proof.
  intros Hh H. rewrite lookup_snoc, Hh in H. unfold Bucket_Bucket.
  rewrite (deref_lookup _ _ _ _ Hh). bind_step. now rewrite H.
Qed.

Lemma Bucket_CreateBucket_new (tx : entry) (h : list bytes) (k : bytes) s es :
  lookup h tx = Some (Bucket s es) -> len k <> 0 -> seek k es = None ->
  exists tx',
    Bucket_CreateBucket tx (Some h) k = Ret (tx', (Some (h ++ [k]), None)) /\
    lookup h tx' = Some (Bucket s (insert k (Bucket 0 []) es)) /\
    lookup (h ++ [k]) tx' = Some (Bucket 0 []).
Proof.
  intros Hh Hk Hs. unfold Bucket_CreateBucket.
  rewrite (deref_lookup _ _ _ _ Hh). bind_step.
  destruct (Z.eqb_spec (len k) 0); [contradiction|]. rewrite Hs.
  eexists. split; [reflexivity|].
  assert (Hh' : forall f, lookup h (update h f tx) = Some (f (Bucket s es))).
  { intros f. now apply lookup_update_same. }
  split; [apply Hh'|]. rewrite lookup_snoc, Hh'. apply seek_insert.
Qed.

Lemma Bucket_CreateBucket_exists (tx : entry) (h : list bytes) (k : bytes) s es :
  lookup (h ++ [k]) tx = Some (Bucket s es) -> len k <> 0 ->
  Bucket_CreateBucket tx (Some h) k = Ret (tx, (None, Some ErrBucketExists)).
Proof.
  intros H Hk. destruct (lookup_bucket_prefix h k [] tx _ H) as (s' & es' & Hh).
  rewrite lookup_snoc, Hh in H. unfold Bucket_CreateBucket.
  rewrite (deref_lookup _ _ _ _ Hh). bind_step.
  destruct (Z.eqb_spec (len k) 0); [contradiction|]. now rewrite H.
Qed.

Lemma Bucket_CreateBucketIfNotExists_exists (tx : entry) (h : list bytes) (k : bytes) s es :
  lookup (h ++ [k]) tx = Some (Bucket s es) -> len k <> 0 ->
  Bucket_CreateBucketIfNotExists tx (Some h) k = Ret (tx, (Some (h ++ [k]), None)).
Proof.
  intros H Hk. unfold Bucket_CreateBucketIfNotExists.
  rewrite (Bucket_CreateBucket_exists _ _ _ _ _ H Hk). bind_step.
  rewrite (Bucket_Bucket_found _ _ _ _ _ H). reflexivity.
Qed.

Lemma Bucket_CreateBucketIfNotExists_new (tx : entry) (h : list bytes) (k : bytes) s es :
  lookup h tx = Some (Bucket s es) -> len k <> 0 -> seek k es = None ->
  exists tx',
    Bucket_CreateBucketIfNotExists tx (Some h) k = Ret (tx', (Some (h ++ [k]), None)) /\
    lookup h tx' = Some (Bucket s (insert k (Bucket 0 []) es)) /\
    lookup (h ++ [k]) tx' = Some (Bucket 0 []).
Proof.
  intros Hh Hk Hs.
  destruct (Bucket_CreateBucket_new _ _ _ _ _ Hh Hk Hs) as (tx' & Hc & H1 & H2).
  exists tx'. unfold Bucket_CreateBucketIfNotExists. rewrite Hc. now bind_step.
Qed.

Lemma len_bytes_of_string (s : string) : s <> EmptyString -> len (bytes_of_string s) <> 0.
Proof. destruct s; [congruence|]. unfold len, bytes_of_string. simpl. lia. Qed.

Lemma string_of_bytes_of_string (s : string) : string_of_bytes (bytes_of_string s) = s.
Proof.
  unfold string_of_bytes, bytes_of_string. rewrite map_map.
  rewrite <- (string_of_list_ascii_of_string s) at 2. f_equal.
  induction (list_ascii_of_string s) as [|c l IH]; [reflexivity|]. simpl. f_equal; [|exact IH].
  rewrite byte_small.
  - now rewrite N2Z.id, ascii_N_embedding.
  - pose proof (N_ascii_bounded c). lia.
Qed.

End BoltFacts.

Section SessionFacts.
Import message bolt types boltdb.

Local Abbreviation S := (bytes_of_string bucketSessions).

Lemma seek_absent (k : bytes) (es : list (bytes * entry)) :
  k ∉ map fst es -> seek k es = None.
Proof.
  induction es as [|[k0 e0] es IH]; [reflexivity|]. simpl. intros Hn.
  apply not_elem_of_cons in Hn. destruct Hn as [Hne Hn].
  destruct (compare k k0) eqn:Hc.
  - apply compare_eq in Hc. congruence.
  - now apply IH.
  - now apply IH.
Qed.

Lemma seek_remove (k : bytes) (es : list (bytes * entry)) :
  NoDup (map fst es) -> seek k (remove k es) = None.
Proof.
  induction es as [|[k0 e0] es IH]; [reflexivity|]. simpl. intros Hnd.
  apply NoDup_cons in Hnd. destruct Hnd as [Hnotin Hnd'].
  destruct (compare k k0) eqn:Hc.
  - apply compare_eq in Hc. subst k0. now apply seek_absent.
  - simpl. rewrite Hc. now apply IH.
  - simpl. rewrite Hc. now apply IH.
Qed.

Lemma Bucket_DeleteBucket_found (tx : entry) (h : list bytes) (k : bytes) s es s' es' :
  lookup h tx = Some (Bucket s es) -> seek k es = Some (Bucket s' es') ->
  exists tx',
    Bucket_DeleteBucket tx (Some h) k = Ret (tx', None) /\
    lookup h tx' = Some (Bucket s (remove k es)).
Proof.
  intros Hh Hs. unfold Bucket_DeleteBucket.
  rewrite (deref_lookup _ _ _ _ Hh). bind_step. rewrite Hs.
  eexists. split; [reflexivity|]. now rewrite (lookup_update_same _ _ _ _ Hh).
Qed.

Lemma Bucket_DeleteBucket_missing (tx : entry) (h : list bytes) (k : bytes) s es :
  lookup h tx = Some (Bucket s es) -> seek k es = None ->
  Bucket_DeleteBucket tx (Some h) k = Ret (tx, Some ErrBucketNotFound).
Proof.
  intros Hh Hs. unfold Bucket_DeleteBucket.
  rewrite (deref_lookup _ _ _ _ Hh). bind_step. now rewrite Hs.
Qed.

(** The transaction of [New] commits where no entry stands in its way. *)
Lemma sessions_New_fn_commits (id : string) (tx : entry) sq es :
  tx = Bucket sq es -> id <> EmptyString ->
  (forall v, lookup [S] tx <> Some (Value v)) ->
  lookup [S; bytes_of_string id] tx = None ->
  exists tx',
    sessions_New_fn id tx = Ret (tx', None) /\
    lookup [S; bytes_of_string id] tx' = Some (Bucket 0 []).
Proof.
  intros Htx Hid Hval Hnone. unfold sessions_New_fn, root.
  assert (Hroot : lookup [] tx = Some (Bucket sq es)) by now subst.
  assert (HS : len S <> 0) by (apply len_bytes_of_string; discriminate).
  pose proof (len_bytes_of_string id Hid) as HI.
  destruct (lookup [S] tx) as [[v|s1 es1]|] eqn:Hl.
  - now destruct (Hval v).
  - destruct (Bucket_CreateBucket_new tx [S] (bytes_of_string id) s1 es1 Hl HI)
      as (tx' & Hc & _ & Hnew).
    { change [S; bytes_of_string id] with ([S] ++ [bytes_of_string id]) in Hnone.
      now rewrite lookup_snoc, Hl in Hnone. }
    exists tx'. split; [|exact Hnew].
    rewrite (Bucket_CreateBucketIfNotExists_exists tx [] S s1 es1 Hl HS). bind_step.
    change ([] ++ [S]) with [S]. rewrite Hc. reflexivity.
  - destruct (Bucket_CreateBucketIfNotExists_new tx [] S sq es Hroot HS)
      as (tx1 & Hc1 & _ & Hnew1).
    { subst tx. simpl in Hl. destruct (seek S es) as [e|]; [|reflexivity].
      simpl in Hl. discriminate. }
    change ([] ++ [S]) with [S] in *.
    destruct (Bucket_CreateBucket_new tx1 [S] (bytes_of_string id) 0 [] Hnew1 HI eq_refl)
      as (tx' & Hc & _ & Hnew).
    exists tx'. split; [|exact Hnew].
    rewrite Hc1. bind_step. rewrite Hc. reflexivity.
Qed.

Lemma sessions_Get_found (id : string) (st : dbStatus) (tx : entry) s es :
  done st = false -> db st = Some tx ->
  lookup [S; bytes_of_string id] tx = Some (Bucket s es) ->
  sessions_Get id st = Ret (st, (Some (newSession id), None)).
Proof.
  intros Hd Hdb Hl. unfold sessions_Get, DB_View, root. rewrite Hd, Hdb.
  destruct (lookup_bucket_prefix [S] (bytes_of_string id) [] tx _ Hl) as (s1 & es1 & HS).
  rewrite (Bucket_Bucket_found tx [] S s1 es1 HS). bind_step.
  change ([] ++ [S]) with [S].
  rewrite (Bucket_Bucket_found tx [S] (bytes_of_string id) s es Hl). reflexivity.
Qed.

Lemma sessions_Get_missing (id : string) (st : dbStatus) (tx : entry) s1 es1 :
  done st = false -> db st = Some tx ->
  lookup [S] tx = Some (Bucket s1 es1) ->
  lookup [S; bytes_of_string id] tx = None ->
  sessions_Get id st = Ret (st, (None, Some ErrNotFound)).
Proof.
  intros Hd Hdb HS Hl. unfold sessions_Get, DB_View, root. rewrite Hd, Hdb.
  rewrite (Bucket_Bucket_found tx [] S s1 es1 HS). bind_step.
  change ([] ++ [S]) with [S].
  rewrite (Bucket_Bucket_missing tx [S] (bytes_of_string id) s1 es1 HS Hl). reflexivity.
Qed.


End SessionFacts.



Section SessionStateFacts.
Import message bolt types boltdb.

Local Abbreviation S := (bytes_of_string bucketSessions).

Lemma with_session_found {R : Type} (tx : entry) (id : string)
  (fail : option error -> outcome R) (k : option handle -> outcome R) s es :
  lookup [S; bytes_of_string id] tx = Some (Bucket s es) ->
  with_session tx id fail k = k (Some [S; bytes_of_string id]).
Proof.
  intros Hl. unfold with_session, root.
  destruct (lookup_bucket_prefix [S] (bytes_of_string id) [] tx _ Hl) as (s1 & es1 & HS).
  rewrite (Bucket_Bucket_found tx [] S s1 es1 HS). bind_step.
  change ([] ++ [S]) with [S].
  rewrite (Bucket_Bucket_found tx [S] (bytes_of_string id) s es Hl). reflexivity.
Qed.

Lemma Bucket_Bucket_lookup (tx : entry) (h : list bytes) (k : bytes) s es :
  lookup h tx = Some (Bucket s es) ->
  Bucket_Bucket tx (Some h) k
  = Ret (match lookup (h ++ [k]) tx with
         | Some (Bucket _ _) => Some (h ++ [k])
         | _ => None
         end).
Proof.
  intros Hh. unfold Bucket_Bucket. rewrite (deref_lookup _ _ _ _ Hh). bind_step.
  rewrite lookup_snoc, Hh. destruct (seek k es) as [[v|s' es']|]; reflexivity.
Qed.

Lemma with_session_missing {R : Type} (tx : entry) (id : string)
  (fail : option error -> outcome R) (k : option handle -> outcome R) sq es :
  tx = Bucket sq es ->
  (forall s' es', lookup [S; bytes_of_string id] tx <> Some (Bucket s' es')) ->
  with_session tx id fail k = fail (Some ErrNotFound).
Proof.
  intros Htx Hl. unfold with_session, root.
  assert (Hroot : lookup [] tx = Some (Bucket sq es)) by now subst.
  rewrite (Bucket_Bucket_lookup tx [] S sq es Hroot). bind_step.
  change ([] ++ [S]) with [S].
  destruct (lookup [S] tx) as [[v|s1 es1]|] eqn:HS; try reflexivity.
  rewrite (Bucket_Bucket_lookup tx [S] (bytes_of_string id) s1 es1 HS). bind_step.
  change ([S] ++ [bytes_of_string id]) with [S; bytes_of_string id].
  destruct (lookup [S; bytes_of_string id] tx) as [[v|s2 es2]|] eqn:HI; try reflexivity.
  now destruct (Hl s2 es2).
Qed.

Lemma root_is_bucket (tx : entry) (k : bytes) (e : entry) :
  lookup [k] tx = Some e -> exists sq es, tx = Bucket sq es.
Proof. destruct tx as [v|sq es]; [discriminate|]. eauto. Qed.

End SessionStateFacts.

Local Abbreviation sessions_key := (bolt.bytes_of_string boltdb.bucketSessions).

(** X5. Deleting an existing session removes it: the [Get] that follows
    returns [ErrNotFound], and so does a second [Delete], which leaves the
    store as it is. *)
Theorem sessions_Delete_then_Get_and_Delete :
  forall (st : boltdb.dbStatus) (tx : bolt.entry) (id : string) s1 es1 s2 es2,
    boltdb.done st = false ->
    boltdb.db st = Some tx ->
    bolt.lookup [bolt.bytes_of_string boltdb.bucketSessions] tx = Some (bolt.Bucket s1 es1) ->
    NoDup (map fst es1) ->
    bolt.lookup [bolt.bytes_of_string boltdb.bucketSessions; bolt.bytes_of_string id] tx
    = Some (bolt.Bucket s2 es2) ->
    exists st',
      boltdb.sessions_Delete id st = Ret (st', None) /\
      boltdb.sessions_Get id st' = Ret (st', (None, Some types.ErrNotFound)) /\
      boltdb.sessions_Delete id st' = Ret (st', Some types.ErrNotFound).
Proof.
  intros st tx id s1 es1 s2 es2 Hd Hdb HS Hnd Hl.
  assert (Hseek : bolt.seek (bolt.bytes_of_string id) es1 = Some (bolt.Bucket s2 es2)).
  { change [sessions_key; (bolt.bytes_of_string id)] with ([sessions_key] ++ [(bolt.bytes_of_string id)]) in Hl. now rewrite lookup_snoc, HS in Hl. }
  destruct (Bucket_DeleteBucket_found tx [sessions_key] (bolt.bytes_of_string id) s1 es1 s2 es2 HS Hseek) as (tx' & Hdel & HS').
  assert (Hl' : bolt.lookup [sessions_key; (bolt.bytes_of_string id)] tx' = None).
  { change [sessions_key; (bolt.bytes_of_string id)] with ([sessions_key] ++ [(bolt.bytes_of_string id)]). rewrite lookup_snoc, HS'. now apply seek_remove. }
  exists (boltdb.mkStatus (Some tx') false). split; [|split].
  - unfold boltdb.sessions_Delete, boltdb.DB_Update, bolt.root. rewrite Hd, Hdb.
    rewrite (Bucket_Bucket_found tx [] sessions_key s1 es1 HS). bind_step.
    change ([] ++ [sessions_key]) with [sessions_key]. rewrite Hdel. reflexivity.
  - now apply (sessions_Get_missing id _ tx' s1 (bolt.remove (bolt.bytes_of_string id) es1)).
  - unfold boltdb.sessions_Delete, boltdb.DB_Update, bolt.root. cbn [boltdb.done boltdb.db].
    rewrite (Bucket_Bucket_found tx' [] sessions_key _ _ HS'). bind_step.
    change ([] ++ [sessions_key]) with [sessions_key].
    rewrite (Bucket_DeleteBucket_missing tx' [sessions_key] (bolt.bytes_of_string id) _ _ HS'); [reflexivity|].
    now apply seek_remove.
Qed.

Lemma sessions_Delete_then_Get_and_Delete_witness :
  let tx :=
    bolt.Bucket 0 [(bolt.bytes_of_string "sessions",
      bolt.Bucket 0 [(bolt.bytes_of_string "c1", bolt.Bucket 0 [])])] in
  exists st',
    boltdb.sessions_Delete "c1" (boltdb.NewBoltDB tx) = Ret (st', None) /\
    boltdb.sessions_Get "c1" st' = Ret (st', (None, Some types.ErrNotFound)) /\
    boltdb.sessions_Delete "c1" st' = Ret (st', Some types.ErrNotFound).
Proof.
  cbv zeta.
  eapply (sessions_Delete_then_Get_and_Delete _ _ "c1").
  - reflexivity.
  - reflexivity.
  - reflexivity.
  - apply NoDup_singleton.
  - reflexivity.
Defined.

(** X6. A session deleted and created anew starts empty, whatever it held
    before: it has no subscriptions and no queued messages, [Get] on its
    subscriptions and [Load] on its messages both return [ErrNotFound]. *)
Theorem session_created_anew_is_empty :
  forall (st : boltdb.dbStatus) (tx : bolt.entry) (id : string) s1 es1 s2 es2,
    boltdb.done st = false ->
    boltdb.db st = Some tx ->
    id <> EmptyString ->
    bolt.lookup [bolt.bytes_of_string boltdb.bucketSessions] tx = Some (bolt.Bucket s1 es1) ->
    NoDup (map fst es1) ->
    bolt.lookup [bolt.bytes_of_string boltdb.bucketSessions; bolt.bytes_of_string id] tx
    = Some (bolt.Bucket s2 es2) ->
    exists st1 st2,
      boltdb.sessions_Delete id st = Ret (st1, None) /\
      boltdb.sessions_New id st1 = Ret (st2, (Some (boltdb.newSession id), None)) /\
      boltdb.subscriptions_Get (boltdb.mkSubscriptions id) st2
      = Ret (st2, (None, Some types.ErrNotFound)) /\
      boltdb.messages_Load (boltdb.mkMessages id) st2
      = Ret (st2, (Some (types.mkSessionMessages [] []), Some types.ErrNotFound)).
Proof.
  intros st tx id s1 es1 s2 es2 Hd Hdb Hid HS Hnd Hl.
  assert (Hseek : bolt.seek (bolt.bytes_of_string id) es1 = Some (bolt.Bucket s2 es2)).
  { change [sessions_key; (bolt.bytes_of_string id)] with ([sessions_key] ++ [(bolt.bytes_of_string id)]) in Hl. now rewrite lookup_snoc, HS in Hl. }
  destruct (Bucket_DeleteBucket_found tx [sessions_key] (bolt.bytes_of_string id) s1 es1 s2 es2 HS Hseek) as (tx1 & Hdel & HS1).
  assert (Hl1 : bolt.lookup [sessions_key; (bolt.bytes_of_string id)] tx1 = None).
  { change [sessions_key; (bolt.bytes_of_string id)] with ([sessions_key] ++ [(bolt.bytes_of_string id)]). rewrite lookup_snoc, HS1. now apply seek_remove. }
  destruct (root_is_bucket tx1 sessions_key _ HS1) as (sq & es & Htx1).
  destruct (sessions_New_fn_commits id tx1 sq es Htx1 Hid) as (tx2 & Hfn & Hl2).
  { intros v. fold sessions_key. rewrite HS1. discriminate. }
  { exact Hl1. }
  exists (boltdb.mkStatus (Some tx1) false), (boltdb.mkStatus (Some tx2) false).
  split; [|split; [|split]].
  - unfold boltdb.sessions_Delete, boltdb.DB_Update, bolt.root. rewrite Hd, Hdb.
    rewrite (Bucket_Bucket_found tx [] sessions_key s1 es1 HS). bind_step.
    change ([] ++ [sessions_key]) with [sessions_key]. rewrite Hdel. reflexivity.
  - unfold boltdb.sessions_New, boltdb.sessions_New_open, boltdb.DB_Update.
    cbn [boltdb.done boltdb.db]. rewrite Hfn. reflexivity.
  - unfold boltdb.subscriptions_Get, boltdb.DB_View. cbn [boltdb.done boltdb.db boltdb.subs_id].
    rewrite (with_session_found tx2 id _ _ 0 [] Hl2).
    rewrite (Bucket_Bucket_missing tx2 [sessions_key; (bolt.bytes_of_string id)] _ 0 [] Hl2); [reflexivity|].
    now rewrite lookup_snoc, Hl2.
  - unfold boltdb.messages_Load, boltdb.DB_View. cbn [boltdb.done boltdb.db boltdb.msgs_id].
    rewrite (with_session_found tx2 id _ _ 0 [] Hl2).
    rewrite (Bucket_Bucket_missing tx2 [sessions_key; (bolt.bytes_of_string id)] _ 0 [] Hl2); [reflexivity|].
    now rewrite lookup_snoc, Hl2.
Qed.

Lemma session_created_anew_is_empty_witness :
  let tx :=
    bolt.Bucket 0 [(bolt.bytes_of_string "sessions",
      bolt.Bucket 0 [(bolt.bytes_of_string "c1",
        bolt.Bucket 0 [(bolt.bytes_of_string "subscriptions",
          bolt.Bucket 1 [(boltdb.itob64 1,
            bolt.Bucket 0 [(bolt.bytes_of_string "qos", bolt.Value [1]);
                           (bolt.bytes_of_string "topic", bolt.Value [97])])])])])] in
  exists st1 st2,
    boltdb.sessions_Delete "c1" (boltdb.NewBoltDB tx) = Ret (st1, None) /\
    boltdb.sessions_New "c1" st1 = Ret (st2, (Some (boltdb.newSession "c1"), None)) /\
    boltdb.subscriptions_Get (boltdb.mkSubscriptions "c1") st2
    = Ret (st2, (None, Some types.ErrNotFound)) /\
    boltdb.messages_Load (boltdb.mkMessages "c1") st2
    = Ret (st2, (Some (types.mkSessionMessages [] []), Some types.ErrNotFound)).
Proof.
  cbv zeta.
  eapply (session_created_anew_is_empty _ _ "c1").
  - reflexivity.
  - reflexivity.
  - discriminate.
  - reflexivity.
  - apply NoDup_singleton.
  - reflexivity.
Defined.

Section AtomicityFacts.
Import message bolt types boltdb.

Lemma DB_Update_outcome (st : dbStatus) fn :
  DB_Update st fn = Panic \/
  (exists e, DB_Update st fn = Ret (st, Some e)) \/
  (exists st', DB_Update st fn = Ret (st', None)).
Proof.
  unfold DB_Update. destruct (db st) as [tx|]; [|now left].
  destruct (fn tx) as [[tx' [e'|]]|]; bind_step; eauto.
Qed.

Lemma DB_Update_error (st st' : dbStatus) fn (e : error) :
  DB_Update st fn = Ret (st', Some e) -> st' = st.
Proof.
  destruct (DB_Update_outcome st fn) as [-> | [[e' ->] | [s' ->]]]; intros H; now inversion H.
Qed.

End AtomicityFacts.

(** Splits on the outcome of the transaction, or of the look at [done], that
    the call in the hypothesis starts with. *)
Ltac call_cases H :=
  repeat first
    [ match type of H with
      | context [boltdb.done ?st] => destruct (boltdb.done st)
      end
    | match type of H with
      | context [boltdb.DB_Update ?st ?fn] =>
          let Hu := fresh "Hu" in
          destruct (DB_Update_outcome st fn) as [Hu | [[? Hu] | [? Hu]]];
          rewrite Hu in H; clear Hu
      end
    | match type of H with
      | context [boltdb.DB_View ?st ?fn] => destruct (boltdb.DB_View st fn) as [[? [?|]]|]
      end
    | progress cbn [mbind outcome_bind boltdb.only_error fst snd] in H ].

(** X7. A call that returns an error changes nothing in the store, however
    far its transaction had come; the one exception is [Shutdown], which
    closes the provider even when closing the database fails. *)
Theorem failed_call_leaves_store_unchanged :
  forall (c : boltdb.call) (st st' : boltdb.dbStatus) (e : types.error),
    (forall closeErr, c <> boltdb.Call_Shutdown closeErr) ->
    boltdb.exec c st = Ret (st', Some e) ->
    st' = st.
Proof.
  intros c st st' e Hc H.
  destruct c; cbn [boltdb.exec] in H;
    try (now inversion H);
    try (now destruct (Hc closeErr));
    unfold boltdb.only_error, boltdb.sessions_New, boltdb.sessions_New_open,
      boltdb.sessions_Get, boltdb.sessions_GetAll, boltdb.sessions_Delete,
      boltdb.subscriptions_Add, boltdb.subscriptions_Get, boltdb.subscriptions_Delete,
      boltdb.messages_Store, boltdb.messages_Load, boltdb.messages_Delete,
      boltdb.retained_Load, boltdb.retained_Store, boltdb.retained_Delete in H;
    call_cases H;
    repeat match type of H with
           | context [match ?x with _ => _ end] => destruct x
           end;
    try discriminate; now inversion H.
Qed.

Lemma failed_call_leaves_store_unchanged_witness :
  let st :=
    boltdb.NewBoltDB
      (bolt.Bucket 0 [(bolt.bytes_of_string "sessions",
         bolt.Bucket 0 [(bolt.bytes_of_string "c1", bolt.Bucket 0 [])])]) in
  st = st.
Proof.
  cbv zeta.
  eapply (failed_call_leaves_store_unchanged
            (boltdb.Call_messages_Store (boltdb.mkMessages "c1") "" [])
            _ _ (types.BoltError bolt.ErrBucketNameRequired)).
  - discriminate.
  - reflexivity.
Defined.

(** X8. [Shutdown] closes the provider whatever it returns, also when it
    hands back the error of closing the database: every call made after it,
    in any number and order, returns [ErrNotOpen]. *)
Theorem Shutdown_closes_whatever_it_returns :
  forall (closeErr err : option types.error) (st st' : boltdb.dbStatus),
    boltdb.Shutdown closeErr st = Ret (st', err) ->
    boltdb.done st' = true /\
    forall cs : list boltdb.call,
      boltdb.exec_all cs st' = Ret (st', map (fun _ => Some types.ErrNotOpen) cs).
Proof.
  intros closeErr err st st' Hs.
  pose proof (boltdb_Shutdown_closes _ _ _ _ Hs) as Hd.
  split; [exact Hd|]. intros cs. now apply boltdb_exec_all_closed.
Qed.

Lemma Shutdown_closes_whatever_it_returns_witness :
  boltdb.done (boltdb.mkStatus None true) = true /\
  forall cs : list boltdb.call,
    boltdb.exec_all cs (boltdb.mkStatus None true)
    = Ret (boltdb.mkStatus None true, map (fun _ => Some types.ErrNotOpen) cs).
Proof.
  apply (Shutdown_closes_whatever_it_returns
           (Some (types.BoltError bolt.ErrKeyRequired))
           (Some (types.BoltError bolt.ErrKeyRequired))
           (boltdb.NewBoltDB bolt.empty_db)).
  reflexivity.
Defined.

Section MemFacts.
Import types.

Lemma mem_exec_open (c : mem.call) (st : mem.dbStatus) :
  mem.done st = false -> c <> mem.Call_Shutdown -> mem.exec c st = (st, None).
Proof.
  intros Hd Hc. destruct c; cbn [mem.exec]; try congruence;
    unfold mem.System, mem.Sessions, mem.Retained; now rewrite Hd.
Qed.

Lemma mem_exec_all_open (cs : list mem.call) (st : mem.dbStatus) :
  mem.done st = false -> Forall (fun c => c <> mem.Call_Shutdown) cs ->
  mem.exec_all cs st = (st, map (fun _ => None) cs).
Proof.
  intros Hd Hall. induction Hall as [|c cs Hc _ IH]; [reflexivity|].
  cbn [mem.exec_all map]. rewrite (mem_exec_open c st Hd Hc), IH. reflexivity.
Qed.

Lemma mem_exec_all_app (cs1 cs2 : list mem.call) (st : mem.dbStatus) :
  mem.exec_all (cs1 ++ cs2) st
  = let '(st1, e1) := mem.exec_all cs1 st in
    let '(st2, e2) := mem.exec_all cs2 st1 in
    (st2, e1 ++ e2).
Proof.
  revert st. induction cs1 as [|c cs1 IH]; intros st; cbn [mem.exec_all app].
  - now destruct (mem.exec_all cs2 st).
  - destruct (mem.exec c st) as [st1 e]. rewrite IH.
    destruct (mem.exec_all cs1 st1) as [st2 e1].
    now destruct (mem.exec_all cs2 st2) as [st3 e2].
Qed.

End MemFacts.

(** X9. The life of a mem provider: every call before the first [Shutdown]
    succeeds, that [Shutdown] succeeds, and every call after it returns
    [ErrNotOpen]. *)
Theorem mem_provider_open_until_first_Shutdown :
  forall before after : list mem.call,
    Forall (fun c => c <> mem.Call_Shutdown) before ->
    mem.exec_all (before ++ mem.Call_Shutdown :: after) mem.New
    = (mem.mkStatus true,
       map (fun _ => None) before ++ None :: map (fun _ => Some types.ErrNotOpen) after).
Proof.
  intros before after Hb. rewrite mem_exec_all_app.
  rewrite (mem_exec_all_open before mem.New eq_refl Hb).
  cbn [mem.exec_all mem.exec]. unfold mem.Shutdown at 1. cbn [mem.done mem.New].
  now rewrite (mem_exec_all_closed after (mem.mkStatus true) eq_refl).
Qed.

Lemma mem_provider_open_until_first_Shutdown_witness :
  mem.exec_all
    ([mem.Call_Sessions; mem.Call_System] ++ mem.Call_Shutdown
       :: [mem.Call_Retained; mem.Call_Shutdown]) mem.New
  = (mem.mkStatus true,
     map (fun _ => None) [mem.Call_Sessions; mem.Call_System]
     ++ None :: map (fun _ => Some types.ErrNotOpen) [mem.Call_Retained; mem.Call_Shutdown]).
Proof.
  apply (mem_provider_open_until_first_Shutdown
           [mem.Call_Sessions; mem.Call_System] [mem.Call_Retained; mem.Call_Shutdown]).
  repeat constructor; discriminate.
Defined.

Section DecodeShape.
Import message.

Lemma skipn_repeat_all (l : Z) :
  skipn (Z.to_nat l) (repeat 0 (Z.to_nat l)) = [].
Proof. apply skipn_all2. rewrite repeat_length. lia. Qed.

End DecodeShape.

(** X10. [SubAckMessage.decode] into a message that already holds return
    codes overwrites as many of them as the packet carries and keeps the
    rest: the codes kept are counted in the length it returns and are
    validated with the new ones. Into a message holding no more codes than
    the packet carries, the result is the codes of the packet and the length
    is that of the packet. *)
Theorem SubAck_decode_keeps_stale_codes :
  forall (IsValidFull : message.QosType -> bool) (msg : message.SubAckMessage.t)
         (src : list Z) (h : message.header) (hn : Z),
    message.header_decode (message.SubAckMessage.hdr msg) src = (h, (hn, None)) ->
    2 <= message.remLen h ->
    let l := message.remLen h - 2 in
    let codes := firstn (Z.to_nat l) (skipn (Z.to_nat (hn + 2)) src) in
    let kept := skipn (Z.to_nat l) (message.SubAckMessage.returnCodes msg) in
    exists id,
      message.SubAckMessage.decode IsValidFull msg src
      = Ret (message.SubAckMessage.mk (message.set_packetID id h) (codes ++ kept),
             (hn + message.remLen h + len kept,
              message.SubAckMessage.check_codes IsValidFull (codes ++ kept))) /\
      len codes = l.
Proof.
  intros V msg src h hn Hh Hrl l codes kept.
  destruct (header_decode_accepts _ _ _ _ Hh) as [Hhn Hroom].
  pose proof (len_nonneg src) as Hsrc.
  assert (Hlen : len codes = l).
  { unfold codes, len. rewrite length_firstn, length_skipn. unfold len, l in *. lia. }
  destruct (Uint16_long (skipn (Z.to_nat (0 + hn)) src)) as [pid Hpid].
  { rewrite skipn_length_Z; lia. }
  exists pid. split; [|exact Hlen].
  unfold message.SubAckMessage.decode.
  rewrite slice_from_0. bind_step. rewrite Hh.
  rewrite (slice_from_in src (0 + hn)) by lia. bind_step.
  rewrite Hpid. bind_step. cbv zeta.
  cbn [message.remLen message.set_packetID].
  rewrite slice_in by lia. bind_step.
  replace (0 + hn + 2 + (message.remLen h - (0 + hn + 2 - hn)) - (0 + hn + 2)) with l
    by (unfold l; lia).
  replace (message.remLen h - (0 + hn + 2 - hn)) with l by (unfold l; lia).
  replace (0 + hn + 2) with (hn + 2) by lia.
  fold codes.
  assert (Hkept : skipn (length codes)
                    (if len (message.SubAckMessage.returnCodes msg) <? l
                     then repeat 0 (Z.to_nat l)
                     else message.SubAckMessage.returnCodes msg) = kept).
  { replace (length codes) with (Z.to_nat l) by (unfold len in Hlen; lia).
    destruct (Z.ltb_spec (len (message.SubAckMessage.returnCodes msg)) l) as [Hlt|Hge].
    - rewrite skipn_repeat_all. unfold kept. symmetry. apply skipn_all2.
      unfold len in Hlt. lia.
    - reflexivity. }
  rewrite Hkept. do 3 f_equal. rewrite len_app, Hlen. unfold l. lia.
Qed.

Lemma SubAck_decode_keeps_stale_codes_witness :
  exists id,
    message.SubAckMessage.decode message.QosType_IsValidFull
      (message.SubAckMessage.mk message.zero_header [1; 1; 5]) [144; 3; 0; 9; 2]
    = Ret (message.SubAckMessage.mk (message.set_packetID id (message.mkHeader 3 144 0))
             ([2] ++ [1; 5]),
           (2 + 3 + len [1; 5],
            message.SubAckMessage.check_codes message.QosType_IsValidFull ([2] ++ [1; 5]))) /\
    len [2] = 3 - 2.
Proof.
  apply (SubAck_decode_keeps_stale_codes message.QosType_IsValidFull
           (message.SubAckMessage.mk message.zero_header [1; 1; 5])
           [144; 3; 0; 9; 2] (message.mkHeader 3 144 0) 2).
  - reflexivity.
  - simpl. lia.
Defined.

(** X11. Past an accepted fixed header, [PubRelMessage.decode] depends on
    nothing but the two bytes that follow: with fewer than two bytes left it
    panics, otherwise it takes them as the packet identifier and returns the
    header length plus 2, whatever remaining length the header declares. *)
Theorem PubRel_decode_after_header :
  forall (msg : message.PubRelMessage.t) (src : list Z) (h : message.header) (hn : Z),
    message.header_decode (message.PubRelMessage.hdr msg) src = (h, (hn, None)) ->
    (len src < hn + 2 -> message.PubRelMessage.decode msg src = Panic) /\
    (hn + 2 <= len src ->
     exists id,
       Uint16 (skipn (Z.to_nat hn) src) = Ret id /\
       message.PubRelMessage.decode msg src
       = Ret (message.PubRelMessage.mk (message.set_packetID id h), (hn + 2, None))).
Proof.
  intros msg src h hn Hh. split.
  - intros Hshort. now apply (PubRel_decode_truncated msg src h hn).
  - intros Hlong. destruct (header_decode_accepts _ _ _ _ Hh) as [Hhn _].
    destruct (Uint16_long (skipn (Z.to_nat hn) src)) as [pid Hpid].
    { rewrite skipn_length_Z; lia. }
    exists pid. split; [exact Hpid|].
    unfold message.PubRelMessage.decode. rewrite slice_from_0. bind_step. rewrite Hh.
    rewrite (slice_from_in src (0 + hn)) by lia. bind_step.
    replace (0 + hn) with hn by lia. rewrite Hpid. reflexivity.
Qed.

Lemma PubRel_decode_after_header_witness :
  exists id,
    Uint16 (skipn (Z.to_nat 2) [98; 0; 1; 2]) = Ret id /\
    message.PubRelMessage.decode message.PubRelMessage.NewPubRelMessage [98; 0; 1; 2]
    = Ret (message.PubRelMessage.mk (message.set_packetID id (message.mkHeader 0 98 0)),
           (2 + 2, None)).
Proof.
  apply (proj2 (PubRel_decode_after_header message.PubRelMessage.NewPubRelMessage
                  [98; 0; 1; 2] (message.mkHeader 0 98 0) 2 eq_refl)).
  unfold len. simpl. lia.
Defined.

Section VarintFacts.
Import message.

Lemma land_small_127 (x : Z) : 0 <= x < 128 -> Z.land x 127 = x.
Proof.
  intros H. change 127 with (Z.ones 7). rewrite Z.land_ones by lia.
  apply Z.mod_small. change (2 ^ 7) with 128. lia.
Qed.

Lemma land_small_128 (x : Z) : 0 <= x < 128 -> Z.land x 128 = 0.
Proof.
  intros H. apply Z.bits_inj'. intros m Hm. rewrite Z.land_spec, Z.bits_0.
  change 128 with (2 ^ 7). rewrite Z.pow2_bits_eqb by lia.
  destruct (Z.eqb_spec 7 m) as [<-|]; [|apply andb_false_r].
  assert (Z.testbit x 7 = false) as ->; [|reflexivity].
  destruct (Z.eq_dec x 0) as [->|]; [apply Z.bits_0|].
  apply Z.bits_above_log2; [lia|]. apply Z.log2_lt_pow2; lia.
Qed.

Lemma continuation_byte (x : Z) :
  Z.land (Z.lor (Z.land x 127) 128) 127 = Z.land x 127 /\
  Z.land (Z.lor (Z.land x 127) 128) 128 = 128.
Proof.
  rewrite !Z.land_lor_distr_l, <- !Z.land_assoc.
  change (Z.land 127 127) with 127. change (Z.land 128 127) with 0.
  change (Z.land 127 128) with 0. change (Z.land 128 128) with 128.
  rewrite Z.land_0_r, Z.lor_0_r, Z.lor_0_l. split; reflexivity.
Qed.

Lemma shift_join (x shift : Z) :
  0 <= shift ->
  Z.lor (Z.shiftl (Z.land x 127) shift) (Z.shiftl (Z.shiftr x 7) (shift + 7))
  = Z.shiftl x shift.
Proof.
  intros Hs. apply Z.bits_inj'. intros m Hm.
  rewrite Z.lor_spec, !Z.shiftl_spec, Z.land_spec by lia.
  destruct (Z.ltb_spec (m - shift) 0) as [Hneg|Hpos].
  - rewrite !(Z.testbit_neg_r _ (m - shift)) by lia.
    rewrite (Z.testbit_neg_r _ (m - (shift + 7))) by lia. reflexivity.
  - destruct (Z.ltb_spec (m - shift) 7) as [Hlow|Hhigh].
    + rewrite (Z.testbit_neg_r _ (m - (shift + 7))) by lia.
      change 127 with (Z.ones 7). rewrite Z.ones_spec_low by lia.
      now rewrite andb_true_r, orb_false_r.
    + change 127 with (Z.ones 7). rewrite Z.ones_spec_high by lia.
      rewrite andb_false_r, orb_false_l, Z.shiftr_spec by lia.
      f_equal. lia.
Qed.

Lemma get_put_varint (n : nat) : forall (x shift acc cnt : Z) (rest : list Z),
  (0 < n)%nat -> 0 <= x < 128 ^ Z.of_nat n -> 0 <= shift ->
  get_varint n (put_varint n x ++ rest) shift acc cnt
  = Some (Z.lor acc (Z.shiftl x shift), cnt + len (put_varint n x)).
Proof.
  induction n as [|n IH]; intros x shift acc cnt rest Hn Hx Hs; [lia|].
  cbn [put_varint]. destruct (Z.ltb_spec x 128) as [Hlt|Hge].
  - cbn [app get_varint]. rewrite land_small_128, land_small_127 by lia. reflexivity.
  - cbn [app get_varint]. destruct (continuation_byte x) as [-> ->].
    change (128 =? 0) with false. cbv iota.
    assert (Hn' : (0 < n)%nat).
    { destruct n; [|lia]. change (128 ^ Z.of_nat 1) with 128 in Hx. lia. }
    rewrite IH; [| exact Hn' | | lia].
    + rewrite <- Z.lor_assoc, shift_join by lia. f_equal. f_equal.
      rewrite len_cons. lia.
    + rewrite Z.shiftr_div_pow2 by lia. change (2 ^ 7) with 128.
      split; [apply Z.div_pos; lia|]. apply Z.div_lt_upper_bound; [lia|].
      replace (Z.of_nat (S n)) with (Z.of_nat n + 1) in Hx by lia.
      rewrite Z.pow_add_r in Hx by lia. lia.
Qed.

(** The varint of the fixed header reads back what was written. *)
Lemma decode_encode_varint (x : Z) (rest : list Z) :
  0 <= x <= maxRemainingLength ->
  decode_varint (encode_varint x ++ rest) = Some (x, len (encode_varint x)).
Proof.
  intros Hx. unfold decode_varint, encode_varint.
  rewrite get_put_varint; [|lia| |lia].
  - now rewrite Z.shiftl_0_r, Z.lor_0_l.
  - unfold maxRemainingLength in Hx. change (128 ^ Z.of_nat 4) with 268435456. lia.
Qed.

Lemma encode_varint_length (x : Z) : 1 <= len (encode_varint x) <= 4.
Proof.
  unfold encode_varint. cbn [put_varint].
  repeat match goal with
         | |- context [if ?b then _ else _] => destruct b
         end; unfold len; simpl; lia.
Qed.

End VarintFacts.


Section EncodeShape.
Import message.

Lemma header_encode_fits (h : header) (dst : list Z) :
  let bytes := mTypeFlags h :: encode_varint (remLen h) in
  len bytes <= len dst ->
  header_encode h dst = Ret (bytes ++ skipn (length bytes) dst, len bytes).
Proof.
  intros bytes Hfit. unfold header_encode. fold bytes.
  destruct (Z.leb_spec (len bytes) (len dst)); [|lia]. reflexivity.
Qed.

Lemma skipn_prefix (pre rest : list Z) (n : nat) :
  skipn (length pre + n) (pre ++ rest) = skipn n rest.
Proof. induction pre as [|x pre IH]; [reflexivity|exact IH]. Qed.

Lemma firstn_prefix (pre rest : list Z) : firstn (length pre) (pre ++ rest) = pre.
Proof. induction pre as [|x pre IH]; simpl; [now destruct rest|now f_equal]. Qed.

Lemma blit_after (pre rest src : list Z) :
  blit (pre ++ rest) (len pre) src = pre ++ src ++ skipn (length src) rest.
Proof.
  unfold blit, len. rewrite Nat2Z.id, firstn_prefix, skipn_prefix. reflexivity.
Qed.

Lemma store_after (pre rest : list Z) (x v : Z) :
  store (pre ++ x :: rest) (len pre) v = Ret (pre ++ v :: rest).
Proof.
  unfold store. pose proof (len_nonneg pre). rewrite len_app, len_cons.
  pose proof (len_nonneg rest).
  destruct (Z.leb_spec 0 (len pre)); [|lia].
  destruct (Z.ltb_spec (len pre) (len pre + (1 + len rest))); [|lia].
  cbn [andb]. unfold len. rewrite Nat2Z.id, firstn_prefix, skipn_prefix. reflexivity.
Qed.

Lemma store_outside (s : list Z) (i v : Z) : len s <= i -> store s i v = Panic.
Proof.
  intros H. unfold store. destruct (Z.ltb_spec i (len s)); [lia|]. now rewrite andb_false_r.
Qed.

(** The loop that writes the return codes: it fills the room after what is
    written so far, and panics when the room runs out. *)
Lemma put_codes_fits (codes : list QosType) : forall (pre rest : list Z),
  len codes <= len rest ->
  SubAckMessage.put_codes (pre ++ rest) (len pre) codes
  = Ret (pre ++ map byte codes ++ skipn (length codes) rest, len pre + len codes).
Proof.
  induction codes as [|q codes IH]; intros pre rest Hfit.
  - cbn. f_equal. f_equal. unfold len. simpl. lia.
  - destruct rest as [|x rest]; [unfold len in Hfit; simpl in Hfit; lia|].
    cbn [SubAckMessage.put_codes]. rewrite store_after. bind_step.
    replace (pre ++ byte q :: rest) with ((pre ++ [byte q]) ++ rest)
      by now rewrite <- app_assoc.
    replace (len pre + 1) with (len (pre ++ [byte q])) by (rewrite len_app; reflexivity).
    rewrite IH by (rewrite !len_cons in Hfit; lia).
    rewrite <- app_assoc, len_app, !len_cons. cbn. f_equal. f_equal.
    unfold len. simpl. lia.
Qed.

Lemma map_byte_id (codes : list Z) :
  Forall (fun c => 0 <= c < 256) codes -> map byte codes = codes.
Proof.
  induction 1 as [|c codes Hc _ IH]; [reflexivity|]. cbn. now rewrite byte_small, IH.
Qed.

Lemma skipn_skipn_Z (a b : nat) (s : list Z) : skipn a (skipn b s) = skipn (b + a) s.
Proof.
  revert s. induction b as [|b IH]; intros s; [reflexivity|].
  destruct s as [|x s]; [now rewrite !skipn_nil|]. cbn. apply IH.
Qed.

Lemma SubAck_Encode_fits :
  forall (msg : SubAckMessage.t) (dst : list Z),
    let h := SubAckMessage.hdr msg in
    let codes := SubAckMessage.returnCodes msg in
    let ml := 2 + len codes in
    let fixed := mTypeFlags h :: encode_varint ml in
    let size := len fixed + ml in
    packetID h <> 0 ->
    ml <= maxRemainingLength ->
    size <= len dst ->
    SubAckMessage.Encode msg dst
    = Ret (SubAckMessage.mk (set_remLen ml h) codes,
           fixed ++ [byte (Z.shiftr (packetID h) 8); byte (packetID h)]
             ++ map byte codes ++ skipn (Z.to_nat size) dst,
           (size, None)).
Proof.
  intros msg dst h codes ml fixed size Hid Hml Hfit.
  pose proof (len_nonneg codes) as Hc. pose proof (len_nonneg fixed) as Hf.
  unfold SubAckMessage.Encode, SubAckMessage.size.
  rewrite header_Size_set by exact Hid.
  fold codes ml h.
  destruct (Z.ltb_spec ml 0); [lia|].
  destruct (Z.ltb_spec maxRemainingLength ml); [lia|]. cbn [orb].
  replace (1 + len (encode_varint ml) + ml) with size
    by (unfold size, fixed; rewrite len_cons; lia).
  destruct (Z.ltb_spec (len dst) size); [lia|].
  unfold SubAckMessage.preEncode.
  cbn [SubAckMessage.hdr SubAckMessage.returnCodes
       packetID set_remLen].
  fold h. destruct (Z.eqb_spec (packetID h) 0); [contradiction|].
  rewrite slice_from_0. bind_step.
  rewrite header_encode_fits;
    unfold set_remLen; cbn [remLen mTypeFlags]; fold fixed; [|lia].
  bind_step. cbv zeta.
  rewrite blit_whole.
  2:{ rewrite length_app, length_skipn. unfold len in *. lia. }
  rewrite PutUint16_in; [|lia|].
  2:{ rewrite len_app. unfold len in *. rewrite length_skipn. lia. }
  bind_step. replace (0 + len fixed) with (len fixed) by lia.
  rewrite blit_after. cbn [length].
  rewrite skipn_skipn_Z.
  set (id2 := [byte (Z.shiftr (packetID h) 8); byte (packetID h)]).
  replace (fixed ++ id2 ++ skipn (length fixed + 2) dst)
    with ((fixed ++ id2) ++ skipn (length fixed + 2) dst) by now rewrite <- app_assoc.
  replace (len fixed + 2) with (len (fixed ++ id2)) by (rewrite len_app; reflexivity).
  fold codes. rewrite put_codes_fits.
  2:{ unfold size, ml in Hfit. unfold len in *. rewrite length_skipn. lia. }
  bind_step. rewrite skipn_skipn_Z, <- !app_assoc.
  replace (length fixed + 2 + length codes)%nat with (Z.to_nat size)
    by (unfold size, ml, len, QosType in *; lia).
  replace (len (fixed ++ id2) + len codes) with size
    by (rewrite len_app; unfold size, ml, id2, len, QosType in *; simpl; lia).
  reflexivity.
Qed.

End EncodeShape.

Ltac lens :=
  repeat (rewrite len_app || rewrite len_cons || change (len (@nil Z)) with 0).

Section RoundTripFacts.
Import message.

Lemma Uint16_big_endian (v : Z) (rest : list Z) :
  0 <= v < 65536 -> Uint16 (byte (Z.shiftr v 8) :: byte v :: rest) = Ret v.
Proof.
  intros Hv. rewrite Uint16_bytes; [|apply byte_range|apply byte_range].
  f_equal. rewrite !byte_mod, Z.shiftr_div_pow2 by lia. change (2 ^ 8) with 256.
  rewrite (Z.mod_small (v / 256)).
  - pose proof (Z.div_mod v 256). lia.
  - split; [apply Z.div_pos; lia | apply Z.div_lt_upper_bound; lia].
Qed.

(** [header.decode] on the bytes [header.encode] writes. *)
Lemma header_decode_encoded (h0 : header) (b0 rl : Z) (rest : list Z) :
  Type_Valid (Z.shiftr b0 4) = true ->
  flags_ok (Z.shiftr b0 4) (Z.land b0 15) = true ->
  0 <= rl <= maxRemainingLength -> rl <= len rest ->
  header_decode h0 (b0 :: encode_varint rl ++ rest)
  = (mkHeader rl b0 (packetID h0), (1 + len (encode_varint rl), None)).
Proof.
  intros Hty Hfl Hrl Hroom. unfold header_decode.
  unfold header_Type, header_Flags, set_mTypeFlags. cbn [mTypeFlags].
  rewrite Hty, Hfl. cbn [negb].
  rewrite decode_encode_varint by exact Hrl. cbv zeta.
  rewrite len_cons, len_app.
  destruct (Z.ltb_spec (1 + (len (encode_varint rl) + len rest) - (1 + len (encode_varint rl))) rl);
    [lia|].
  reflexivity.
Qed.

Lemma skipn_app_Z (pre rest : list Z) : skipn (Z.to_nat (len pre)) (pre ++ rest) = rest.
Proof.
  unfold len. rewrite Nat2Z.id.
  replace (length pre) with (length pre + 0)%nat by lia. apply skipn_prefix.
Qed.

Lemma firstn_app_Z (pre rest : list Z) : firstn (Z.to_nat (len pre)) (pre ++ rest) = pre.
Proof. unfold len. rewrite Nat2Z.id. apply firstn_prefix. Qed.

Lemma len_map_byte (codes : list Z) : len (map byte codes) = len codes.
Proof. unfold len. now rewrite length_map. Qed.

(** [SubAckMessage.decode] on the bytes of a SUBACK packet. *)
Lemma SubAck_decode_packet (V : QosType -> bool) (msg0 : SubAckMessage.t)
      (b0 id : Z) (codes tail : list Z) :
  Type_Valid (Z.shiftr b0 4) = true ->
  flags_ok (Z.shiftr b0 4) (Z.land b0 15) = true ->
  0 <= id < 65536 ->
  2 + len codes <= maxRemainingLength ->
  len (SubAckMessage.returnCodes msg0) <= len codes ->
  SubAckMessage.decode V msg0
    ((b0 :: encode_varint (2 + len codes))
       ++ [byte (Z.shiftr id 8); byte id] ++ codes ++ tail)
  = Ret (SubAckMessage.mk (mkHeader (2 + len codes) b0 id) codes,
         (len (b0 :: encode_varint (2 + len codes)) + (2 + len codes),
          SubAckMessage.check_codes V codes)).
Proof.
  intros Hty Hfl Hid Hml Hold.
  pose proof (len_nonneg codes) as Hc. pose proof (len_nonneg tail) as Ht.
  set (ml := 2 + len codes) in *.
  set (fixed := b0 :: encode_varint ml).
  set (id2 := [byte (Z.shiftr id 8); byte id]).
  pose proof (encode_varint_length ml) as Hv.
  assert (Hfixed : len fixed = 1 + len (encode_varint ml)) by (unfold fixed; apply len_cons).
  unfold SubAckMessage.decode. rewrite slice_from_0. bind_step.
  change (fixed ++ id2 ++ codes ++ tail)
    with (b0 :: encode_varint ml ++ (id2 ++ codes ++ tail)) at 1.
  rewrite header_decode_encoded; [|exact Hty|exact Hfl|lia|].
  2:{ unfold id2. lens. unfold ml. lia. }
  rewrite <- Hfixed.
  rewrite slice_from_in.
  2:{ unfold id2. lens. lia. }
  bind_step. replace (0 + len fixed) with (len fixed) by lia.
  rewrite skipn_app_Z.
  assert (HU : Uint16 (id2 ++ codes ++ tail) = Ret id)
    by (apply Uint16_big_endian; exact Hid).
  rewrite HU. bind_step. cbv zeta.
  cbn [set_packetID remLen mTypeFlags packetID].
  replace (ml - (len fixed + 2 - len fixed)) with (len codes) by (unfold ml; lia).
  rewrite slice_in.
  2:{ lia. }
  2:{ unfold id2. lens. lia. }
  bind_step.
  replace (len fixed + 2 + len codes - (len fixed + 2)) with (len codes) by lia.
  replace (len fixed + 2) with (len (fixed ++ id2))
    by (unfold id2; lens; lia).
  rewrite (app_assoc fixed id2), skipn_app_Z, firstn_app_Z.
  assert (Hkept : skipn (length codes)
                    (if len (SubAckMessage.returnCodes msg0) <? len codes
                     then repeat 0 (Z.to_nat (len codes))
                     else SubAckMessage.returnCodes msg0) = []).
  { apply skipn_all2.
    destruct (Z.ltb_spec (len (SubAckMessage.returnCodes msg0)) (len codes)).
    - rewrite repeat_length. unfold len. lia.
    - unfold len, QosType in *. lia. }
  unfold QosType in *. rewrite Hkept, app_nil_r.
  do 3 f_equal. unfold id2, ml. lens. lia.
Qed.

End RoundTripFacts.

Section EncodeFits.
Import message.

Lemma ltb_len_false (dst : list Z) (n : Z) : n <= len dst -> (len dst <? n) = false.
Proof. intros H. now apply Z.ltb_ge. Qed.

Lemma two_bytes (dst : list Z) : 2 <= len dst -> exists a b rest, dst = a :: b :: rest.
Proof.
  destruct dst as [|a [|b rest]]; unfold len; simpl; intros H; try lia.
  now exists a, b, rest.
Qed.

Lemma PingReq_Encode_fits (msg : PingReqMessage.t) (dst : list Z) :
  header_needsPacketID (PingReqMessage.hdr msg) = false ->
  2 <= len dst ->
  PingReqMessage.Encode msg dst
  = Ret (PingReqMessage.mk (set_remLen 0 (PingReqMessage.hdr msg)),
         [mTypeFlags (PingReqMessage.hdr msg); 0] ++ skipn 2 dst, (2, None)).
Proof.
  intros Hn Hlen. unfold PingReqMessage.Encode, PingReqMessage.size.
  rewrite header_Size_no_id by exact Hn.
  change ((0 <? 0) || (maxRemainingLength <? 0)) with false.
  change (1 + len (encode_varint 0) + 0) with 2.
  cbv beta iota. rewrite ltb_len_false by exact Hlen.
  unfold PingReqMessage.preEncode. cbn [PingReqMessage.hdr].
  rewrite header_encode_small; [reflexivity|simpl; lia|exact Hlen].
Qed.

Lemma PubRel_Encode_fits (msg : PubRelMessage.t) (dst : list Z) :
  packetID (PubRelMessage.hdr msg) <> 0 -> 4 <= len dst ->
  PubRelMessage.Encode msg dst
  = Ret (PubRelMessage.mk (set_remLen 2 (PubRelMessage.hdr msg)),
         [mTypeFlags (PubRelMessage.hdr msg); 2;
          byte (Z.shiftr (packetID (PubRelMessage.hdr msg)) 8);
          byte (packetID (PubRelMessage.hdr msg))] ++ skipn 4 dst,
         (4, None)).
Proof.
  intros Hid Hlen. destruct (four_bytes dst Hlen) as (a & b & c & d & rest & ->).
  unfold PubRelMessage.Encode, PubRelMessage.size.
  rewrite header_Size_2 by exact Hid. cbv beta iota. rewrite ltb_len_false by exact Hlen.
  unfold PubRelMessage.preEncode. cbn [PubRelMessage.hdr set_remLen packetID].
  destruct (Z.eqb_spec (packetID (PubRelMessage.hdr msg)) 0); [contradiction|].
  rewrite slice_from_0. bind_step.
  rewrite header_encode_small; [|simpl; lia|lia].
  bind_step. cbv zeta. rewrite blit_whole by reflexivity.
  rewrite PutUint16_in; [|lia|].
  2:{ cbn [mTypeFlags remLen skipn]. rewrite !len_cons in *. lia. }
  reflexivity.
Qed.

(** [PubRelMessage.decode] on the bytes of a PUBREL packet. *)
Lemma PubRel_decode_packet (msg0 : PubRelMessage.t) (b0 id : Z) (tail : list Z) :
  Type_Valid (Z.shiftr b0 4) = true ->
  flags_ok (Z.shiftr b0 4) (Z.land b0 15) = true ->
  0 <= id < 65536 ->
  PubRelMessage.decode msg0
    ([b0; 2; byte (Z.shiftr id 8); byte id] ++ tail)
  = Ret (PubRelMessage.mk (mkHeader 2 b0 id), (4, None)).
Proof.
  intros Hty Hfl Hid. pose proof (len_nonneg tail) as Ht.
  unfold PubRelMessage.decode. rewrite slice_from_0. bind_step.
  change ([b0; 2; byte (Z.shiftr id 8); byte id] ++ tail)
    with (b0 :: encode_varint 2 ++ (byte (Z.shiftr id 8) :: byte id :: tail)).
  rewrite header_decode_encoded; [|exact Hty|exact Hfl|unfold maxRemainingLength; lia|].
  2:{ lens. lia. }
  change (1 + len (encode_varint 2)) with 2.
  rewrite slice_from_in.
  2:{ change (encode_varint 2) with [2]. lens. lia. }
  bind_step. change (skipn (Z.to_nat (0 + 2)) (b0 :: encode_varint 2 ++ byte (Z.shiftr id 8) :: byte id :: tail))
    with (byte (Z.shiftr id 8) :: byte id :: tail).
  rewrite Uint16_big_endian by exact Hid. reflexivity.
Qed.

End EncodeFits.

Section UnSubAckEncode.
Import message.

Variable encode : UnSubAckMessage.t -> list Z -> outcome (list Z * result).

Lemma UnSubAck_Len_dirty (msg : UnSubAckMessage.t) :
  UnSubAckMessage.dirty msg = true ->
  UnSubAckMessage.Len msg
  = (UnSubAckMessage.mk (UnSubAckMessage.mtypeflags msg) 2 (UnSubAckMessage.packetID msg)
       true (UnSubAckMessage.dBuf msg), 4).
Proof.
  intros Hd. unfold UnSubAckMessage.Len. rewrite Hd. cbn [negb].
  unfold UnSubAckMessage.msgLen, UnSubAckMessage.SetRemainingLength.
  change ((2 <? 0) || (maxRemainingLength <? 2)) with false. cbv iota. rewrite Hd.
  reflexivity.
Qed.

Lemma split_at2 (s : list Z) (n : Z) :
  0 <= n -> n + 2 <= len s ->
  exists pre x y rest, s = pre ++ x :: y :: rest /\ len pre = n.
Proof.
  intros H0 H2.
  assert (Hl : length (skipn (Z.to_nat n) s) = (length s - Z.to_nat n)%nat)
    by apply length_skipn.
  destruct (skipn (Z.to_nat n) s) as [|x [|y rest]] eqn:Hs; cbn [length] in Hl;
    try (unfold len in H2; lia).
  exists (firstn (Z.to_nat n) s), x, y, rest. split.
  - rewrite <- Hs. symmetry. apply firstn_skipn.
  - unfold len in *. rewrite length_firstn. lia.
Qed.

(** The identifier bytes [Encode] writes after the fixed header. *)
Lemma UnSubAck_Encode_over_dirty_fits (msg : UnSubAckMessage.t) (dst s : list Z) (n : Z) :
  UnSubAckMessage.dirty msg = true -> 4 <= len dst ->
  encode (UnSubAckMessage.mk (UnSubAckMessage.mtypeflags msg) 2
            (UnSubAckMessage.packetID msg) true (UnSubAckMessage.dBuf msg)) dst
  = Ret (s, (n, None)) ->
  length s = length dst -> 0 <= n -> n + 2 <= len dst ->
  UnSubAckMessage.Encode_over encode msg dst
  = Ret (UnSubAckMessage.mk (UnSubAckMessage.mtypeflags msg) 2 (UnSubAckMessage.packetID msg)
           true (UnSubAckMessage.dBuf msg),
         firstn (Z.to_nat n) s
           ++ (if 2 <=? len (UnSubAckMessage.packetID msg)
               then firstn 2 (UnSubAckMessage.packetID msg) else [0; 0])
           ++ skipn (Z.to_nat n + 2) s,
         (n + 2, None)).
Proof.
  intros Hd Hlen He Hs Hn0 Hn2.
  unfold UnSubAckMessage.Encode_over. rewrite UnSubAck_Len_dirty by exact Hd.
  rewrite ltb_len_false by exact Hlen.
  cbn [UnSubAckMessage.dirty negb UnSubAckMessage.packetID].
  rewrite slice_from_0. bind_step. rewrite He. bind_step. cbv zeta.
  rewrite blit_whole by exact Hs.
  destruct (split_at2 s n) as (pre & x & y & rest & -> & <-);
    [exact Hn0|unfold len in *; lia|].
  replace (0 + len pre) with (len pre) by lia.
  assert (Hsl : slice (pre ++ x :: y :: rest) (len pre) (len pre + 2) = Ret [x; y]).
  { pose proof (len_nonneg rest).
    rewrite slice_in; [|lia|rewrite len_app, !len_cons; lia].
    replace (Z.to_nat (len pre)) with (length pre + 0)%nat by (unfold len; lia).
    rewrite skipn_prefix. replace (len pre + 2 - len pre) with 2 by lia. reflexivity. }
  rewrite Hsl. bind_step.
  assert (Hst : forall a b,
            (d1 ← store (pre ++ a :: b :: rest) (len pre) 0; store d1 (len pre + 1) 0)
            = Ret (pre ++ 0 :: 0 :: rest)).
  { intros a b. rewrite store_after. bind_step.
    replace (pre ++ 0 :: b :: rest) with ((pre ++ [0]) ++ b :: rest)
      by now rewrite <- app_assoc.
    replace (len pre + 1) with (len (pre ++ [0])) by (rewrite len_app; reflexivity).
    rewrite store_after. now rewrite <- app_assoc. }
  replace (Z.to_nat (len pre)) with (length pre) by (unfold len; lia).
  rewrite firstn_prefix, skipn_prefix. cbn [skipn].
  destruct (UnSubAckMessage.packetID msg) as [|p [|q pid]].
  - cbn [UnSubAckMessage.copy length Nat.min firstn skipn app Z.of_nat].
    change (negb (0 =? 2)) with true. cbv iota.
    rewrite blit_after. cbn [length skipn app].
    rewrite Hst. reflexivity.
  - cbn [UnSubAckMessage.copy length Nat.min firstn skipn app].
    change (negb (Z.of_nat 1 =? 2)) with true. cbv iota.
    rewrite blit_after. cbn [length skipn app].
    rewrite Hst. reflexivity.
  - cbn [UnSubAckMessage.copy length Nat.min firstn skipn app].
    change (negb (Z.of_nat 2 =? 2)) with false. cbv iota.
    rewrite blit_after. cbn [length skipn app].
    pose proof (len_nonneg pid).
    destruct (Z.leb_spec 2 (len (p :: q :: pid))); [reflexivity|rewrite !len_cons in *; lia].
Qed.

(** An error of [header.encode] ends [Encode] with count 0. *)
Lemma UnSubAck_Encode_over_dirty_fails (msg : UnSubAckMessage.t) (dst s : list Z) (n : Z) e :
  UnSubAckMessage.dirty msg = true -> 4 <= len dst ->
  encode (UnSubAckMessage.mk (UnSubAckMessage.mtypeflags msg) 2
            (UnSubAckMessage.packetID msg) true (UnSubAckMessage.dBuf msg)) dst
  = Ret (s, (n, Some e)) ->
  length s = length dst ->
  UnSubAckMessage.Encode_over encode msg dst
  = Ret (UnSubAckMessage.mk (UnSubAckMessage.mtypeflags msg) 2 (UnSubAckMessage.packetID msg)
           true (UnSubAckMessage.dBuf msg), s, (0, Some e)).
Proof.
  intros Hd Hlen He Hs.
  unfold UnSubAckMessage.Encode_over. rewrite UnSubAck_Len_dirty by exact Hd.
  rewrite ltb_len_false by exact Hlen.
  cbn [UnSubAckMessage.dirty negb].
  rewrite slice_from_0. bind_step. rewrite He. bind_step. cbv zeta.
  rewrite blit_whole by exact Hs. reflexivity.
Qed.

Lemma UnSubAck_Encode_over_clean (msg : UnSubAckMessage.t) (dst : list Z) :
  UnSubAckMessage.dirty msg = false ->
  UnSubAckMessage.Encode_over encode msg dst
  = if len dst <? len (UnSubAckMessage.dBuf msg)
    then Ret (msg, dst, (len (UnSubAckMessage.dBuf msg), Some ErrInsufficientBufferSize))
    else Ret (msg, UnSubAckMessage.dBuf msg ++ skipn (length (UnSubAckMessage.dBuf msg)) dst,
              (len (UnSubAckMessage.dBuf msg), None)).
Proof.
  intros Hd. unfold UnSubAckMessage.Encode_over, UnSubAckMessage.Len. rewrite Hd. cbn [negb].
  destruct (Z.ltb_spec (len dst) (len (UnSubAckMessage.dBuf msg))) as [|Hfit]; [reflexivity|].
  rewrite Hd. cbn [negb]. unfold UnSubAckMessage.copy.
  assert (Hmin : Nat.min (length dst) (length (UnSubAckMessage.dBuf msg))
                 = length (UnSubAckMessage.dBuf msg)) by (unfold len in Hfit; lia).
  rewrite Hmin, firstn_all. reflexivity.
Qed.

End UnSubAckEncode.

(** X12. What [SubAckMessage.Encode] writes: for a message with a packet
    identifier and a buffer that can hold the packet, the buffer starts with
    the fixed header, then the identifier, high byte first, then one byte per
    return code, in order; what follows in the buffer is untouched, the
    remaining length is recorded in the message and the size of the packet
    is returned. *)
Theorem SubAck_Encode_layout :
  forall (msg : message.SubAckMessage.t) (dst : list Z),
    let h := message.SubAckMessage.hdr msg in
    let codes := message.SubAckMessage.returnCodes msg in
    let ml := 2 + len codes in
    let fixed := message.mTypeFlags h :: message.encode_varint ml in
    let size := len fixed + ml in
    message.packetID h <> 0 ->
    ml <= message.maxRemainingLength ->
    size <= len dst ->
    message.SubAckMessage.Encode msg dst
    = Ret (message.SubAckMessage.mk (message.set_remLen ml h) codes,
           fixed ++ [byte (Z.shiftr (message.packetID h) 8); byte (message.packetID h)]
             ++ map byte codes ++ skipn (Z.to_nat size) dst,
           (size, None)).
Proof. exact SubAck_Encode_fits. Qed.

Lemma SubAck_Encode_layout_witness :
  let msg := message.SubAckMessage.mk (message.mkHeader 0 144 9) [0; 128] in
  message.SubAckMessage.Encode msg [7; 7; 7; 7; 7; 7; 7]
  = Ret (message.SubAckMessage.mk (message.set_remLen (2 + len [0; 128])
                                     (message.mkHeader 0 144 9)) [0; 128],
         (144 :: message.encode_varint (2 + len [0; 128]))
           ++ [byte (Z.shiftr 9 8); byte 9] ++ map byte [0; 128]
           ++ skipn (Z.to_nat (len (144 :: message.encode_varint (2 + len [0; 128]))
                               + (2 + len [0; 128]))) [7; 7; 7; 7; 7; 7; 7],
         (len (144 :: message.encode_varint (2 + len [0; 128])) + (2 + len [0; 128]), None)).
Proof.
  cbv zeta.
  apply (SubAck_Encode_layout (message.SubAckMessage.mk (message.mkHeader 0 144 9) [0; 128])
           [7; 7; 7; 7; 7; 7; 7]).
  - discriminate.
  - vm_compute. discriminate.
  - vm_compute. discriminate.
Defined.

(** X13. A SUBACK packet survives the wire: what [SubAckMessage.Encode]
    writes for a message built by [NewSubAckMessage] with a packet identifier
    and return codes, [SubAckMessage.decode] reads back, into any message
    that holds no more return codes, as the same identifier, remaining
    length and codes, with the same byte count; the error of [decode] is
    that of the validation of the codes. *)
Theorem SubAck_Encode_then_decode :
  forall (IsValidFull : message.QosType -> bool)
         (msg msg0 : message.SubAckMessage.t) (dst : list Z),
    let h := message.SubAckMessage.hdr msg in
    let codes := message.SubAckMessage.returnCodes msg in
    message.mTypeFlags h
    = message.mTypeFlags (message.SubAckMessage.hdr message.SubAckMessage.NewSubAckMessage) ->
    0 < message.packetID h < 65536 ->
    Forall (fun c => 0 <= c < 256) codes ->
    2 + len codes <= message.maxRemainingLength ->
    1 + len (message.encode_varint (2 + len codes)) + (2 + len codes) <= len dst ->
    len (message.SubAckMessage.returnCodes msg0) <= len codes ->
    exists msg' out n,
      message.SubAckMessage.Encode msg dst = Ret (msg', out, (n, None)) /\
      msg' = message.SubAckMessage.mk (message.set_remLen (2 + len codes) h) codes /\
      message.SubAckMessage.decode IsValidFull msg0 out
      = Ret (msg', (n, message.SubAckMessage.check_codes IsValidFull codes)).
Proof.
  intros V msg msg0 dst h codes Hty Hid Hbytes Hml Hfit Hold.
  do 3 eexists. split; [|split; [reflexivity|]].
  - apply SubAck_Encode_fits; [fold h; lia|exact Hml|].
    fold h codes. rewrite len_cons. exact Hfit.
  - fold h codes. rewrite (map_byte_id codes Hbytes).
    rewrite (SubAck_decode_packet V msg0); [|rewrite Hty; reflexivity|rewrite Hty; reflexivity
                                            |lia|exact Hml|exact Hold].
    unfold message.set_remLen. reflexivity.
Qed.

Lemma SubAck_Encode_then_decode_witness :
  exists msg' out n,
    message.SubAckMessage.Encode
      (message.SubAckMessage.mk (message.mkHeader 0 144 9) [0; 128]) [7; 7; 7; 7; 7; 7; 7]
    = Ret (msg', out, (n, None)) /\
    msg' = message.SubAckMessage.mk
             (message.set_remLen (2 + len [0; 128]) (message.mkHeader 0 144 9)) [0; 128] /\
    message.SubAckMessage.decode message.QosType_IsValidFull
      message.SubAckMessage.NewSubAckMessage out
    = Ret (msg', (n, message.SubAckMessage.check_codes message.QosType_IsValidFull [0; 128])).
Proof.
  apply (SubAck_Encode_then_decode message.QosType_IsValidFull
           (message.SubAckMessage.mk (message.mkHeader 0 144 9) [0; 128])
           message.SubAckMessage.NewSubAckMessage [7; 7; 7; 7; 7; 7; 7]).
  - reflexivity.
  - simpl. lia.
  - repeat constructor; lia.
  - vm_compute. discriminate.
  - vm_compute. discriminate.
  - vm_compute. discriminate.
Defined.

(** X14. A PUBREL packet survives the wire: for a message built by
    [NewPubRelMessage] with a packet identifier and a buffer of at least
    four bytes, [PubRelMessage.Encode] writes byte 0, the remaining length 2
    and the identifier, high byte first, leaves the rest of the buffer
    untouched and returns 4; [PubRelMessage.decode] reads these bytes back,
    into any message, as the message [Encode] left, with the same count. *)
Theorem PubRel_Encode_then_decode :
  forall (msg msg0 : message.PubRelMessage.t) (dst : list Z),
    let h := message.PubRelMessage.hdr msg in
    message.mTypeFlags h
    = message.mTypeFlags (message.PubRelMessage.hdr message.PubRelMessage.NewPubRelMessage) ->
    0 < message.packetID h < 65536 ->
    4 <= len dst ->
    let msg' := message.PubRelMessage.mk (message.set_remLen 2 h) in
    let out := [message.mTypeFlags h; 2;
                byte (Z.shiftr (message.packetID h) 8); byte (message.packetID h)]
                 ++ skipn 4 dst in
    message.PubRelMessage.Encode msg dst = Ret (msg', out, (4, None)) /\
    message.PubRelMessage.decode msg0 out = Ret (msg', (4, None)).
Proof.
  intros msg msg0 dst h Hty Hid Hlen msg' out. split.
  - apply PubRel_Encode_fits; [fold h; lia|exact Hlen].
  - unfold out. rewrite PubRel_decode_packet;
      [reflexivity|rewrite Hty; reflexivity|rewrite Hty; reflexivity|lia].
Qed.

Lemma PubRel_Encode_then_decode_witness :
  let msg := message.PubRelMessage.SetPacketID 258 message.PubRelMessage.NewPubRelMessage in
  let dst := [9; 9; 9; 9; 9] in
  message.PubRelMessage.Encode msg dst
  = Ret (message.PubRelMessage.mk (message.set_remLen 2 (message.PubRelMessage.hdr msg)),
         [message.mTypeFlags (message.PubRelMessage.hdr msg); 2;
          byte (Z.shiftr (message.packetID (message.PubRelMessage.hdr msg)) 8);
          byte (message.packetID (message.PubRelMessage.hdr msg))] ++ skipn 4 dst,
         (4, None)) /\
  message.PubRelMessage.decode message.PubRelMessage.NewPubRelMessage
    ([message.mTypeFlags (message.PubRelMessage.hdr msg); 2;
      byte (Z.shiftr (message.packetID (message.PubRelMessage.hdr msg)) 8);
      byte (message.packetID (message.PubRelMessage.hdr msg))] ++ skipn 4 dst)
  = Ret (message.PubRelMessage.mk (message.set_remLen 2 (message.PubRelMessage.hdr msg)),
         (4, None)).
Proof.
  cbv zeta.
  apply (PubRel_Encode_then_decode
           (message.PubRelMessage.SetPacketID 258 message.PubRelMessage.NewPubRelMessage)
           message.PubRelMessage.NewPubRelMessage [9; 9; 9; 9; 9]).
  - reflexivity.
  - simpl. lia.
  - vm_compute. discriminate.
Defined.

(** X15. What [UnSubAckMessage.Encode] does around [header.encode],
    whatever that routine is. For a message changed since it was decoded
    (dirty) and a buffer of at least four bytes, [header.encode] is called
    on the whole buffer and on the message with remaining length 2. When it
    returns [n] bytes written and no error, with room for two more bytes,
    [Encode] puts after these [n] bytes the first two bytes of the stored
    packet identifier when it has two, and two zero bytes otherwise (also
    when it has one byte), leaves the rest of the buffer as [header.encode]
    left it and returns [n + 2]. When [header.encode] returns an error,
    [Encode] returns this error with count 0. ([header.encode] writes in
    place: what it leaves has the length of the buffer.) For a message not
    changed since it was decoded, the bytes it was decoded from are copied
    to the front of a buffer that can hold them and their number is
    returned; [header.encode] is not called. *)
Theorem UnSubAck_Encode_layout :
  forall (encode : message.UnSubAckMessage.t -> list Z -> outcome (list Z * message.result))
         (msg : message.UnSubAckMessage.t) (dst : list Z),
    let sized := message.UnSubAckMessage.mk (message.UnSubAckMessage.mtypeflags msg) 2
                   (message.UnSubAckMessage.packetID msg) true
                   (message.UnSubAckMessage.dBuf msg) in
    (forall (s : list Z) (n : Z),
        message.UnSubAckMessage.dirty msg = true -> 4 <= len dst ->
        encode sized dst = Ret (s, (n, None)) ->
        length s = length dst -> 0 <= n -> n + 2 <= len dst ->
        message.UnSubAckMessage.Encode_over encode msg dst
        = Ret (sized,
               firstn (Z.to_nat n) s
                 ++ (if 2 <=? len (message.UnSubAckMessage.packetID msg)
                     then firstn 2 (message.UnSubAckMessage.packetID msg) else [0; 0])
                 ++ skipn (Z.to_nat n + 2) s,
               (n + 2, None))) /\
    (forall (s : list Z) (n : Z) (e : message.error),
        message.UnSubAckMessage.dirty msg = true -> 4 <= len dst ->
        encode sized dst = Ret (s, (n, Some e)) ->
        length s = length dst ->
        message.UnSubAckMessage.Encode_over encode msg dst = Ret (sized, s, (0, Some e))) /\
    (message.UnSubAckMessage.dirty msg = false ->
     len (message.UnSubAckMessage.dBuf msg) <= len dst ->
     message.UnSubAckMessage.Encode_over encode msg dst
     = Ret (msg,
            message.UnSubAckMessage.dBuf msg
              ++ skipn (length (message.UnSubAckMessage.dBuf msg)) dst,
            (len (message.UnSubAckMessage.dBuf msg), None))).
Proof.
  intros encode msg dst sized. split; [|split].
  - intros s n. apply UnSubAck_Encode_over_dirty_fits.
  - intros s n e. apply UnSubAck_Encode_over_dirty_fails.
  - intros Hd Hfit. rewrite UnSubAck_Encode_over_clean by exact Hd.
    now rewrite ltb_len_false by exact Hfit.
Qed.

Lemma UnSubAck_Encode_layout_witness :
  message.UnSubAckMessage.Encode_over message.UnSubAckMessage.header_encode_buf
    (message.UnSubAckMessage.mk 176 0 [7] true []) [9; 9; 9; 9; 9]
  = Ret (message.UnSubAckMessage.mk 176 2 [7] true [],
         firstn (Z.to_nat 2) [176; 2; 9; 9; 9]
           ++ (if 2 <=? len [7] then firstn 2 [7] else [0; 0])
           ++ skipn (Z.to_nat 2 + 2) [176; 2; 9; 9; 9],
         (2 + 2, None)) /\
  message.UnSubAckMessage.Encode_over message.UnSubAckMessage.header_encode_buf
    (message.UnSubAckMessage.mk 0 0 [0; 7] true []) [9; 9; 9; 9; 9]
  = Ret (message.UnSubAckMessage.mk 0 2 [0; 7] true [], [9; 9; 9; 9; 9],
         (0, Some message.ErrInvalidMessageType)) /\
  message.UnSubAckMessage.Encode_over message.UnSubAckMessage.header_encode_buf
    (message.UnSubAckMessage.mk 176 2 [0; 7] false [176; 2; 0; 7]) [9; 9; 9; 9; 9]
  = Ret (message.UnSubAckMessage.mk 176 2 [0; 7] false [176; 2; 0; 7],
         [176; 2; 0; 7] ++ skipn (length [176; 2; 0; 7]) [9; 9; 9; 9; 9],
         (len [176; 2; 0; 7], None)).
Proof.
  split; [|split].
  - apply (proj1 (UnSubAck_Encode_layout message.UnSubAckMessage.header_encode_buf
                    (message.UnSubAckMessage.mk 176 0 [7] true []) [9; 9; 9; 9; 9])
             [176; 2; 9; 9; 9] 2);
      [reflexivity|vm_compute; discriminate|reflexivity|reflexivity|lia
      |vm_compute; discriminate].
  - apply (proj1 (proj2 (UnSubAck_Encode_layout message.UnSubAckMessage.header_encode_buf
                           (message.UnSubAckMessage.mk 0 0 [0; 7] true []) [9; 9; 9; 9; 9]))
             [9; 9; 9; 9; 9] 0 message.ErrInvalidMessageType);
      [reflexivity|vm_compute; discriminate|reflexivity|reflexivity].
  - apply (proj2 (proj2 (UnSubAck_Encode_layout message.UnSubAckMessage.header_encode_buf
                           (message.UnSubAckMessage.mk 176 2 [0; 7] false [176; 2; 0; 7])
                           [9; 9; 9; 9; 9])));
      [reflexivity|vm_compute; discriminate].
Defined.

Section SubscriptionRecords.
Import message bolt types boltdb.

Local Abbreviation subs_key := (bytes_of_string bucketSubscriptions).
Local Abbreviation qos_key := (bytes_of_string "qos").
Local Abbreviation topic_key := (bytes_of_string "topic").

(** The record [Add] writes for a subscription: bolt keeps the two fields
    in key order. *)
Local Abbreviation record t q :=
  (Bucket 0 [(qos_key, Value [byte q]); (topic_key, Value (bytes_of_string t))]).

Lemma itob64_lt (a b : Z) :
  0 <= a < b -> b < 2 ^ 64 -> compare (itob64 a) (itob64 b) = Lt.
Proof. intros Hab Hb. rewrite !itob64_big_endian. now apply big_endian_lt. Qed.

Lemma itob64_gt (a b : Z) :
  0 <= a < b -> b < 2 ^ 64 -> compare (itob64 b) (itob64 a) = Gt.
Proof. intros Hab Hb. now rewrite compare_antisym, itob64_lt. Qed.

Lemma len_itob64 (v : Z) : len (itob64 v) = 8.
Proof. reflexivity. Qed.

Lemma insert_insert (k : bytes) (e1 e2 : entry) (es : list (bytes * entry)) :
  insert k e2 (insert k e1 es) = insert k e2 es.
Proof.
  induction es as [|[k0 e0] es IH]; simpl.
  - now rewrite compare_refl.
  - destruct (compare k k0) eqn:Hc; simpl.
    + now rewrite compare_refl.
    + now rewrite compare_refl.
    + now rewrite Hc, IH.
Qed.

Lemma insert_last (k : bytes) (e : entry) (es : list (bytes * entry)) :
  Forall (fun ke => compare k (fst ke) = Gt) es -> insert k e es = es ++ [(k, e)].
Proof.
  induction 1 as [|[k0 e0] es Hk _ IH]; [reflexivity|]. simpl in *. now rewrite Hk, IH.
Qed.

Lemma seek_above (k : bytes) (es : list (bytes * entry)) :
  Forall (fun ke => compare k (fst ke) = Gt) es -> seek k es = None.
Proof.
  induction 1 as [|[k0 e0] es Hk _ IH]; [reflexivity|]. simpl in *. now rewrite Hk.
Qed.

Lemma seek_app_absent (k : bytes) (pre es : list (bytes * entry)) :
  k ∉ map fst pre -> seek k (pre ++ es) = seek k es.
Proof.
  induction pre as [|[k0 e0] pre IH]; [reflexivity|]. simpl. intros Hn.
  apply not_elem_of_cons in Hn. destruct Hn as [Hne Hn].
  destruct (compare k k0) eqn:Hc; [|now apply IH|now apply IH].
  apply compare_eq in Hc. congruence.
Qed.

Lemma elem_of_map_fst (k : bytes) (es : list (bytes * entry)) :
  k ∈ map fst es -> exists e, (k, e) ∈ es.
Proof.
  induction es as [|[k0 e0] es IH]; cbn; intros Hin.
  - now apply elem_of_nil in Hin.
  - apply elem_of_cons in Hin. destruct Hin as [->|Hin].
    + exists e0. apply elem_of_cons. now left.
    + destruct (IH Hin) as [e He]. exists e. apply elem_of_cons. now right.
Qed.

Lemma Bucket_NextSequence_at (tx : entry) (h : list bytes) s es :
  lookup h tx = Some (Bucket s es) ->
  exists tx',
    Bucket_NextSequence tx (Some h) = Ret (tx', (s + 1, None)) /\
    lookup h tx' = Some (Bucket (s + 1) es).
Proof.
  intros Hh. unfold Bucket_NextSequence. rewrite (deref_lookup _ _ _ _ Hh). bind_step.
  eexists. split; [reflexivity|]. now rewrite (lookup_update_same _ _ _ _ Hh).
Qed.

(** [Put] into a bucket nested in the bucket at [h]. *)
Lemma Bucket_Put_child (tx : entry) (h : list bytes) (k key v : bytes) s es s' es' :
  lookup h tx = Some (Bucket s es) -> seek k es = Some (Bucket s' es') ->
  len key <> 0 -> len key <= MaxKeySize ->
  (forall s2 es2, seek key es' <> Some (Bucket s2 es2)) ->
  exists tx',
    Bucket_Put tx (Some (h ++ [k])) key v = Ret (tx', None) /\
    lookup h tx' = Some (Bucket s (insert k (Bucket s' (insert key (Value v) es')) es)).
Proof.
  intros Hh Hk Hlen Hmax Hfree. unfold Bucket_Put.
  assert (Hc : lookup (h ++ [k]) tx = Some (Bucket s' es')) by now rewrite lookup_snoc, Hh.
  rewrite (deref_lookup _ _ _ _ Hc). bind_step.
  destruct (Z.eqb_spec (len key) 0); [contradiction|].
  destruct (Z.ltb_spec MaxKeySize (len key)); [lia|].
  eexists. split.
  - destruct (seek key es') as [[v0|s2 es2]|] eqn:Hs; [reflexivity| |reflexivity].
    now destruct (Hfree s2 es2).
  - rewrite lookup_update, Hh. cbn [fmap option_fmap option_map update]. now rewrite Hk.
Qed.

(** One turn of the loop of [Add] on a bucket whose keys are below the next
    sequence number. *)
Lemma Add_loop_appends (B : list bytes) (subs : list (string * QosType)) :
  forall (tx : entry) (n : Z) (es : list (bytes * entry)),
    lookup B tx = Some (Bucket n es) ->
    0 <= n -> n + len (map snd subs) < 2 ^ 64 ->
    Forall (fun ke => exists j, 0 <= j <= n /\ fst ke = itob64 j) es ->
    exists tx' es',
      Add_loop (Some B) subs tx = Ret (tx', None) /\
      lookup B tx' = Some (Bucket (n + len (map snd subs)) (es ++ es')) /\
      Forall2 (fun ke tq => snd ke = record (fst tq) (snd tq)) es' subs /\
      Forall (fun ke => exists j, n < j <= n + len (map snd subs) /\ fst ke = itob64 j) es' /\
      NoDup (map fst es').
Proof.
  induction subs as [|[t q] subs IH]; intros tx n es HB Hn Hmax Hkeys.
  - exists tx, []. cbn. rewrite app_nil_r, Z.add_0_r. repeat split; try constructor. exact HB.
  - cbn [map snd] in Hmax. rewrite len_cons in Hmax.
    pose proof (len_nonneg (map snd subs)) as Hl.
    cbn [Add_loop].
    destruct (Bucket_NextSequence_at tx B n es HB) as (tx1 & Hseq & HB1).
    rewrite Hseq. bind_step.
    set (key := itob64 (n + 1)).
    assert (Habove : Forall (fun ke => compare key (fst ke) = Gt) es).
    { eapply Forall_impl; [exact Hkeys|]. intros [k0 e0] (j & Hj & ->). cbn [fst].
      apply itob64_gt; lia. }
    destruct (Bucket_CreateBucket_new tx1 B key (n + 1) es HB1) as (tx2 & Hcb & HB2 & _).
    { discriminate. }
    { now apply seek_above. }
    rewrite Hcb. bind_step.
    destruct (Bucket_Put_child tx2 B key topic_key (bytes_of_string t) _ _ 0 [] HB2)
      as (tx3 & Hp1 & HB3).
    { apply seek_insert. }
    { discriminate. }
    { vm_compute. discriminate. }
    { intros s2 es2. discriminate. }
    rewrite Hp1. bind_step. rewrite insert_insert in HB3.
    edestruct (Bucket_Put_child tx3 B key qos_key [byte q]) as (tx4 & Hp2 & HB4).
    { exact HB3. }
    { apply seek_insert. }
    { discriminate. }
    { vm_compute. discriminate. }
    { intros s2 es2. discriminate. }
    rewrite Hp2. bind_step. rewrite insert_insert in HB4.
    change (insert qos_key (Value [byte q]) (insert topic_key (Value (bytes_of_string t)) []))
      with [(qos_key, Value [byte q]); (topic_key, Value (bytes_of_string t))] in HB4.
    rewrite (insert_last key _ es Habove) in HB4.
    destruct (IH tx4 (n + 1) _ HB4) as (tx' & es' & Hloop & HB' & Hrec & Hk' & Hnd);
      [lia|lia| |].
    { apply Forall_app. split.
      - eapply Forall_impl; [exact Hkeys|]. intros ke (j & Hj & Hke). exists j. split; [lia|exact Hke].
      - constructor; [|constructor]. exists (n + 1). split; [lia|reflexivity]. }
    exists tx', ((key, record t q) :: es'). split; [exact Hloop|]. split; [|split; [|split]].
    + rewrite HB', <- app_assoc. cbn [map snd]. rewrite len_cons. do 2 f_equal. lia.
    + constructor; [reflexivity|exact Hrec].
    + cbn [map snd]. rewrite len_cons. constructor.
      * exists (n + 1). split; [lia|reflexivity].
      * eapply Forall_impl; [exact Hk'|]. intros ke (j & Hj & Hke). exists j. split; [lia|exact Hke].
    + cbn [map fst]. apply NoDup_cons. split; [|exact Hnd].
      intros Hin. apply elem_of_map_fst in Hin. destruct Hin as [e' Hin].
      rewrite Forall_forall in Hk'. destruct (Hk' _ Hin) as (j & Hj & Hke).
      cbn [fst] in Hke.
      assert (Hlt : compare key (itob64 j) = Lt) by (apply itob64_lt; lia).
      rewrite <- Hke, compare_refl in Hlt. discriminate.
Qed.

End SubscriptionRecords.

Section SubscriptionScan.
Import message bolt types boltdb.

Local Abbreviation qos_key := (bytes_of_string "qos").
Local Abbreviation topic_key := (bytes_of_string "topic").
Local Abbreviation record t q :=
  (Bucket 0 [(qos_key, Value [byte q]); (topic_key, Value (bytes_of_string t))]).
Local Abbreviation note res tq := (<[fst tq := byte (snd tq)]> res).

(** The cursor loop of [Get] on the record of one subscription. *)
Lemma Get_entry_record (tx : entry) (B : list bytes) (k : bytes) (v : option bytes)
      (t : string) (q : QosType) (res : gmap string QosType) :
  lookup (B ++ [k]) tx = Some (record t q) ->
  Get_entry tx (Some B) k v res = Ret (<[t := byte q]> res, None).
Proof.
  intros Hk. unfold Get_entry.
  rewrite (Bucket_Bucket_found tx B k _ _ Hk). bind_step.
  unfold Bucket_ForEach, Bucket_Cursor. rewrite (deref_lookup _ _ _ _ Hk). bind_step.
  cbn [map pair_of iterate]. unfold Get_field.
  rewrite !string_of_bytes_of_string. cbn [String.eqb Ascii.eqb Bool.eqb default].
  bind_step. unfold Datatypes.id. rewrite string_of_bytes_of_string. reflexivity.
Qed.

Lemma Get_scan_records (tx : entry) (B : list bytes) (n : Z) (es : list (bytes * entry)) :
  lookup B tx = Some (Bucket n es) ->
  NoDup (map fst es) ->
  forall (suf : list (bytes * entry)) (pre : list (bytes * entry))
         (subs : list (string * QosType)) (res : gmap string QosType),
    es = pre ++ suf ->
    Forall2 (fun ke tq => snd ke = record (fst tq) (snd tq)) suf subs ->
    iterate (Get_entry tx (Some B)) (map pair_of suf) res
    = Ret (foldl (fun res tq => note res tq) res subs, None).
Proof.
  intros HB Hnd suf. induction suf as [|[k e] suf IH]; intros pre subs res Hes Hrec.
  - inversion Hrec; subst. reflexivity.
  - inversion Hrec as [|? [t q] ? subs' He Hrec']; subst. cbn [fst snd] in He. subst e.
    cbn [map pair_of iterate].
    rewrite (Get_entry_record tx B k _ t q).
    + bind_step. cbn [foldl fst snd].
      apply (IH (pre ++ [(k, record t q)])); [now rewrite <- app_assoc|exact Hrec'].
    + rewrite lookup_snoc, HB. rewrite seek_app_absent.
      * cbn [seek]. now rewrite compare_refl.
      * rewrite map_app in Hnd. apply NoDup_app in Hnd. destruct Hnd as (_ & Hdis & _).
        intros Hin. apply (Hdis k Hin). cbn. apply elem_of_cons. now left.
Qed.

(** Noting the subscriptions of a map one after another builds the map. *)
Lemma foldl_note (l : list (string * QosType)) :
  NoDup (map fst l) ->
  forall res : gmap string QosType,
    foldl (fun res tq => note res tq) res l
    = list_to_map (prod_map Datatypes.id byte <$> l) ∪ res.
Proof.
  induction l as [|[t q] l IH]; intros Hnd res.
  - cbn. now rewrite (left_id_L ∅ (∪)).
  - cbn [map fst] in Hnd. apply NoDup_cons in Hnd. destruct Hnd as [Hnotin Hnd].
    cbn [foldl fst snd]. rewrite IH by exact Hnd.
    cbn [fmap list_fmap prod_map list_to_map foldr fst snd Datatypes.id].
    change (foldr (fun p => <[p.1:=p.2]>) ∅ (prod_map Datatypes.id byte <$> l))
      with (list_to_map (M := gmap string QosType) (prod_map Datatypes.id byte <$> l)).
    rewrite <- insert_union_l. symmetry. apply insert_union_r.
    apply not_elem_of_list_to_map. rewrite <- list_fmap_compose.
    intros Hin. apply Hnotin.
    replace (map fst l) with ((fst ∘ prod_map Datatypes.id byte) <$> l); [exact Hin|].
    clear. induction l as [|[t0 q0] l IH]; [reflexivity|]. cbn. now rewrite <- IH.
Qed.

End SubscriptionScan.

Section SubscriptionRoundTrip.
Import message bolt types boltdb.

Local Abbreviation subs_key := (bytes_of_string bucketSubscriptions).
Local Abbreviation record t q :=
  (Bucket 0 [(bytes_of_string "qos", Value [byte q]);
             (bytes_of_string "topic", Value (bytes_of_string t))]).
Local Abbreviation note res tq := (<[fst tq := byte (snd tq)]> res).
Local Abbreviation subs_path id := [sessions_key; bytes_of_string id; subs_key].

Lemma len_map_to_list (subs : gmap string QosType) :
  len (map snd (map_to_list subs)) = Z.of_nat (size subs).
Proof. unfold len. now rewrite length_map, length_map_to_list. Qed.

(** [Add] on a session without subscriptions. *)
Lemma Add_fresh (st : dbStatus) (tx : entry) (id : string) s es
      (subs : gmap string QosType) :
  done st = false -> db st = Some tx ->
  lookup [sessions_key; bytes_of_string id] tx = Some (Bucket s es) ->
  seek subs_key es = None ->
  Z.of_nat (size subs) < 2 ^ 64 ->
  exists tx' es',
    subscriptions_Add (mkSubscriptions id) subs st = Ret (mkStatus (Some tx') false, None) /\
    lookup (subs_path id) tx' = Some (Bucket (Z.of_nat (size subs)) es') /\
    Forall2 (fun ke tq => snd ke = record (fst tq) (snd tq)) es' (map_to_list subs) /\
    Forall (fun ke => exists j, 0 <= j <= Z.of_nat (size subs) /\ fst ke = itob64 j) es' /\
    NoDup (map fst es').
Proof.
  intros Hd Hdb Hses Hfree Hsize.
  set (P := [sessions_key; bytes_of_string id]) in *.
  destruct (Bucket_CreateBucketIfNotExists_new tx P subs_key s es Hses) as (tx1 & Hc & _ & HB1).
  { discriminate. }
  { exact Hfree. }
  pose proof (len_map_to_list subs) as Hlen.
  destruct (Add_loop_appends (P ++ [subs_key]) (map_to_list subs) tx1 0 [] HB1)
    as (tx' & es' & Hloop & HB' & Hrec & Hkeys & Hnd);
    [lia|unfold QosType in *; lia|constructor|].
  cbn [app] in HB'. unfold QosType in *. rewrite Hlen in HB', Hkeys.
  exists tx', es'. split; [|split; [exact HB'|split; [exact Hrec|split; [|exact Hnd]]]].
  - unfold subscriptions_Add, DB_Update. rewrite Hd, Hdb. cbn [subs_id].
    rewrite (with_session_found tx id _ _ s es Hses). fold P. rewrite Hc. bind_step.
    unfold QosType in *. rewrite Hloop. reflexivity.
  - eapply Forall_impl; [exact Hkeys|]. intros ke (j & Hj & Hke). exists j. split; [lia|exact Hke].
Qed.

(** [Add] on a session that has subscriptions: the records are kept and the
    new ones come after them. *)
Lemma Add_more (st : dbStatus) (tx : entry) (id : string) n es
      (subs : gmap string QosType) :
  done st = false -> db st = Some tx ->
  lookup (subs_path id) tx = Some (Bucket n es) ->
  0 <= n -> n + Z.of_nat (size subs) < 2 ^ 64 ->
  Forall (fun ke => exists j, 0 <= j <= n /\ fst ke = itob64 j) es ->
  exists tx' es',
    subscriptions_Add (mkSubscriptions id) subs st = Ret (mkStatus (Some tx') false, None) /\
    lookup (subs_path id) tx' = Some (Bucket (n + Z.of_nat (size subs)) (es ++ es')) /\
    Forall2 (fun ke tq => snd ke = record (fst tq) (snd tq)) es' (map_to_list subs) /\
    Forall (fun ke => exists j, n < j <= n + Z.of_nat (size subs) /\ fst ke = itob64 j) es' /\
    NoDup (map fst es').
Proof.
  intros Hd Hdb HB Hn Hsize Hkeys.
  set (P := [sessions_key; bytes_of_string id]) in *.
  change (subs_path id) with (P ++ [subs_key]) in *.
  destruct (lookup_bucket_prefix P subs_key [] tx _ HB) as (s & es0 & Hses).
  pose proof (len_map_to_list subs) as Hlen.
  destruct (Add_loop_appends (P ++ [subs_key]) (map_to_list subs) tx n es HB)
    as (tx' & es' & Hloop & HB' & Hrec & Hk' & Hnd);
    [lia|unfold QosType in *; lia|exact Hkeys|].
  unfold QosType in *. rewrite Hlen in HB', Hk'.
  exists tx', es'. split; [|split; [exact HB'|split; [exact Hrec|split; [exact Hk'|exact Hnd]]]].
  unfold subscriptions_Add, DB_Update. rewrite Hd, Hdb. cbn [subs_id].
  rewrite (with_session_found tx id _ _ s es0 Hses). fold P.
  rewrite (Bucket_CreateBucketIfNotExists_exists tx P subs_key _ _ HB) by discriminate.
  bind_step. unfold QosType in *. rewrite Hloop. reflexivity.
Qed.

(** [Get] on a session whose subscriptions are the records of [l]: the
    topics are noted in the order of the records. *)
Lemma Get_of_records (st : dbStatus) (tx : entry) (id : string) n es
      (l : list (string * QosType)) :
  done st = false -> db st = Some tx ->
  lookup (subs_path id) tx = Some (Bucket n es) ->
  NoDup (map fst es) ->
  Forall2 (fun ke tq => snd ke = record (fst tq) (snd tq)) es l ->
  subscriptions_Get (mkSubscriptions id) st
  = Ret (st, (Some (foldl (fun res tq => note res tq) ∅ l), None)).
Proof.
  intros Hd Hdb HB Hnd Hrec.
  set (P := [sessions_key; bytes_of_string id]) in *.
  change (subs_path id) with (P ++ [subs_key]) in *.
  destruct (lookup_bucket_prefix P subs_key [] tx _ HB) as (s & es0 & Hses).
  unfold subscriptions_Get, DB_View. rewrite Hd, Hdb. cbn [subs_id].
  rewrite (with_session_found tx id _ _ s es0 Hses). fold P.
  rewrite (Bucket_Bucket_found tx P subs_key _ _ HB). bind_step.
  rewrite nested_scan_is_single_scan. unfold Get_scan, Bucket_Cursor.
  rewrite (deref_lookup _ _ _ _ HB). bind_step.
  rewrite (Get_scan_records tx (P ++ [subs_key]) _ es HB Hnd es [] l ∅ eq_refl Hrec).
  reflexivity.
Qed.

Lemma note_all (subs : gmap string QosType) (res : gmap string QosType) :
  foldl (fun res tq => note res tq) res (map_to_list subs) = (byte <$> subs) ∪ res.
Proof.
  rewrite foldl_note by apply NoDup_fst_map_to_list.
  now rewrite list_to_map_fmap, list_to_map_to_list.
Qed.

Lemma keys_apart (es1 es2 : list (bytes * entry)) (n m : Z) :
  0 <= n -> m < 2 ^ 64 ->
  Forall (fun ke => exists j, 0 <= j <= n /\ fst ke = itob64 j) es1 ->
  Forall (fun ke => exists j, n < j <= m /\ fst ke = itob64 j) es2 ->
  NoDup (map fst es1) -> NoDup (map fst es2) ->
  NoDup (map fst (es1 ++ es2)).
Proof.
  intros Hn Hm H1 H2 Hnd1 Hnd2. rewrite map_app. apply NoDup_app.
  split; [exact Hnd1|]. split; [|exact Hnd2].
  intros k Hin1 Hin2.
  apply elem_of_map_fst in Hin1. destruct Hin1 as [e1 Hin1].
  apply elem_of_map_fst in Hin2. destruct Hin2 as [e2 Hin2].
  rewrite Forall_forall in H1, H2.
  destruct (H1 _ Hin1) as (j1 & Hj1 & Hk1). destruct (H2 _ Hin2) as (j2 & Hj2 & Hk2).
  cbn [fst] in Hk1, Hk2.
  assert (Hlt : compare (itob64 j1) (itob64 j2) = Lt) by (apply itob64_lt; lia).
  rewrite <- Hk1, <- Hk2, compare_refl in Hlt. discriminate.
Qed.

End SubscriptionRoundTrip.

(** X18. Subscriptions survive the store: on an open store with a session
    that has no subscriptions yet, [subscriptions.Add] of a topic map
    succeeds and the [subscriptions.Get] that follows returns the same
    topics, each with the QoS that was added, cut to a byte. *)
Theorem subscriptions_Add_then_Get :
  forall (st : boltdb.dbStatus) (tx : bolt.entry) (id : string) s es
         (subs : gmap string message.QosType),
    boltdb.done st = false ->
    boltdb.db st = Some tx ->
    bolt.lookup [bolt.bytes_of_string boltdb.bucketSessions; bolt.bytes_of_string id] tx
    = Some (bolt.Bucket s es) ->
    bolt.seek (bolt.bytes_of_string boltdb.bucketSubscriptions) es = None ->
    Z.of_nat (size subs) < 2 ^ 64 ->
    exists st',
      boltdb.subscriptions_Add (boltdb.mkSubscriptions id) subs st = Ret (st', None) /\
      boltdb.subscriptions_Get (boltdb.mkSubscriptions id) st'
      = Ret (st', (Some (byte <$> subs), None)).
Proof.
  intros st tx id s es subs Hd Hdb Hses Hfree Hsize.
  destruct (Add_fresh st tx id s es subs Hd Hdb Hses Hfree Hsize)
    as (tx' & es' & HA & HB & Hrec & _ & Hnd).
  eexists. split; [exact HA|].
  rewrite (Get_of_records (boltdb.mkStatus (Some tx') false) tx' id _ es' (map_to_list subs) eq_refl eq_refl HB Hnd Hrec).
  now rewrite note_all, (right_id_L ∅ (∪)).
Qed.

Lemma subscriptions_Add_then_Get_witness :
  let tx :=
    bolt.Bucket 0 [(bolt.bytes_of_string "sessions",
      bolt.Bucket 0 [(bolt.bytes_of_string "c1", bolt.Bucket 0 [])])] in
  let subs : gmap string message.QosType := {[ "a/b" := 1; "c" := 2 ]} in
  exists st',
    boltdb.subscriptions_Add (boltdb.mkSubscriptions "c1") subs (boltdb.NewBoltDB tx)
    = Ret (st', None) /\
    boltdb.subscriptions_Get (boltdb.mkSubscriptions "c1") st'
    = Ret (st', (Some (byte <$> subs), None)).
Proof.
  cbv zeta.
  apply (subscriptions_Add_then_Get
           (boltdb.NewBoltDB
              (bolt.Bucket 0 [(bolt.bytes_of_string "sessions",
                 bolt.Bucket 0 [(bolt.bytes_of_string "c1", bolt.Bucket 0 [])])]))
           (bolt.Bucket 0 [(bolt.bytes_of_string "sessions",
              bolt.Bucket 0 [(bolt.bytes_of_string "c1", bolt.Bucket 0 [])])])
           "c1" 0 [] {[ "a/b" := 1; "c" := 2 ]}).
  - reflexivity.
  - reflexivity.
  - reflexivity.
  - reflexivity.
  - vm_compute. reflexivity.
Defined.

(** X19. [subscriptions.Add] only ever appends: a second [Add] keeps the
    records of the first and writes its own after them, also for a topic
    that is already stored, which then has two records; the [Get] that
    follows answers with the topics of both calls and, for a topic in both,
    with the QoS of the second. *)
Theorem subscriptions_Add_twice_then_Get :
  forall (st : boltdb.dbStatus) (tx : bolt.entry) (id : string) s es
         (subs1 subs2 : gmap string message.QosType),
    boltdb.done st = false ->
    boltdb.db st = Some tx ->
    bolt.lookup [bolt.bytes_of_string boltdb.bucketSessions; bolt.bytes_of_string id] tx
    = Some (bolt.Bucket s es) ->
    bolt.seek (bolt.bytes_of_string boltdb.bucketSubscriptions) es = None ->
    Z.of_nat (size subs1) + Z.of_nat (size subs2) < 2 ^ 64 ->
    exists st1 st2 tx2 records,
      boltdb.subscriptions_Add (boltdb.mkSubscriptions id) subs1 st = Ret (st1, None) /\
      boltdb.subscriptions_Add (boltdb.mkSubscriptions id) subs2 st1 = Ret (st2, None) /\
      boltdb.db st2 = Some tx2 /\
      bolt.lookup [bolt.bytes_of_string boltdb.bucketSessions; bolt.bytes_of_string id;
                   bolt.bytes_of_string boltdb.bucketSubscriptions] tx2
      = Some (bolt.Bucket (Z.of_nat (size subs1) + Z.of_nat (size subs2)) records) /\
      length records = (size subs1 + size subs2)%nat /\
      boltdb.subscriptions_Get (boltdb.mkSubscriptions id) st2
      = Ret (st2, (Some ((byte <$> subs2) ∪ (byte <$> subs1)), None)).
Proof.
  intros st tx id s es subs1 subs2 Hd Hdb Hses Hfree Hsize.
  destruct (Add_fresh st tx id s es subs1 Hd Hdb Hses Hfree)
    as (tx1 & es1 & HA1 & HB1 & Hrec1 & Hk1 & Hnd1); [lia|].
  destruct (Add_more (boltdb.mkStatus (Some tx1) false) tx1 id _ es1 subs2 eq_refl eq_refl HB1)
    as (tx2 & es2 & HA2 & HB2 & Hrec2 & Hk2 & Hnd2); [lia|lia|exact Hk1|].
  exists (boltdb.mkStatus (Some tx1) false), (boltdb.mkStatus (Some tx2) false), tx2, (es1 ++ es2).
  split; [exact HA1|]. split; [exact HA2|]. split; [reflexivity|]. split; [exact HB2|].
  split.
  - rewrite length_app, (Forall2_length _ _ _ Hrec1), (Forall2_length _ _ _ Hrec2).
    now rewrite !length_map_to_list.
  - rewrite (Get_of_records (boltdb.mkStatus (Some tx2) false) tx2 id _ (es1 ++ es2) (map_to_list subs1 ++ map_to_list subs2)
               eq_refl eq_refl HB2).
    + now rewrite foldl_app, !note_all, (right_id_L ∅ (∪)).
    + apply (keys_apart es1 es2 (Z.of_nat (size subs1))
               (Z.of_nat (size subs1) + Z.of_nat (size subs2))); try assumption; lia.
    + now apply Forall2_app.
Qed.

Lemma subscriptions_Add_twice_then_Get_witness :
  let tx :=
    bolt.Bucket 0 [(bolt.bytes_of_string "sessions",
      bolt.Bucket 0 [(bolt.bytes_of_string "c1", bolt.Bucket 0 [])])] in
  let subs1 : gmap string message.QosType := {[ "a/b" := 1; "c" := 2 ]} in
  let subs2 : gmap string message.QosType := {[ "c" := 0 ]} in
  exists st1 st2 tx2 records,
    boltdb.subscriptions_Add (boltdb.mkSubscriptions "c1") subs1 (boltdb.NewBoltDB tx)
    = Ret (st1, None) /\
    boltdb.subscriptions_Add (boltdb.mkSubscriptions "c1") subs2 st1 = Ret (st2, None) /\
    boltdb.db st2 = Some tx2 /\
    bolt.lookup [bolt.bytes_of_string boltdb.bucketSessions; bolt.bytes_of_string "c1";
                 bolt.bytes_of_string boltdb.bucketSubscriptions] tx2
    = Some (bolt.Bucket (Z.of_nat (size subs1) + Z.of_nat (size subs2)) records) /\
    length records = (size subs1 + size subs2)%nat /\
    boltdb.subscriptions_Get (boltdb.mkSubscriptions "c1") st2
    = Ret (st2, (Some ((byte <$> subs2) ∪ (byte <$> subs1)), None)).
Proof.
  cbv zeta.
  apply (subscriptions_Add_twice_then_Get
           (boltdb.NewBoltDB
              (bolt.Bucket 0 [(bolt.bytes_of_string "sessions",
                 bolt.Bucket 0 [(bolt.bytes_of_string "c1", bolt.Bucket 0 [])])]))
           (bolt.Bucket 0 [(bolt.bytes_of_string "sessions",
              bolt.Bucket 0 [(bolt.bytes_of_string "c1", bolt.Bucket 0 [])])])
           "c1" 0 [] {[ "a/b" := 1; "c" := 2 ]} {[ "c" := 0 ]}).
  - reflexivity.
  - reflexivity.
  - reflexivity.
  - reflexivity.
  - vm_compute. reflexivity.
Defined.

Section MissingSession.
Import message bolt types boltdb.

(** What [sessions.Get] tells about the store when it answers. *)
Lemma sessions_Get_open (id : string) (st st' : dbStatus) r e :
  sessions_Get id st = Ret (st', (r, e)) -> e <> Some ErrNotOpen ->
  done st = false /\ exists tx, db st = Some tx.
Proof.
  unfold sessions_Get, DB_View. destruct (done st).
  - intros H He. inversion H; subst. now destruct He.
  - destruct (db st) as [tx|]; [|discriminate]. intros _ _. split; [reflexivity|eauto].
Qed.

(** The lookup every operation on the state of a session starts with fails
    where [sessions.Get] does not find the session. *)
Lemma with_session_of_Get {R : Type} (st : dbStatus) (tx : entry) (id : string)
      (fail : option error -> outcome R) (k : option handle -> outcome R) :
  done st = false -> db st = Some tx ->
  sessions_Get id st = Ret (st, (None, Some ErrNotFound)) ->
  with_session tx id fail k = fail (Some ErrNotFound).
Proof.
  intros Hd Hdb. unfold sessions_Get, DB_View, with_session. rewrite Hd, Hdb.
  destruct (Bucket_Bucket tx root _) as [[h|]|]; bind_step; [|reflexivity|discriminate].
  destruct (Bucket_Bucket tx (Some h) _) as [[h'|]|]; bind_step;
    [discriminate|reflexivity|discriminate].
Qed.

End MissingSession.

(** X20. The objects of a session outlive it: where [sessions.Get] does not
    find the session, every operation on its subscriptions and on its
    messages returns [ErrNotFound] and leaves the store as it is; [Load]
    hands out an empty, non-nil message set with the error, [Get] a nil
    map. *)
Theorem calls_on_missing_session_return_ErrNotFound :
  forall (st : boltdb.dbStatus) (id : string),
    boltdb.sessions_Get id st = Ret (st, (None, Some types.ErrNotFound)) ->
    (forall subs, boltdb.subscriptions_Add (boltdb.mkSubscriptions id) subs st
                  = Ret (st, Some types.ErrNotFound)) /\
    boltdb.subscriptions_Get (boltdb.mkSubscriptions id) st
    = Ret (st, (None, Some types.ErrNotFound)) /\
    boltdb.subscriptions_Delete (boltdb.mkSubscriptions id) st
    = Ret (st, Some types.ErrNotFound) /\
    (forall dir msg, boltdb.messages_Store (boltdb.mkMessages id) dir msg st
                     = Ret (st, Some types.ErrNotFound)) /\
    boltdb.messages_Load (boltdb.mkMessages id) st
    = Ret (st, (Some (types.mkSessionMessages [] []), Some types.ErrNotFound)) /\
    boltdb.messages_Delete (boltdb.mkMessages id) st
    = Ret (st, Some types.ErrNotFound).
Proof.
  intros st id HG.
  destruct (sessions_Get_open id st st _ _ HG) as (Hd & tx & Hdb); [discriminate|].
  repeat split; intros;
    unfold boltdb.subscriptions_Add, boltdb.subscriptions_Get, boltdb.subscriptions_Delete,
      boltdb.messages_Store, boltdb.messages_Load, boltdb.messages_Delete,
      boltdb.DB_Update, boltdb.DB_View;
    rewrite Hd, Hdb; cbn [boltdb.subs_id boltdb.msgs_id];
    rewrite (with_session_of_Get st tx id _ _ Hd Hdb HG); reflexivity.
Qed.

Lemma calls_on_missing_session_return_ErrNotFound_witness :
  let st := boltdb.NewBoltDB
              (bolt.Bucket 0 [(bolt.bytes_of_string "sessions",
                 bolt.Bucket 0 [(bolt.bytes_of_string "c1", bolt.Bucket 0 [])])]) in
  (forall subs, boltdb.subscriptions_Add (boltdb.mkSubscriptions "c2") subs st
                = Ret (st, Some types.ErrNotFound)) /\
  boltdb.subscriptions_Get (boltdb.mkSubscriptions "c2") st
  = Ret (st, (None, Some types.ErrNotFound)) /\
  boltdb.subscriptions_Delete (boltdb.mkSubscriptions "c2") st
  = Ret (st, Some types.ErrNotFound) /\
  (forall dir msg, boltdb.messages_Store (boltdb.mkMessages "c2") dir msg st
                   = Ret (st, Some types.ErrNotFound)) /\
  boltdb.messages_Load (boltdb.mkMessages "c2") st
  = Ret (st, (Some (types.mkSessionMessages [] []), Some types.ErrNotFound)) /\
  boltdb.messages_Delete (boltdb.mkMessages "c2") st
  = Ret (st, Some types.ErrNotFound).
Proof.
  cbv zeta.
  apply (calls_on_missing_session_return_ErrNotFound
           (boltdb.NewBoltDB
              (bolt.Bucket 0 [(bolt.bytes_of_string "sessions",
                 bolt.Bucket 0 [(bolt.bytes_of_string "c1", bolt.Bucket 0 [])])])) "c2").
  reflexivity.
Defined.

Section StateDelete.
Import message bolt types boltdb.

Local Abbreviation subs_key := (bytes_of_string bucketSubscriptions).
Local Abbreviation msgs_key := (bytes_of_string bucketMessages).

Lemma seek_remove_ne (k k' : bytes) (es : list (bytes * entry)) :
  k' <> k -> seek k' (remove k es) = seek k' es.
Proof.
  intros Hne. induction es as [|[k0 e0] es IH]; [reflexivity|]. simpl.
  destruct (compare k k0) eqn:Hk; simpl.
  - apply compare_eq in Hk. subst k0.
    destruct (compare k' k) eqn:Hk'; [|reflexivity|reflexivity].
    apply compare_eq in Hk'. congruence.
  - now rewrite IH.
  - now rewrite IH.
Qed.

Lemma remove_keys_sub (k : bytes) (es : list (bytes * entry)) (x : bytes) :
  x ∈ map fst (remove k es) -> x ∈ map fst es.
Proof.
  induction es as [|[k0 e0] es IH]; [easy|]. simpl.
  destruct (compare k k0); simpl; rewrite ?elem_of_cons; intuition.
Qed.

Lemma NoDup_remove (k : bytes) (es : list (bytes * entry)) :
  NoDup (map fst es) -> NoDup (map fst (remove k es)).
Proof.
  induction es as [|[k0 e0] es IH]; [easy|]. simpl. intros Hnd.
  apply NoDup_cons in Hnd. destruct Hnd as [Hnotin Hnd].
  destruct (compare k k0); simpl; [exact Hnd| |];
    (apply NoDup_cons; split; [|now apply IH]);
    intros Hin; apply Hnotin; now apply (remove_keys_sub k).
Qed.

(** [Delete] of a bucket [k] of a session, in its transaction. *)
Lemma state_DeleteBucket_found (st : dbStatus) (tx : entry) (id : string) (k : bytes)
      s es n r :
  done st = false -> db st = Some tx ->
  lookup [sessions_key; bytes_of_string id] tx = Some (Bucket s es) ->
  seek k es = Some (Bucket n r) ->
  exists tx',
    DB_Update st (fun tx =>
      with_session tx id (fun e => Ret (tx, e)) (fun sBucket =>
        '(tx, err) ← Bucket_DeleteBucket tx sBucket k;
        Ret (tx, as_error err)))
    = Ret (mkStatus (Some tx') false, None) /\
    lookup [sessions_key; bytes_of_string id] tx' = Some (Bucket s (remove k es)).
Proof.
  intros Hd Hdb Hses Hk.
  destruct (Bucket_DeleteBucket_found tx _ k s es n r Hses Hk) as (tx' & Hdel & Hses').
  exists tx'. split; [|exact Hses'].
  unfold DB_Update. rewrite Hdb, Hd.
  rewrite (with_session_found tx id _ _ s es Hses), Hdel. reflexivity.
Qed.

Lemma state_DeleteBucket_missing (st : dbStatus) (tx : entry) (id : string) (k : bytes)
      s es :
  db st = Some tx ->
  lookup [sessions_key; bytes_of_string id] tx = Some (Bucket s es) ->
  seek k es = None ->
  DB_Update st (fun tx =>
    with_session tx id (fun e => Ret (tx, e)) (fun sBucket =>
      '(tx, err) ← Bucket_DeleteBucket tx sBucket k;
      Ret (tx, as_error err)))
  = Ret (st, Some (BoltError ErrBucketNotFound)).
Proof.
  intros Hdb Hses Hk. unfold DB_Update. rewrite Hdb.
  rewrite (with_session_found tx id _ _ s es Hses).
  rewrite (Bucket_DeleteBucket_missing tx _ k s es Hses Hk). reflexivity.
Qed.

End StateDelete.

Local Abbreviation subscriptions_key := (bolt.bytes_of_string boltdb.bucketSubscriptions).
Local Abbreviation messages_key := (bolt.bytes_of_string boltdb.bucketMessages).

(** X21. Deleting the subscriptions and the messages of a session that has
    both removes them and keeps the session: [Get] and [Load] then return
    [ErrNotFound]. A second [Delete] of either fails with bolt's own
    [ErrBucketNotFound], which these two operations hand out as it is,
    where [sessions.Delete] and [retained.Delete] answer [ErrNotFound]. *)
Theorem state_Delete_then_Get_and_Delete :
  forall (st : boltdb.dbStatus) (tx : bolt.entry) (id : string) s es n1 r1 n2 r2,
    boltdb.done st = false ->
    boltdb.db st = Some tx ->
    bolt.lookup [bolt.bytes_of_string boltdb.bucketSessions; bolt.bytes_of_string id] tx
    = Some (bolt.Bucket s es) ->
    NoDup (map fst es) ->
    bolt.seek (bolt.bytes_of_string boltdb.bucketSubscriptions) es = Some (bolt.Bucket n1 r1) ->
    bolt.seek (bolt.bytes_of_string boltdb.bucketMessages) es = Some (bolt.Bucket n2 r2) ->
    exists st1 st2,
      boltdb.subscriptions_Delete (boltdb.mkSubscriptions id) st = Ret (st1, None) /\
      boltdb.messages_Delete (boltdb.mkMessages id) st1 = Ret (st2, None) /\
      boltdb.sessions_Get id st2 = Ret (st2, (Some (boltdb.newSession id), None)) /\
      boltdb.subscriptions_Get (boltdb.mkSubscriptions id) st2
      = Ret (st2, (None, Some types.ErrNotFound)) /\
      boltdb.messages_Load (boltdb.mkMessages id) st2
      = Ret (st2, (Some (types.mkSessionMessages [] []), Some types.ErrNotFound)) /\
      boltdb.subscriptions_Delete (boltdb.mkSubscriptions id) st2
      = Ret (st2, Some (types.BoltError bolt.ErrBucketNotFound)) /\
      boltdb.messages_Delete (boltdb.mkMessages id) st2
      = Ret (st2, Some (types.BoltError bolt.ErrBucketNotFound)).
Proof.
  intros st tx id s es n1 r1 n2 r2 Hd Hdb Hses Hnd Hsubs Hmsgs.
  destruct (state_DeleteBucket_found st tx id subscriptions_key s es n1 r1 Hd Hdb Hses Hsubs)
    as (tx1 & HD1 & Hses1).
  assert (Hmsgs1 : bolt.seek messages_key (bolt.remove subscriptions_key es) = Some (bolt.Bucket n2 r2)).
  { rewrite seek_remove_ne; [exact Hmsgs|discriminate]. }
  destruct (state_DeleteBucket_found (boltdb.mkStatus (Some tx1) false) tx1 id messages_key s _ n2 r2
              eq_refl eq_refl Hses1 Hmsgs1) as (tx2 & HD2 & Hses2).
  assert (Hs2 : bolt.seek subscriptions_key (bolt.remove messages_key (bolt.remove subscriptions_key es)) = None).
  { rewrite seek_remove_ne by discriminate. now apply seek_remove. }
  assert (Hm2 : bolt.seek messages_key (bolt.remove messages_key (bolt.remove subscriptions_key es)) = None).
  { apply seek_remove. now apply NoDup_remove. }
  exists (boltdb.mkStatus (Some tx1) false), (boltdb.mkStatus (Some tx2) false).
  split; [|split; [|split; [|split; [|split; [|split]]]]].
  - unfold boltdb.subscriptions_Delete. rewrite Hd. exact HD1.
  - exact HD2.
  - now apply (sessions_Get_found id _ tx2 s (bolt.remove messages_key (bolt.remove subscriptions_key es))).
  - unfold boltdb.subscriptions_Get, boltdb.DB_View.
    cbn [boltdb.done boltdb.db boltdb.subs_id].
    rewrite (with_session_found tx2 id _ _ _ _ Hses2).
    rewrite (Bucket_Bucket_missing tx2 _ subscriptions_key _ _ Hses2); [reflexivity|].
    now rewrite lookup_snoc, Hses2.
  - unfold boltdb.messages_Load, boltdb.DB_View.
    cbn [boltdb.done boltdb.db boltdb.msgs_id].
    rewrite (with_session_found tx2 id _ _ _ _ Hses2).
    rewrite (Bucket_Bucket_missing tx2 _ messages_key _ _ Hses2); [reflexivity|].
    now rewrite lookup_snoc, Hses2.
  - unfold boltdb.subscriptions_Delete. cbn [boltdb.done boltdb.subs_id].
    now apply (state_DeleteBucket_missing (boltdb.mkStatus (Some tx2) false) tx2 id subscriptions_key s _ eq_refl Hses2).
  - unfold boltdb.messages_Delete. cbn [boltdb.done boltdb.msgs_id].
    now apply (state_DeleteBucket_missing (boltdb.mkStatus (Some tx2) false) tx2 id messages_key s _ eq_refl Hses2).
Qed.

Lemma state_Delete_then_Get_and_Delete_witness :
  let tx :=
    bolt.Bucket 0 [(bolt.bytes_of_string "sessions",
      bolt.Bucket 0 [(bolt.bytes_of_string "c1",
        bolt.Bucket 0 [(bolt.bytes_of_string "messages", bolt.Bucket 0 []);
                       (bolt.bytes_of_string "subscriptions", bolt.Bucket 0 [])])])] in
  exists st1 st2,
    boltdb.subscriptions_Delete (boltdb.mkSubscriptions "c1") (boltdb.NewBoltDB tx)
    = Ret (st1, None) /\
    boltdb.messages_Delete (boltdb.mkMessages "c1") st1 = Ret (st2, None) /\
    boltdb.sessions_Get "c1" st2 = Ret (st2, (Some (boltdb.newSession "c1"), None)) /\
    boltdb.subscriptions_Get (boltdb.mkSubscriptions "c1") st2
    = Ret (st2, (None, Some types.ErrNotFound)) /\
    boltdb.messages_Load (boltdb.mkMessages "c1") st2
    = Ret (st2, (Some (types.mkSessionMessages [] []), Some types.ErrNotFound)) /\
    boltdb.subscriptions_Delete (boltdb.mkSubscriptions "c1") st2
    = Ret (st2, Some (types.BoltError bolt.ErrBucketNotFound)) /\
    boltdb.messages_Delete (boltdb.mkMessages "c1") st2
    = Ret (st2, Some (types.BoltError bolt.ErrBucketNotFound)).
Proof.
  cbv zeta.
  eapply (state_Delete_then_Get_and_Delete (boltdb.NewBoltDB _) _ "c1").
  - reflexivity.
  - reflexivity.
  - reflexivity.
  - apply NoDup_cons. split; [|apply NoDup_singleton].
    intros Hin. apply list_elem_of_singleton in Hin. discriminate.
  - reflexivity.
  - reflexivity.
Defined.

Local Abbreviation retained_key := (bolt.bytes_of_string boltdb.bucketRetained).

(** X22. [retained.Delete] removes the retained messages for good: on an
    open store that holds some, it succeeds, the [Load] that follows returns
    no message and [ErrNotFound], and a second [Delete] returns
    [ErrNotFound], bolt's [ErrBucketNotFound] translated, and changes
    nothing. *)
Theorem retained_Delete_then_Load_and_Delete :
  forall (st : boltdb.dbStatus) sq es n r,
    boltdb.done st = false ->
    boltdb.db st = Some (bolt.Bucket sq es) ->
    NoDup (map fst es) ->
    bolt.seek (bolt.bytes_of_string boltdb.bucketRetained) es = Some (bolt.Bucket n r) ->
    exists st',
      boltdb.retained_Delete st = Ret (st', None) /\
      boltdb.retained_Load st' = Ret (st', ([], Some types.ErrNotFound)) /\
      boltdb.retained_Delete st' = Ret (st', Some types.ErrNotFound).
Proof.
  intros st sq es n r Hd Hdb Hnd Hret.
  assert (Hroot : bolt.lookup [] (bolt.Bucket sq es) = Some (bolt.Bucket sq es)) by reflexivity.
  destruct (Bucket_DeleteBucket_found _ [] retained_key sq es n r Hroot Hret)
    as (tx' & Hdel & Hroot').
  cbn [bolt.lookup] in Hroot'. inversion Hroot' as [Htx']. clear Hroot'.
  assert (Hgone : bolt.seek retained_key (bolt.remove retained_key es) = None)
    by now apply seek_remove.
  exists (boltdb.mkStatus (Some (bolt.Bucket sq (bolt.remove retained_key es))) false).
  split; [|split].
  - unfold boltdb.retained_Delete, boltdb.DB_Update, bolt.root. rewrite Hd, Hdb, Hdel.
    bind_step. now rewrite Htx'.
  - unfold boltdb.retained_Load, boltdb.DB_View, bolt.root. cbn [boltdb.done boltdb.db].
    rewrite (Bucket_Bucket_missing _ [] retained_key sq _ eq_refl); [reflexivity|].
    cbn [app bolt.lookup]. now rewrite Hgone.
  - unfold boltdb.retained_Delete, boltdb.DB_Update, bolt.root. cbn [boltdb.done boltdb.db].
    rewrite (Bucket_DeleteBucket_missing _ [] retained_key sq _ eq_refl Hgone). reflexivity.
Qed.

Lemma retained_Delete_then_Load_and_Delete_witness :
  let st := boltdb.NewBoltDB
              (bolt.Bucket 0 [(bolt.bytes_of_string "retained",
                 bolt.Bucket 1 [(boltdb.itob64 1,
                   bolt.Bucket 0 [(bolt.bytes_of_string "type", bolt.Value [98])])])]) in
  exists st',
    boltdb.retained_Delete st = Ret (st', None) /\
    boltdb.retained_Load st' = Ret (st', ([], Some types.ErrNotFound)) /\
    boltdb.retained_Delete st' = Ret (st', Some types.ErrNotFound).
Proof.
  cbv zeta.
  eapply (retained_Delete_then_Load_and_Delete (boltdb.NewBoltDB _)).
  - reflexivity.
  - reflexivity.
  - apply NoDup_singleton.
  - reflexivity.
Defined.

Section AllSessions.
Import message bolt types boltdb.

Local Abbreviation is_bucket e :=
  (match e with Some (Bucket _ _) => true | _ => false end).

Lemma Bucket_Bucket_seek (tx : entry) (h : list bytes) (k : bytes) s es :
  lookup h tx = Some (Bucket s es) ->
  Bucket_Bucket tx (Some h) k
  = Ret (match seek k es with
         | Some (Bucket _ _) => Some (h ++ [k])
         | _ => None
         end).
Proof.
  intros Hh. unfold Bucket_Bucket. rewrite (deref_lookup _ _ _ _ Hh). bind_step.
  destruct (seek k es) as [[v|s' es']|]; reflexivity.
Qed.

(** The cursor loop of [GetAll]: it never fails and lists the keys that hold
    a bucket, in key order. *)
Lemma GetAll_scan (tx : entry) (h : list bytes) s es :
  lookup h tx = Some (Bucket s es) ->
  forall (kvs : list (bytes * option bytes)) (res : list session),
    iterate (E := error) (fun k _ res =>
      buck ← Bucket_Bucket tx (Some h) k;
      match buck with
      | Some _ => Ret (res ++ [newSession (string_of_bytes k)], None)
      | None => Ret (res, None)
      end) kvs res
    = Ret (res ++ map (fun k => newSession (string_of_bytes k))
                   (filter (fun k => is_bucket (seek k es) = true) (map fst kvs)), None).
Proof.
  intros Hh kvs. induction kvs as [|[k v] kvs IH]; intros res.
  - cbn. now rewrite app_nil_r.
  - cbn [iterate map fst]. rewrite (Bucket_Bucket_seek tx h k s es Hh). bind_step.
    rewrite filter_cons.
    destruct (seek k es) as [[v0|s' es']|]; bind_step.
    + rewrite decide_False by discriminate. apply IH.
    + rewrite decide_True by reflexivity. rewrite IH, <- app_assoc. reflexivity.
    + rewrite decide_False by discriminate. apply IH.
Qed.

Lemma seek_found_key (k : bytes) (es : list (bytes * entry)) (e : entry) :
  seek k es = Some e -> k ∈ map fst (map pair_of es).
Proof.
  induction es as [|[k0 e0] es IH]; [discriminate|]. simpl.
  destruct (compare k k0) eqn:Hc.
  - apply compare_eq in Hc. subst k0. intros _. destruct e0; apply elem_of_cons; now left.
  - intros H. destruct e0; apply elem_of_cons; right; now apply IH.
  - intros H. destruct e0; apply elem_of_cons; right; now apply IH.
Qed.

End AllSessions.

(** X23. [sessions.GetAll] lists every session [sessions.Get] finds: it
    succeeds where [Get] does, and the session is in its list. *)
Theorem sessions_GetAll_lists_what_Get_finds :
  forall (st : boltdb.dbStatus) (id : string) (ses : boltdb.session),
    boltdb.sessions_Get id st = Ret (st, (Some ses, None)) ->
    exists l,
      boltdb.sessions_GetAll st = Ret (st, (Some l, None)) /\
      In ses l.
Proof.
  intros st id ses HG.
  destruct (sessions_Get_open id st st _ _ HG) as (Hd & tx & Hdb); [discriminate|].
  destruct tx as [v|s0 es0].
  { unfold boltdb.sessions_Get, boltdb.DB_View in HG. rewrite Hd, Hdb in HG. discriminate. }
  assert (Hroot : bolt.lookup [] (bolt.Bucket s0 es0) = Some (bolt.Bucket s0 es0))
    by reflexivity.
  unfold boltdb.sessions_Get, boltdb.DB_View, bolt.root in HG. rewrite Hd, Hdb in HG.
  rewrite (Bucket_Bucket_seek _ [] sessions_key s0 es0 Hroot) in HG.
  cbn [mbind outcome_bind app] in HG.
  destruct (bolt.seek sessions_key es0) as [[v|s1 es1]|] eqn:HS; try discriminate.
  assert (Hl : bolt.lookup [sessions_key] (bolt.Bucket s0 es0) = Some (bolt.Bucket s1 es1)).
  { cbn [bolt.lookup]. now rewrite HS. }
  rewrite (Bucket_Bucket_seek _ [sessions_key] (bolt.bytes_of_string id) s1 es1 Hl) in HG.
  cbn [mbind outcome_bind] in HG.
  destruct (bolt.seek (bolt.bytes_of_string id) es1) as [[v|s2 es2]|] eqn:HI; try discriminate.
  inversion HG; subst ses. clear HG.
  unfold boltdb.sessions_GetAll, boltdb.DB_View, bolt.root. rewrite Hd, Hdb.
  rewrite (Bucket_Bucket_seek _ [] sessions_key s0 es0 Hroot), HS. bind_step. cbn [app].
  unfold bolt.Bucket_Cursor. rewrite (deref_lookup _ _ _ _ Hl). bind_step.
  rewrite (GetAll_scan _ [sessions_key] s1 es1 Hl). bind_step.
  eexists. split; [reflexivity|].
  cbn [app]. apply in_map_iff. exists (bolt.bytes_of_string id).
  split; [now rewrite string_of_bytes_of_string|].
  apply list_elem_of_In. apply list_elem_of_filter. split.
  - now rewrite HI.
  - now apply (seek_found_key _ _ _ HI).
Qed.

Lemma sessions_GetAll_lists_what_Get_finds_witness :
  let st := boltdb.NewBoltDB
              (bolt.Bucket 0 [(bolt.bytes_of_string "sessions",
                 bolt.Bucket 0 [(bolt.bytes_of_string "c1", bolt.Bucket 0 []);
                                (bolt.bytes_of_string "c2", bolt.Bucket 0 [])])]) in
  exists l,
    boltdb.sessions_GetAll st = Ret (st, (Some l, None)) /\
    In (boltdb.newSession "c2") l.
Proof.
  cbv zeta.
  apply (sessions_GetAll_lists_what_Get_finds
           (boltdb.NewBoltDB
              (bolt.Bucket 0 [(bolt.bytes_of_string "sessions",
                 bolt.Bucket 0 [(bolt.bytes_of_string "c1", bolt.Bucket 0 []);
                                (bolt.bytes_of_string "c2", bolt.Bucket 0 [])])]))
           "c2" (boltdb.newSession "c2")).
  reflexivity.
Defined.

(** The fields [putMsg] writes for a packet, as bolt keeps them: in key
    order. *)
Local Abbreviation kind_fields p :=
  (match p with
   | message.Publish m =>
       (if 0 <? len (message.PublishMessage.Payload m)
        then [(bolt.bytes_of_string "payload", bolt.Value (message.PublishMessage.Payload m))]
        else [])
       ++ [(bolt.bytes_of_string "qos", bolt.Value [byte (message.PublishMessage.QoS m)]);
           (bolt.bytes_of_string "topic",
            bolt.Value (bolt.bytes_of_string (message.PublishMessage.Topic m)))]
   | _ => []
   end).

Local Abbreviation id_field v :=
  (if negb (Z.eqb v 0) then [(bolt.bytes_of_string "id", bolt.Value (boltdb.itob16 v))] else []).

Local Abbreviation stored_fields p :=
  (id_field (message.Provider_PacketID p) ++ kind_fields p
   ++ [(bolt.bytes_of_string "type", bolt.Value [byte (message.Provider_Type p)])]).

Section StoreFacts.
Import message bolt types boltdb.

(** A transaction that changed nothing but the bucket at [B], from [e] to
    [e']. *)
Local Abbreviation changes B tx tx' e e' :=
  ((tx' = tx /\ e' = e) \/ exists f : entry -> entry, tx' = update B f tx /\ f e = e').

Lemma update_app (p q : handle) (f : entry -> entry) : forall tx : entry,
  update (p ++ q) f tx = update p (update q f) tx.
Proof.
  induction p as [|k p IH]; intros tx; [reflexivity|]. simpl.
  destruct tx as [v|s es]; [reflexivity|].
  destruct (seek k es) as [e|]; [|reflexivity]. now rewrite IH.
Qed.

Lemma update_update (B : handle) (f g : entry -> entry) : forall tx : entry,
  update B f (update B g tx) = update B (fun e => f (g e)) tx.
Proof.
  induction B as [|k B IH]; intros tx; [reflexivity|]. simpl.
  destruct tx as [v|s es]; [reflexivity|].
  destruct (seek k es) as [e|] eqn:Hs; simpl.
  - now rewrite seek_insert, insert_insert, IH.
  - now rewrite Hs.
Qed.

Lemma changes_lookup (B : handle) (tx tx' e e' : entry) :
  changes B tx tx' e e' -> lookup B tx = Some e -> lookup B tx' = Some e'.
Proof.
  intros [[-> ->] | (f & -> & <-)] Hl; [exact Hl|]. now apply lookup_update_same.
Qed.

Lemma changes_trans (B : handle) (tx tx1 tx2 e e1 e2 : entry) :
  changes B tx tx1 e e1 -> changes B tx1 tx2 e1 e2 -> changes B tx tx2 e e2.
Proof.
  intros [[-> ->] | (f & -> & <-)] [[-> ->] | (g & -> & <-)].
  - now left.
  - right. now exists g.
  - right. now exists f.
  - right. exists (fun e => g (f e)). split; [apply update_update|reflexivity].
Qed.

(** What a change of the one bucket [d] of the bucket at [M] leaves of the
    bucket at [M]. *)
Lemma changes_parent (M : handle) (d : bytes) (tx tx' e e' : entry) s :
  changes (M ++ [d]) tx tx' e e' ->
  lookup M tx = Some (Bucket s [(d, e)]) ->
  lookup M tx' = Some (Bucket s [(d, e')]).
Proof.
  intros [[-> ->] | (f & -> & <-)] Hl; [exact Hl|].
  rewrite lookup_update, Hl. cbn. now rewrite compare_refl.
Qed.

Lemma NextSequence_changes (tx : entry) (B : list bytes) s es :
  lookup B tx = Some (Bucket s es) ->
  exists tx',
    Bucket_NextSequence tx (Some B) = Ret (tx', (s + 1, None)) /\
    changes B tx tx' (Bucket s es) (Bucket (s + 1) es).
Proof.
  intros Hh. unfold Bucket_NextSequence. rewrite (deref_lookup _ _ _ _ Hh). bind_step.
  eexists. split; [reflexivity|]. right. eexists. split; reflexivity.
Qed.

Lemma CreateBucket_changes (tx : entry) (B : list bytes) (k : bytes) s es :
  lookup B tx = Some (Bucket s es) -> len k <> 0 -> seek k es = None ->
  exists tx',
    Bucket_CreateBucket tx (Some B) k = Ret (tx', (Some (B ++ [k]), None)) /\
    changes B tx tx' (Bucket s es) (Bucket s (insert k (Bucket 0 []) es)).
Proof.
  intros Hh Hk Hs. unfold Bucket_CreateBucket.
  rewrite (deref_lookup _ _ _ _ Hh). bind_step.
  destruct (Z.eqb_spec (len k) 0); [contradiction|]. rewrite Hs.
  eexists. split; [reflexivity|]. right. eexists. split; reflexivity.
Qed.

(** [Put] of a field into the record [k] of the bucket at [B]. *)
Lemma Put_field_changes (tx : entry) (B : list bytes) (k key v : bytes) s es
      (F : list (bytes * entry)) :
  lookup B tx = Some (Bucket s (insert k (Bucket 0 F) es)) ->
  len key <> 0 -> len key <= MaxKeySize ->
  (forall s2 es2, seek key F <> Some (Bucket s2 es2)) ->
  exists tx',
    Bucket_Put tx (Some (B ++ [k])) key v = Ret (tx', None) /\
    changes B tx tx' (Bucket s (insert k (Bucket 0 F) es))
      (Bucket s (insert k (Bucket 0 (insert key (Value v) F)) es)).
Proof.
  intros Hh Hlen Hmax Hfree. unfold Bucket_Put.
  assert (Hc : lookup (B ++ [k]) tx = Some (Bucket 0 F)).
  { rewrite lookup_snoc, Hh. apply seek_insert. }
  rewrite (deref_lookup _ _ _ _ Hc). bind_step.
  destruct (Z.eqb_spec (len key) 0); [contradiction|].
  destruct (Z.ltb_spec MaxKeySize (len key)); [lia|].
  assert (Hput : forall put : entry -> entry,
             put (Bucket 0 F) = Bucket 0 (insert key (Value v) F) ->
             changes B tx (update (B ++ [k]) put tx) (Bucket s (insert k (Bucket 0 F) es))
               (Bucket s (insert k (Bucket 0 (insert key (Value v) F)) es))).
  { intros put Hp. right. exists (update [k] put). split; [apply update_app|].
    cbn [update]. now rewrite seek_insert, insert_insert, Hp. }
  destruct (seek key F) as [[v0|s2 es2]|] eqn:Hs.
  - eexists. split; [reflexivity|]. now apply Hput.
  - now destruct (Hfree s2 es2).
  - eexists. split; [reflexivity|]. now apply Hput.
Qed.

(** One [Put] of [putMsg] into the record [k]: the hypothesis on the bucket
    at [B] and the change made so far move on to the new transaction. *)
Ltac put_field key v :=
  match goal with
  | Hl : lookup ?B ?tx = Some (Bucket ?s (insert ?k (Bucket 0 ?F) ?es)),
    Hch : (?tx = _ /\ _ = _) \/ _ |- _ =>
      let tx' := fresh "tx" in
      let HP := fresh "HP" in
      let HC := fresh "HC" in
      let Hch' := fresh "Hch" in
      destruct (Put_field_changes tx B k key v s es F Hl) as (tx' & HP & HC);
      [discriminate | vm_compute; discriminate | intros ? ?; vm_compute; discriminate | ];
      rewrite HP; bind_step;
      apply (changes_lookup _ _ _ _ _ HC) in Hl;
      pose proof (changes_trans _ _ _ _ _ _ _ Hch HC) as Hch';
      clear Hch HC HP
  end.

Lemma putMsg_changes (tx : entry) (B : list bytes) (k : bytes) (p : Provider) s es :
  lookup B tx = Some (Bucket s (insert k (Bucket 0 []) es)) ->
  exists tx',
    putMsg (Some (B ++ [k])) p tx = Ret (tx', None) /\
    changes B tx tx' (Bucket s (insert k (Bucket 0 []) es))
      (Bucket s (insert k (Bucket 0 (stored_fields p)) es)).
Proof.
  intros Hl.
  assert (Hch : changes B tx tx (Bucket s (insert k (Bucket 0 []) es))
                  (Bucket s (insert k (Bucket 0 []) es))) by (left; split; reflexivity).
  unfold putMsg.
  put_field (bytes_of_string "type") [byte (Provider_Type p)].
  destruct (Provider_PacketID p =? 0) eqn:Hid; cbn [negb].
  - bind_step. destruct p as [m|m|h].
    + put_field (bytes_of_string "qos") [byte (PublishMessage.QoS m)].
      put_field (bytes_of_string "topic") (bytes_of_string (PublishMessage.Topic m)).
      destruct (0 <? len (PublishMessage.Payload m)) eqn:Hpl.
      * put_field (bytes_of_string "payload") (PublishMessage.Payload m).
        eexists. split; [reflexivity|]. match goal with H : _ \/ _ |- _ => exact H end.
      * eexists. split; [reflexivity|]. match goal with H : _ \/ _ |- _ => exact H end.
    + eexists. split; [reflexivity|]. match goal with H : _ \/ _ |- _ => exact H end.
    + eexists. split; [reflexivity|]. match goal with H : _ \/ _ |- _ => exact H end.
  - put_field (bytes_of_string "id") (itob16 (Provider_PacketID p)).
    destruct p as [m|m|h].
    + put_field (bytes_of_string "qos") [byte (PublishMessage.QoS m)].
      put_field (bytes_of_string "topic") (bytes_of_string (PublishMessage.Topic m)).
      destruct (0 <? len (PublishMessage.Payload m)) eqn:Hpl.
      * put_field (bytes_of_string "payload") (PublishMessage.Payload m).
        eexists. split; [reflexivity|]. match goal with H : _ \/ _ |- _ => exact H end.
      * eexists. split; [reflexivity|]. match goal with H : _ \/ _ |- _ => exact H end.
    + eexists. split; [reflexivity|]. match goal with H : _ \/ _ |- _ => exact H end.
    + eexists. split; [reflexivity|]. match goal with H : _ \/ _ |- _ => exact H end.
Qed.

End StoreFacts.

Section StoreLoop.
Import message bolt types boltdb.

Local Abbreviation changes B tx tx' e e' :=
  ((tx' = tx /\ e' = e) \/ exists f : entry -> entry, tx' = update B f tx /\ f e = e').

(** The loop of the two [Store] operations on a bucket whose keys are below
    the next sequence number: one record per packet, after those there. *)
Lemma Store_loop_appends (B : list bytes) (msg : list Provider) :
  forall (tx : entry) (n : Z) (es : list (bytes * entry)),
    lookup B tx = Some (Bucket n es) ->
    0 <= n -> n + Z.of_nat (length msg) < 2 ^ 64 ->
    Forall (fun ke => exists j, 0 <= j <= n /\ fst ke = itob64 j) es ->
    exists tx' es',
      Store_loop (Some B) msg tx = Ret (tx', None) /\
      changes B tx tx' (Bucket n es) (Bucket (n + Z.of_nat (length msg)) (es ++ es')) /\
      Forall2 (fun ke p => snd ke = Bucket 0 (stored_fields p)) es' msg /\
      Forall (fun ke => exists j, n < j <= n + Z.of_nat (length msg) /\ fst ke = itob64 j) es' /\
      NoDup (map fst es').
Proof.
  induction msg as [|p msg IH]; intros tx n es HB Hn Hmax Hkeys.
  - exists tx, []. cbn [Store_loop length Z.of_nat]. rewrite app_nil_r, Z.add_0_r.
    split; [reflexivity|]. split; [left; split; reflexivity|]. repeat split; constructor.
  - cbn [length] in Hmax. rewrite Nat2Z.inj_succ in Hmax.
    cbn [Store_loop].
    destruct (NextSequence_changes tx B n es HB) as (tx1 & Hseq & Hc1).
    rewrite Hseq. bind_step.
    pose proof (changes_lookup _ _ _ _ _ Hc1 HB) as HB1.
    set (key := itob64 (n + 1)).
    assert (Habove : Forall (fun ke => compare key (fst ke) = Gt) es).
    { eapply Forall_impl; [exact Hkeys|]. intros [k0 e0] (j & Hj & ->). cbn [fst].
      apply itob64_gt; lia. }
    destruct (CreateBucket_changes tx1 B key (n + 1) es HB1) as (tx2 & Hcb & Hc2).
    { discriminate. }
    { now apply seek_above. }
    rewrite Hcb. bind_step.
    pose proof (changes_lookup _ _ _ _ _ Hc2 HB1) as HB2.
    destruct (putMsg_changes tx2 B key p (n + 1) es HB2) as (tx3 & Hput & Hc3).
    rewrite Hput. bind_step.
    pose proof (changes_lookup _ _ _ _ _ Hc3 HB2) as HB3.
    rewrite (insert_last key _ es Habove) in HB3, Hc3.
    destruct (IH tx3 (n + 1) _ HB3) as (tx' & es' & Hloop & Hc4 & Hrec & Hk' & Hnd);
      [lia|lia| |].
    { apply Forall_app. split.
      - eapply Forall_impl; [exact Hkeys|]. intros ke (j & Hj & Hke). exists j. split; [lia|exact Hke].
      - constructor; [|constructor]. exists (n + 1). split; [lia|reflexivity]. }
    exists tx', ((key, Bucket 0 (stored_fields p)) :: es').
    split; [exact Hloop|]. split; [|split; [|split]].
    + cbn [length]. rewrite Nat2Z.inj_succ.
      replace (n + Z.succ (Z.of_nat (length msg))) with (n + 1 + Z.of_nat (length msg)) by lia.
      replace (es ++ (key, Bucket 0 (stored_fields p)) :: es')
        with ((es ++ [(key, Bucket 0 (stored_fields p))]) ++ es') by now rewrite <- app_assoc.
      exact (changes_trans _ _ _ _ _ _ _
               (changes_trans _ _ _ _ _ _ _ (changes_trans _ _ _ _ _ _ _ Hc1 Hc2) Hc3) Hc4).
    + constructor; [reflexivity|exact Hrec].
    + cbn [length]. rewrite Nat2Z.inj_succ. constructor.
      * exists (n + 1). split; [lia|reflexivity].
      * eapply Forall_impl; [exact Hk'|]. intros ke (j & Hj & Hke). exists j. split; [lia|exact Hke].
    + cbn [map fst]. apply NoDup_cons. split; [|exact Hnd].
      intros Hin. apply elem_of_map_fst in Hin. destruct Hin as [e' Hin].
      rewrite Forall_forall in Hk'. destruct (Hk' _ Hin) as (j & Hj & Hke).
      cbn [fst] in Hke.
      assert (Hlt : compare key (itob64 j) = Lt) by (apply itob64_lt; lia).
      rewrite <- Hke, compare_refl in Hlt. discriminate.
Qed.

End StoreLoop.

(** The packets [Load] can rebuild: the type of the packet is the one its
    kind stands for, and a PUBLISH has a valid QoS, a topic without
    wildcards and a 16-bit packet identifier. *)
Local Abbreviation storable p :=
  (match p with
   | message.Publish m =>
       message.header_Type (message.PublishMessage.hdr m) = message.PUBLISH /\
       message.QosType_IsValid (message.PublishMessage.QoS m) = true /\
       message.PublishMessage.has_wildcard (message.PublishMessage.Topic m) = false /\
       0 <= message.packetID (message.PublishMessage.hdr m) < 65536
   | message.PubRel m =>
       message.header_Type (message.PubRelMessage.hdr m) = message.PUBREL
   | message.Packet h =>
       message.Type_Valid (message.header_Type h) = true /\
       message.header_Type h <> message.PUBLISH /\
       message.header_Type h <> message.PUBREL
   end).

(** What [getMsgs] makes of the record of a packet: a new packet of its
    type; for a PUBLISH, with the packet identifier, the payload, the QoS
    and the topic set, in the order of the keys. *)
Local Abbreviation reloaded p :=
  (match p with
   | message.Publish m =>
       message.Publish
         (fst (message.PublishMessage.SetTopic (message.PublishMessage.Topic m)
            (fst (message.PublishMessage.SetQoS (message.PublishMessage.QoS m)
               (message.PublishMessage.SetPayload (message.PublishMessage.Payload m)
                  (message.PublishMessage.SetPacketID
                     (message.packetID (message.PublishMessage.hdr m))
                     message.PublishMessage.NewPublishMessage))))))
   | message.PubRel _ => message.PubRel message.PubRelMessage.NewPubRelMessage
   | message.Packet h =>
       message.Packet (message.header_setType (message.header_Type h) message.zero_header)
   end).

Section LoadFacts.
Import message bolt types boltdb.

Lemma SetQoS_ok (q : QosType) (x : PublishMessage.t) :
  QosType_IsValid q = true ->
  PublishMessage.SetQoS q x = (fst (PublishMessage.SetQoS q x), None).
Proof. intros H. unfold PublishMessage.SetQoS. now rewrite H. Qed.

Lemma SetTopic_ok (t : string) (x : PublishMessage.t) :
  PublishMessage.has_wildcard t = false ->
  PublishMessage.SetTopic t x = (fst (PublishMessage.SetTopic t x), None).
Proof. intros H. unfold PublishMessage.SetTopic. now rewrite H. Qed.

Lemma QoS_byte (m : PublishMessage.t) :
  byte (PublishMessage.QoS m) = PublishMessage.QoS m.
Proof.
  apply byte_small. unfold PublishMessage.QoS.
  change 3 with (Z.ones 2). rewrite Z.land_ones by lia.
  pose proof (Z.mod_pos_bound (Z.shiftr (mTypeFlags (PublishMessage.hdr m)) 1) (2 ^ 2)).
  change (2 ^ 2) with 4 in *. lia.
Qed.

Lemma iterate_getMsgs_field_Packet kvs (h : header) :
  iterate getMsgs_field kvs (Packet h) = Ret (Packet h, None).
Proof. induction kvs as [|[k v] kvs IH]; [reflexivity|]. cbn. exact IH. Qed.

Lemma seek_type_stored (p : Provider) :
  seek (bytes_of_string "type") (stored_fields p) = Some (Value [byte (Provider_Type p)]).
Proof.
  destruct (Provider_PacketID p =? 0); destruct p as [m|m|h]; cbn [negb app];
    try reflexivity; destruct (0 <? len (PublishMessage.Payload m)); reflexivity.
Qed.

Lemma NewMessage_storable (p : Provider) :
  storable p ->
  NewMessage (byte (Provider_Type p))
  = inl match p with
        | Publish _ => Publish PublishMessage.NewPublishMessage
        | PubRel _ => PubRel PubRelMessage.NewPubRelMessage
        | Packet h => Packet (header_setType (header_Type h) zero_header)
        end.
Proof.
  destruct p as [m|m|h]; unfold Provider_Type, Provider_header.
  - intros (-> & _). reflexivity.
  - intros ->. reflexivity.
  - intros (Hv & Hp & Hr). unfold Type_Valid in Hv. apply andb_true_iff in Hv.
    destruct Hv as [H1 H2]. apply Z.leb_le in H1, H2. unfold CONNECT, DISCONNECT in *.
    rewrite byte_small by lia. unfold NewMessage, Type_Valid.
    destruct (Z.leb_spec CONNECT (header_Type h)); [|unfold CONNECT in *; lia].
    destruct (Z.leb_spec (header_Type h) DISCONNECT); [|unfold DISCONNECT in *; lia].
    cbn [andb negb].
    destruct (Z.eqb_spec (header_Type h) PUBLISH); [contradiction|].
    destruct (Z.eqb_spec (header_Type h) PUBREL); [contradiction|]. reflexivity.
Qed.

(** The callback of [getMsgs] on each field of a stored PUBLISH. *)
Lemma getMsgs_field_id (x : PublishMessage.t) (v : Z) :
  0 <= v < 65536 ->
  getMsgs_field (bytes_of_string "id") (Some (itob16 v)) (Publish x)
  = Ret (Publish (PublishMessage.SetPacketID v x), None).
Proof.
  intros Hv. unfold getMsgs_field. rewrite string_of_bytes_of_string.
  cbn [String.eqb Ascii.eqb Bool.eqb default from_option]. unfold Datatypes.id, itob16.
  now rewrite Uint16_big_endian by exact Hv.
Qed.

Lemma getMsgs_field_payload (x : PublishMessage.t) (pl : bytes) :
  getMsgs_field (bytes_of_string "payload") (Some pl) (Publish x)
  = Ret (Publish (PublishMessage.SetPayload pl x), None).
Proof. reflexivity. Qed.

Lemma getMsgs_field_qos (x : PublishMessage.t) (q : QosType) :
  QosType_IsValid q = true -> byte q = q ->
  getMsgs_field (bytes_of_string "qos") (Some [byte q]) (Publish x)
  = Ret (Publish (fst (PublishMessage.SetQoS q x)), None).
Proof.
  intros Hq Hb. unfold getMsgs_field. rewrite string_of_bytes_of_string.
  cbn [String.eqb Ascii.eqb Bool.eqb]. rewrite Hb, (SetQoS_ok q x Hq). reflexivity.
Qed.

Lemma getMsgs_field_topic (x : PublishMessage.t) (t : string) :
  PublishMessage.has_wildcard t = false ->
  getMsgs_field (bytes_of_string "topic") (Some (bytes_of_string t)) (Publish x)
  = Ret (Publish (fst (PublishMessage.SetTopic t x)), None).
Proof.
  intros Ht. unfold getMsgs_field. rewrite string_of_bytes_of_string.
  cbn [String.eqb Ascii.eqb Bool.eqb default from_option]. unfold Datatypes.id.
  rewrite string_of_bytes_of_string, (SetTopic_ok t x Ht). reflexivity.
Qed.

Lemma getMsgs_field_type (x : PublishMessage.t) (v : option bytes) :
  getMsgs_field (bytes_of_string "type") v (Publish x) = Ret (Publish x, None).
Proof. reflexivity. Qed.

(** The callback of [getMsgs] over the fields of a stored PUBLISH. *)
Lemma iterate_getMsgs_field_Publish (m : PublishMessage.t) :
  storable (Publish m) ->
  iterate getMsgs_field (map pair_of (stored_fields (Publish m)))
    (Publish PublishMessage.NewPublishMessage)
  = Ret (reloaded (Publish m), None).
Proof.
  intros (Hty & Hq & Ht & Hid).
  assert (Hpl : (0 <? len (PublishMessage.Payload m)) = false -> PublishMessage.Payload m = []).
  { intros H. apply Z.ltb_ge in H. destruct (PublishMessage.Payload m); [reflexivity|].
    rewrite len_cons in H. pose proof (len_nonneg l). lia. }
  unfold Provider_PacketID, Provider_Type, Provider_header.
  destruct (Z.eqb_spec (packetID (PublishMessage.hdr m)) 0) as [Hz|Hnz];
    destruct (0 <? len (PublishMessage.Payload m)) eqn:Hp;
    cbn [negb app map pair_of iterate];
    rewrite ?getMsgs_field_id by exact Hid; bind_step;
    rewrite ?getMsgs_field_payload; bind_step;
    rewrite (getMsgs_field_qos _ _ Hq (QoS_byte m)); bind_step;
    rewrite (getMsgs_field_topic _ _ Ht); bind_step;
    rewrite getMsgs_field_type; bind_step;
    rewrite ?Hz; rewrite ?(Hpl eq_refl); reflexivity.
Qed.

(** The cursor loop of [getMsgs] on the record of one packet. *)
Lemma getMsgs_entry_record (tx : entry) (B : list bytes) (k : bytes) (v : option bytes)
      (p : Provider) (entries : list Provider) :
  lookup (B ++ [k]) tx = Some (Bucket 0 (stored_fields p)) ->
  storable p ->
  getMsgs_entry tx (Some B) k v entries = Ret (entries ++ [reloaded p], None).
Proof.
  intros Hk Hp. unfold getMsgs_entry.
  rewrite (Bucket_Bucket_found tx B k _ _ Hk). bind_step.
  unfold Bucket_Get. rewrite (deref_lookup _ _ _ _ Hk). bind_step.
  rewrite seek_type_stored. bind_step. rewrite (NewMessage_storable p Hp).
  unfold Bucket_ForEach, Bucket_Cursor. rewrite (deref_lookup _ _ _ _ Hk). bind_step.
  destruct p as [m|m|h].
  - rewrite (iterate_getMsgs_field_Publish m Hp). reflexivity.
  - rewrite iterate_getMsgs_field_PubRel. reflexivity.
  - rewrite iterate_getMsgs_field_Packet. reflexivity.
Qed.

Lemma getMsgs_records (tx : entry) (B : list bytes) (n : Z) (es : list (bytes * entry)) :
  lookup B tx = Some (Bucket n es) ->
  NoDup (map fst es) ->
  forall (suf pre : list (bytes * entry)) (msg entries : list Provider),
    es = pre ++ suf ->
    Forall2 (fun ke p => snd ke = Bucket 0 (stored_fields p)) suf msg ->
    Forall (fun p => storable p) msg ->
    iterate (getMsgs_entry tx (Some B)) (map pair_of suf) entries
    = Ret (entries ++ map (fun p => reloaded p) msg, None).
Proof.
  intros HB Hnd suf. induction suf as [|[k e] suf IH]; intros pre msg entries Hes Hrec Hst.
  - inversion Hrec; subst. cbn. now rewrite app_nil_r.
  - inversion Hrec as [|? p ? msg' He Hrec']; subst. cbn [fst snd] in He. subst e.
    inversion Hst as [|? ? Hp Hst']; subst.
    cbn [map iterate]. cbn [pair_of].
    rewrite (getMsgs_entry_record tx B k _ p entries).
    + bind_step. rewrite (IH (pre ++ [(k, Bucket 0 (stored_fields p))]) msg');
        [|now rewrite <- app_assoc|exact Hrec'|exact Hst'].
      now rewrite <- app_assoc.
    + rewrite lookup_snoc, HB. rewrite seek_app_absent.
      * cbn [seek]. now rewrite compare_refl.
      * rewrite map_app in Hnd. apply NoDup_app in Hnd. destruct Hnd as (_ & Hdis & _).
        intros Hin. apply (Hdis k Hin). cbn. apply elem_of_cons. now left.
    + exact Hp.
Qed.

Lemma getMsgs_of_records (tx : entry) (B : list bytes) (n : Z) (es : list (bytes * entry))
      (msg : list Provider) :
  lookup B tx = Some (Bucket n es) ->
  NoDup (map fst es) ->
  Forall2 (fun ke p => snd ke = Bucket 0 (stored_fields p)) es msg ->
  Forall (fun p => storable p) msg ->
  getMsgs tx (Some B) = Ret (map (fun p => reloaded p) msg, None).
Proof.
  intros HB Hnd Hrec Hst. unfold getMsgs, Bucket_Cursor.
  rewrite (deref_lookup _ _ _ _ HB). bind_step.
  rewrite (getMsgs_records tx B n es HB Hnd es [] msg [] eq_refl Hrec Hst). reflexivity.
Qed.

End LoadFacts.

Section StoreLoad.
Import message bolt types boltdb.

Lemma bytes_of_string_inj (a b : string) : bytes_of_string a = bytes_of_string b -> a = b.
Proof.
  intros H. rewrite <- (string_of_bytes_of_string a), <- (string_of_bytes_of_string b).
  now rewrite H.
Qed.

Lemma seek_other (k d : bytes) (e : entry) : k <> d -> seek k [(d, e)] = None.
Proof.
  intros Hne. cbn. pose proof (compare_neq k d Hne). now destruct (compare k d).
Qed.

Lemma seek_same (d : bytes) (e : entry) : seek d [(d, e)] = Some e.
Proof. cbn. now rewrite compare_refl. Qed.

(** [retained.Store] on a store without retained messages. *)
Lemma retained_Store_fresh (st : dbStatus) sq es (msg : list Provider) :
  done st = false -> db st = Some (Bucket sq es) ->
  seek retained_key es = None ->
  Z.of_nat (length msg) < 2 ^ 64 ->
  exists tx' es',
    retained_Store msg st = Ret (mkStatus (Some tx') false, None) /\
    lookup [retained_key] tx' = Some (Bucket (Z.of_nat (length msg)) es') /\
    Forall2 (fun ke p => snd ke = Bucket 0 (stored_fields p)) es' msg /\
    NoDup (map fst es').
Proof.
  intros Hd Hdb Hfree Hsize.
  destruct (Bucket_CreateBucketIfNotExists_new (Bucket sq es) [] retained_key sq es eq_refl)
    as (tx1 & Hc & _ & HB1); [discriminate|exact Hfree|].
  cbn [app] in *.
  destruct (Store_loop_appends [retained_key] msg tx1 0 [] HB1)
    as (tx' & es' & Hloop & Hch & Hrec & _ & Hnd); [lia|lia|constructor|].
  pose proof (changes_lookup _ _ _ _ _ Hch HB1) as HB'. cbn [app Z.add] in HB'.
  exists tx', es'. split; [|split; [exact HB'|split; [exact Hrec|exact Hnd]]].
  unfold retained_Store, DB_Update, root. rewrite Hd, Hdb, Hc. bind_step.
  rewrite Hloop. reflexivity.
Qed.

(** [messages.Store] on a session without queued messages. *)
Lemma messages_Store_fresh (st : dbStatus) (tx : entry) (id dir : string) s es
      (msg : list Provider) :
  done st = false -> db st = Some tx ->
  lookup [sessions_key; bytes_of_string id] tx = Some (Bucket s es) ->
  seek messages_key es = None ->
  dir <> EmptyString ->
  Z.of_nat (length msg) < 2 ^ 64 ->
  exists tx' es',
    messages_Store (mkMessages id) dir msg st = Ret (mkStatus (Some tx') false, None) /\
    lookup [sessions_key; bytes_of_string id; messages_key] tx'
    = Some (Bucket 0 [(bytes_of_string dir, Bucket (Z.of_nat (length msg)) es')]) /\
    Forall2 (fun ke p => snd ke = Bucket 0 (stored_fields p)) es' msg /\
    NoDup (map fst es').
Proof.
  intros Hd Hdb Hses Hfree Hdir Hsize.
  set (P := [sessions_key; bytes_of_string id]) in *.
  destruct (Bucket_CreateBucketIfNotExists_new tx P messages_key s es Hses)
    as (tx1 & Hc1 & _ & HM1); [discriminate|exact Hfree|].
  destruct (Bucket_CreateBucketIfNotExists_new tx1 (P ++ [messages_key])
              (bytes_of_string dir) 0 [] HM1)
    as (tx2 & Hc2 & HM2 & HB2); [now apply len_bytes_of_string|reflexivity|].
  cbn [insert] in HM2.
  destruct (Store_loop_appends ((P ++ [messages_key]) ++ [bytes_of_string dir]) msg tx2 0 [] HB2)
    as (tx' & es' & Hloop & Hch & Hrec & _ & Hnd); [lia|lia|constructor|].
  pose proof (changes_parent _ _ _ _ _ _ _ Hch HM2) as HM'. cbn [app Z.add] in HM'.
  exists tx', es'. split; [|split; [exact HM'|split; [exact Hrec|exact Hnd]]].
  unfold messages_Store, DB_Update. rewrite Hd, Hdb. cbn [msgs_id].
  rewrite (with_session_found tx id _ _ s es Hses). fold P. rewrite Hc1. bind_step.
  rewrite Hc2. bind_step. rewrite Hloop. reflexivity.
Qed.

(** [messages.Load] on a session whose messages are the records of [msg],
    stored under one direction. *)
Lemma messages_Load_of_records (st : dbStatus) (tx : entry) (id dir : string) n es
      (msg : list Provider) :
  done st = false -> db st = Some tx ->
  lookup [sessions_key; bytes_of_string id; messages_key] tx
  = Some (Bucket 0 [(bytes_of_string dir, Bucket n es)]) ->
  NoDup (map fst es) ->
  Forall2 (fun ke p => snd ke = Bucket 0 (stored_fields p)) es msg ->
  Forall (fun p => storable p) msg ->
  messages_Load (mkMessages id) st
  = Ret (st, (Some (mkSessionMessages
                      (if String.eqb dir "in" then map (fun p => reloaded p) msg else [])
                      (if String.eqb dir "out" then map (fun p => reloaded p) msg else [])),
              None)).
Proof.
  intros Hd Hdb HM Hnd Hrec Hst.
  set (P := [sessions_key; bytes_of_string id]) in *.
  change [sessions_key; bytes_of_string id; messages_key] with (P ++ [messages_key]) in HM.
  destruct (lookup_bucket_prefix P messages_key [] tx _ HM) as (s & es0 & Hses).
  assert (HB : lookup ((P ++ [messages_key]) ++ [bytes_of_string dir]) tx = Some (Bucket n es)).
  { rewrite lookup_snoc, HM. apply seek_same. }
  pose proof (getMsgs_of_records tx _ n es msg HB Hnd Hrec Hst) as Hget.
  unfold messages_Load, DB_View. rewrite Hd, Hdb. cbn [msgs_id].
  rewrite (with_session_found tx id _ _ s es0 Hses). fold P.
  rewrite (Bucket_Bucket_found tx P messages_key _ _ HM). bind_step.
  rewrite !(Bucket_Bucket_seek tx (P ++ [messages_key]) _ _ _ HM).
  destruct (String.eqb_spec dir "in") as [->|Hin].
  - rewrite seek_same. bind_step. rewrite Hget. bind_step.
    rewrite seek_other by discriminate. reflexivity.
  - rewrite (seek_other (bytes_of_string "in")).
    2:{ intros Heq. apply bytes_of_string_inj in Heq. congruence. }
    bind_step.
    destruct (String.eqb_spec dir "out") as [->|Hout].
    + rewrite seek_same. bind_step. rewrite Hget. reflexivity.
    + rewrite (seek_other (bytes_of_string "out")).
      2:{ intros Heq. apply bytes_of_string_inj in Heq. congruence. }
      reflexivity.
Qed.

End StoreLoad.

(** X24. Queued messages survive the store as far as [putMsg] writes them
    down. On an open store with a session that has no messages yet,
    [messages.Store] of packets [Load] can rebuild succeeds under any
    non-empty direction name; the [Load] that follows returns, for the
    direction [in] or [out], one packet per packet stored, in the order
    stored: a new packet of the same type, which for a PUBLISH carries the
    packet identifier, payload, QoS and topic of the one stored and nothing
    else of it. Packets stored under another direction name are in the
    store and are never loaded. *)
Theorem messages_Store_then_Load :
  forall (st : boltdb.dbStatus) (tx : bolt.entry) (id dir : string) s es
         (msg : list message.Provider),
    boltdb.done st = false ->
    boltdb.db st = Some tx ->
    bolt.lookup [bolt.bytes_of_string boltdb.bucketSessions; bolt.bytes_of_string id] tx
    = Some (bolt.Bucket s es) ->
    bolt.seek (bolt.bytes_of_string boltdb.bucketMessages) es = None ->
    dir <> EmptyString ->
    Z.of_nat (length msg) < 2 ^ 64 ->
    Forall (fun p => storable p) msg ->
    exists st',
      boltdb.messages_Store (boltdb.mkMessages id) dir msg st = Ret (st', None) /\
      boltdb.messages_Load (boltdb.mkMessages id) st'
      = Ret (st', (Some (types.mkSessionMessages
                           (if String.eqb dir "in" then map (fun p => reloaded p) msg else [])
                           (if String.eqb dir "out" then map (fun p => reloaded p) msg else [])),
                   None)).
Proof.
  intros st tx id dir s es msg Hd Hdb Hses Hfree Hdir Hsize Hst.
  destruct (messages_Store_fresh st tx id dir s es msg Hd Hdb Hses Hfree Hdir Hsize)
    as (tx' & es' & HS & HM & Hrec & Hnd).
  eexists. split; [exact HS|].
  now apply (messages_Load_of_records (boltdb.mkStatus (Some tx') false) tx' id dir
               (Z.of_nat (length msg)) es' msg).
Qed.

Lemma messages_Store_then_Load_witness :
  let tx :=
    bolt.Bucket 0 [(bolt.bytes_of_string "sessions",
      bolt.Bucket 0 [(bolt.bytes_of_string "c1", bolt.Bucket 0 [])])] in
  let msg :=
    [message.Publish
       (message.PublishMessage.mk (message.mkHeader 9 53 7) "a/b" [1; 2]);
     message.PubRel (message.PubRelMessage.SetPacketID 7 message.PubRelMessage.NewPubRelMessage)] in
  exists st',
    boltdb.messages_Store (boltdb.mkMessages "c1") "out" msg (boltdb.NewBoltDB tx)
    = Ret (st', None) /\
    boltdb.messages_Load (boltdb.mkMessages "c1") st'
    = Ret (st', (Some (types.mkSessionMessages
                         (if String.eqb "out" "in" then map (fun p => reloaded p) msg else [])
                         (if String.eqb "out" "out" then map (fun p => reloaded p) msg else [])),
                 None)).
Proof.
  cbv zeta.
  apply (messages_Store_then_Load
           (boltdb.NewBoltDB
              (bolt.Bucket 0 [(bolt.bytes_of_string "sessions",
                 bolt.Bucket 0 [(bolt.bytes_of_string "c1", bolt.Bucket 0 [])])]))
           (bolt.Bucket 0 [(bolt.bytes_of_string "sessions",
              bolt.Bucket 0 [(bolt.bytes_of_string "c1", bolt.Bucket 0 [])])])
           "c1" "out" 0 []).
  - reflexivity.
  - reflexivity.
  - reflexivity.
  - reflexivity.
  - discriminate.
  - vm_compute. reflexivity.
  - repeat constructor; vm_compute; congruence.
Defined.

(** X25. Retained messages survive the store in the same way: on an open
    store without retained messages, [retained.Store] of packets [Load] can
    rebuild succeeds and the [retained.Load] that follows returns one packet
    per packet stored, in the order stored, rebuilt from its stored fields,
    and no error. *)
Theorem retained_Store_then_Load :
  forall (st : boltdb.dbStatus) sq es (msg : list message.Provider),
    boltdb.done st = false ->
    boltdb.db st = Some (bolt.Bucket sq es) ->
    bolt.seek (bolt.bytes_of_string boltdb.bucketRetained) es = None ->
    Z.of_nat (length msg) < 2 ^ 64 ->
    Forall (fun p => storable p) msg ->
    exists st',
      boltdb.retained_Store msg st = Ret (st', None) /\
      boltdb.retained_Load st' = Ret (st', (map (fun p => reloaded p) msg, None)).
Proof.
  intros st sq es msg Hd Hdb Hfree Hsize Hst.
  destruct (retained_Store_fresh st sq es msg Hd Hdb Hfree Hsize)
    as (tx' & es' & HS & HB & Hrec & Hnd).
  eexists. split; [exact HS|].
  unfold boltdb.retained_Load, boltdb.DB_View, bolt.root. cbn [boltdb.done boltdb.db].
  rewrite (Bucket_Bucket_found tx' [] retained_key _ _ HB). bind_step. cbn [app].
  rewrite (getMsgs_of_records tx' _ _ es' msg HB Hnd Hrec Hst). reflexivity.
Qed.

Lemma retained_Store_then_Load_witness :
  let msg :=
    [message.Publish
       (message.PublishMessage.mk (message.mkHeader 9 49 0) "a/b" []);
     message.Packet (message.mkHeader 2 64 7)] in
  exists st',
    boltdb.retained_Store msg (boltdb.NewBoltDB bolt.empty_db) = Ret (st', None) /\
    boltdb.retained_Load st' = Ret (st', (map (fun p => reloaded p) msg, None)).
Proof.
  cbv zeta.
  apply (retained_Store_then_Load (boltdb.NewBoltDB bolt.empty_db) 0 []).
  - reflexivity.
  - reflexivity.
  - reflexivity.
  - vm_compute. reflexivity.
  - repeat constructor; vm_compute; congruence.
Defined.

(** X26. A PINGREQ packet survives the wire: for a message built by
    [NewPingReqMessage] and a buffer of at least two bytes,
    [PingReqMessage.Encode] writes byte 0 and the remaining length 0, leaves
    the rest of the buffer untouched and returns 2; [PingReqMessage.decode]
    accepts these bytes, into any message, and returns 2 as well. *)
Theorem PingReq_Encode_then_decode :
  forall (msg msg0 : message.PingReqMessage.t) (dst : list Z),
    let h := message.PingReqMessage.hdr msg in
    message.mTypeFlags h
    = message.mTypeFlags (message.PingReqMessage.hdr message.PingReqMessage.NewPingReqMessage) ->
    2 <= len dst ->
    let out := [message.mTypeFlags h; 0] ++ skipn 2 dst in
    message.PingReqMessage.Encode msg dst
    = Ret (message.PingReqMessage.mk (message.set_remLen 0 h), out, (2, None)) /\
    message.PingReqMessage.decode msg0 out
    = Ret (message.PingReqMessage.mk
             (message.mkHeader 0 (message.mTypeFlags h)
                (message.packetID (message.PingReqMessage.hdr msg0))),
           (2, None)).
Proof.
  intros msg msg0 dst h Hty Hlen out. split.
  - apply PingReq_Encode_fits; [|exact Hlen].
    unfold message.header_needsPacketID, message.header_Type, message.header_Flags.
    fold h. rewrite Hty. reflexivity.
  - unfold message.PingReqMessage.decode, out.
    change ([message.mTypeFlags h; 0] ++ skipn 2 dst)
      with (message.mTypeFlags h :: message.encode_varint 0 ++ skipn 2 dst).
    rewrite header_decode_encoded;
      [reflexivity|rewrite Hty; reflexivity|rewrite Hty; reflexivity
      |unfold message.maxRemainingLength; lia|apply len_nonneg].
Qed.

Lemma PingReq_Encode_then_decode_witness :
  let msg := message.PingReqMessage.NewPingReqMessage in
  let dst := [9; 9; 9] in
  message.PingReqMessage.Encode msg dst
  = Ret (message.PingReqMessage.mk (message.set_remLen 0 (message.PingReqMessage.hdr msg)),
         [message.mTypeFlags (message.PingReqMessage.hdr msg); 0] ++ skipn 2 dst, (2, None)) /\
  message.PingReqMessage.decode msg
    ([message.mTypeFlags (message.PingReqMessage.hdr msg); 0] ++ skipn 2 dst)
  = Ret (message.PingReqMessage.mk
           (message.mkHeader 0 (message.mTypeFlags (message.PingReqMessage.hdr msg))
              (message.packetID (message.PingReqMessage.hdr msg))),
         (2, None)).
Proof.
  cbv zeta.
  apply (PingReq_Encode_then_decode message.PingReqMessage.NewPingReqMessage
           message.PingReqMessage.NewPingReqMessage [9; 9; 9]).
  - reflexivity.
  - vm_compute. discriminate.
Defined.
